(** * Real-time analytics server: ingestion, rolling windows, fan-out

    A shallow embedding of [index.js]: the event schema, the two
    authentication paths, the in-memory rolling windows, the MongoDB
    collections as far as the server uses them, the topic registry and the
    handlers, run by a model of the Node event loop (one callback at a time,
    promise continuations in a FIFO job queue that is emptied before the next
    callback).

    Outside the model: the middleware in front of the routes ([helmet],
    [cors], [express.json], the rate limiter), the [/health] and [/ready]
    routes, the secondary indexes and the TTL of the raw events.  A request
    of the model is one that the middleware has handed to its route; where a
    property is about a body that a client sends, the 32kb limit of
    [express.json] is a hypothesis of it.  Counters are integers of [Z]: no
    batch comes near 2^53, where the doubles of JavaScript stop being exact.

    Of the dashboard client the file models what is computed without React:
    [coalesce], the reconnect delays of [useWs], the updater of the history
    and the batch of [SendDemo]. *)

From Stdlib Require Import ZArith QArith List String Ascii Lia DecimalString.
From Stdlib Require Import Sorting.Sorted Sorting.Permutation.
From stdpp Require Import gmap strings list fin_maps sorting.

Open Scope string_scope.
Open Scope Z_scope.
Open Scope list_scope.

(** ** JavaScript values *)

Set Warnings "-register-all".

(** A JSON value as [express.json()] and [JSON.parse] deliver it.  Numbers are
    rationals; an object is its list of own properties in insertion order. *)
Inductive json : Type :=
| JNull
| JBool (b : bool)
| JNum (q : Q)
| JStr (s : string)
| JArr (items : list json)
| JObj (props : list (string * json)).

(** JavaScript truthiness on JSON values ([!payload], [if (auth)]). *)
Definition truthy (v : json) : bool :=
  match v with
  | JNull => false
  | JBool b => b
  | JNum q => negb (Qnum q =? 0)
  | JStr s => negb (String.eqb s "")
  | JArr _ | JObj _ => true
  end.

Definition truthy_str (s : string) : bool := negb (String.eqb s "").

(** [s.slice(n)] for [0 <= n]. *)
Fixpoint slice (n : nat) (s : string) : string :=
  match n, s with
  | O, _ => s
  | S n', String _ s' => slice n' s'
  | S _, EmptyString => EmptyString
  end.

(** [s.startsWith(p)]. *)
Definition startsWith (s p : string) : bool := String.prefix p s.

(** The decimal rendering of an integer inside a template literal. *)
Definition decimal (z : Z) : string := NilZero.string_of_int (Z.to_int z).

(** A JavaScript [Map] (and the own properties of an object): entries in
    insertion order, one per key; [set] on a present key keeps its place. *)
Module JsMap.
Section WithValue.
Context {V : Type}.

Fixpoint get (k : string) (m : list (string * V)) : option V :=
  match m with
  | [] => None
  | (k', v) :: m' => if String.eqb k' k then Some v else get k m'
  end.

Fixpoint set (k : string) (v : V) (m : list (string * V)) : list (string * V) :=
  match m with
  | [] => [(k, v)]
  | (k', v') :: m' =>
      if String.eqb k' k then (k', v) :: m' else (k', v') :: set k v m'
  end.

Definition keys (m : list (string * V)) : list string := map fst m.
End WithValue.
End JsMap.

(** [Array.prototype.sort(cmp)]: the sort is stable (ECMAScript 2019), so for
    a comparator that is a consistent order the result is the one of any
    stable sort; here insertion from the right.  [cmp a b <= 0] keeps [a]
    in front of [b]. *)
Fixpoint sort_insert {A : Type} (cmp : A -> A -> Z) (x : A) (l : list A) : list A :=
  match l with
  | [] => [x]
  | y :: l' => if cmp x y <=? 0 then x :: y :: l' else y :: sort_insert cmp x l'
  end.

Fixpoint js_sort {A : Type} (cmp : A -> A -> Z) (l : list A) : list A :=
  match l with
  | [] => []
  | x :: l' => sort_insert cmp x (js_sort cmp l')
  end.

(** ** Events and rolling windows *)

(** A validated event, the value [eventSchema.validate] returns. *)
Record event : Type := mkEvent {
  eventId : string;
  ts : Z;
  userId : string;
  sessionId : string;
  route : string;
  action : string;
  metadata : list (string * json)
}.

Definition WINDOW_SIZES : list Z := [1; 5; 60].

Definition getBucketStart (tsMs windowSec : Z) : Z :=
  let bucketMs := windowSec * 1000 in
  (tsMs / bucketMs) * bucketMs.

(** A bucket: [{ count, uniques: Set, routes: Map, errors }]. *)
Record entry : Type := mkEntry {
  count : Z;
  uniques : gset string;
  routes : list (string * Z);
  errors : Z
}.

Definition new_entry : entry := mkEntry 0 ∅ [] 0.

(** What [serializeEntry] returns. *)
Record serialized : Type := mkSerialized {
  s_count : Z;
  s_uniques : nat;
  s_routes : list (string * Z);
  s_errors : Z
}.

Definition by_count_desc (a b : string * Z) : Z := snd b - snd a.

Definition serializeEntry (e : entry) : serialized :=
  {| s_count := count e;
     s_uniques := size (uniques e);
     s_routes := take 10 (js_sort by_count_desc (routes e));
     s_errors := errors e |}.

(** The body of the loop over [events] in [handleEvents], for one event. *)
Definition tally (e : entry) (ev : event) : entry :=
  {| count := count e + 1;
     uniques := if truthy_str (userId ev) then uniques e ∪ {[userId ev]} else uniques e;
     routes :=
       let r := default 0 (JsMap.get (route ev) (routes e)) in
       JsMap.set (route ev) (r + 1) (routes e);
     errors := if String.eqb (action ev) "error" then errors e + 1 else errors e |}.

(** [memoryWindows]: the outer [Map] has the three keys of [WINDOW_SIZES] from
    start-up on and is never resized, so the two levels are one finite map
    keyed by (window size, bucket start). *)
Definition bucket_of (mw : gmap (Z * Z) entry) (w b : Z) : entry :=
  default new_entry (mw !! (w, b)).

(** One turn of the loop over [WINDOW_SIZES] in [handleEvents], up to the
    [await]: the bucket of [now] is fetched or created, every event is
    tallied, and the bucket is serialized. *)
Definition update_window (events : list event) (now w : Z) (mw : gmap (Z * Z) entry)
  : gmap (Z * Z) entry * serialized :=
  let bucketStart := getBucketStart now w in
  let e := fold_left tally events (bucket_of mw w bucketStart) in
  (<[(w, bucketStart) := e]> mw, serializeEntry e).

Definition window_key (w : Z) : string := decimal w +:+ "s".

Definition latestAggregatesSnapshot (mw : gmap (Z * Z) entry) (now : Z)
  : list (string * serialized) :=
  map (fun w => (window_key w, serializeEntry (bucket_of mw w (getBucketStart now w))))
      WINDOW_SIZES.

(** The background job: buckets older than five bucket lengths are deleted. *)
Definition janitor (now : Z) (mw : gmap (Z * Z) entry) : gmap (Z * Z) entry :=
  filter (fun kb => ¬ (kb.1.1 ∈ WINDOW_SIZES ∧ kb.1.2 < now - kb.1.1 * 1000 * 5)) mw.

(** ** Library calls

    What the server asks of [jsonwebtoken] and of Joi's string conversions.
    [jwt_sign who secret now ttl] is [jwt.sign({ sub: who }, secret,
    { expiresIn })] at clock [now] (ms) with [ttl] in seconds;
    [jwt_verify token secret now] is [jwt.verify(token, secret)] at clock
    [now], [None] when it throws.  Of the decoded token the server reads
    [sub] only.  Joi validates in its default conversion mode, where a field
    given as a string is first converted to the type of its schema:
    [joi_number_of_string] and [joi_object_of_string] are these conversions,
    [None] when the string is left as it is. *)
Record claims : Type := mkClaims {
  sub : option string
}.

Class Platform : Type := {
  jwt_sign : string -> string -> Z -> Z -> string;
  jwt_verify : string -> string -> Z -> option claims;
  joi_number_of_string : string -> option Q;
  joi_object_of_string : string -> option (list (string * json))
}.

(** The contract of [jsonwebtoken] the server relies on: the empty string is
    no token, and a token verifies under the secret that signed it while the
    clock, in seconds, is before its expiry. *)
Class PlatformLaws (P : Platform) : Prop := {
  jwt_verify_empty : forall secret now, jwt_verify "" secret now = None;
  jwt_verify_sign : forall who secret now ttl now',
    now' / 1000 < now / 1000 + ttl ->
    jwt_verify (jwt_sign who secret now ttl) secret now' = Some (mkClaims (Some who))
}.

(** A stand-in for the libraries, to run the model on concrete requests: a
    token is the secret, a dot and the subject, and never expires; Joi
    converts no string. *)
Definition stub_sign (who secret : string) (now ttl : Z) : string :=
  secret +:+ "." +:+ who.

Definition stub_verify (token secret : string) (now : Z) : option claims :=
  if startsWith token (secret +:+ ".")
  then Some (mkClaims (Some (slice (S (String.length secret)) token)))
  else None.

Definition stub : Platform :=
  {| jwt_sign := stub_sign;
     jwt_verify := stub_verify;
     joi_number_of_string := fun _ => None;
     joi_object_of_string := fun _ => None |}.

(** ** The event schema *)

Module Joi.

Definition is_hex (c : ascii) : bool :=
  let n := nat_of_ascii c in
  ((48 <=? n) && (n <=? 57) || (65 <=? n) && (n <=? 70) || (97 <=? n) && (n <=? 102))%nat.

Definition one_of (cs : string) (c : ascii) : bool :=
  existsb (Ascii.eqb c) (list_ascii_of_string cs).

Fixpoint eat_hex (n : nat) (s : list ascii) : option (list ascii) :=
  match n with
  | O => Some s
  | S n' =>
      match s with
      | c :: s' => if is_hex c then eat_hex n' s' else None
      | [] => None
      end
  end.

Definition eat (p : ascii -> bool) (s : list ascii) : option (list ascii) :=
  match s with
  | c :: s' => if p c then Some s' else None
  | [] => None
  end.

(** [(class?)]: the character is taken when it is in the class. *)
Definition eat_opt (p : ascii -> bool) (s : list ascii) : option ascii * list ascii :=
  match s with
  | c :: s' => if p c then (Some c, s') else (None, s)
  | [] => (None, s)
  end.

(** [\2?]: the separator that was captured, once more or not at all. *)
Definition eat_same (sep : option ascii) (s : list ascii) : list ascii :=
  match sep, s with
  | Some c, c' :: s' => if Ascii.eqb c c' then s' else s
  | _, _ => s
  end.

Definition guid_brackets (o c : option ascii) : bool :=
  match o, c with
  | None, None => true
  | Some a, Some b =>
      Ascii.eqb a "{" && Ascii.eqb b "}"
      || Ascii.eqb a "[" && Ascii.eqb b "]"
      || Ascii.eqb a "(" && Ascii.eqb b ")"
  | _, _ => false
  end.

(** [Joi.string().guid({ version: 'uuidv4' })], whose rule is the
    case-insensitive pattern
    [^([\[{\(]?)H{8}([:-]?)H{4}\2?[4]H{3}\2?[89AB]H{3}\2?H{12}([\]}\)]?)$]
    with [H = [0-9A-F]], followed by the check that the brackets pair up.
    No class of the pattern overlaps the one after it, so the match is the
    greedy one. *)
Definition guid_uuidv4 (s : string) : bool :=
  let '(o, s) := eat_opt (one_of "[{(") (list_ascii_of_string s) in
  match
    s ← eat_hex 8 s;
    let '(sep, s) := eat_opt (one_of ":-") s in
    s ← eat_hex 4 s;
    s ← eat (one_of "4") (eat_same sep s);
    s ← eat_hex 3 s;
    s ← eat (one_of "89ABab") (eat_same sep s);
    s ← eat_hex 3 s;
    s ← eat_hex 12 (eat_same sep s);
    let '(c, s) := eat_opt (one_of "]})") s in
    Some (c, s)
  with
  | Some (c, []) => guid_brackets o c
  | _ => false
  end.

(** [Joi.string().required()], with [allow('')] when [allow_empty];
    [None] is a validation error. *)
Definition string_required (allow_empty : bool) (v : option json) : option string :=
  match v with
  | Some (JStr s) => if allow_empty || truthy_str s then Some s else None
  | _ => None
  end.

(** [Joi.string().guid({ version: 'uuidv4' }).required()]. *)
Definition guid_required (v : option json) : option string :=
  match string_required false v with
  | Some s => if guid_uuidv4 s then Some s else None
  | None => None
  end.

(** The rules [integer()], [min(0)] and the safe range of [Joi.number()]. *)
Definition integer_min0 (q : Q) : option Z :=
  let n := Qnum q / Zpos (Qden q) in
  if (Qnum q mod Zpos (Qden q) =? 0) && (0 <=? n) && (n <=? 2 ^ 53 - 1)
  then Some n else None.

Section WithPlatform.
Context {P : Platform}.

(** [Joi.number().integer().min(0).required()]. *)
Definition number_required (v : option json) : option Z :=
  match v with
  | Some (JNum q) => integer_min0 q
  | Some (JStr s) => q ← joi_number_of_string s; integer_min0 q
  | _ => None
  end.

(** [Joi.object().unknown(true).default({})]. *)
Definition object_default (v : option json) : option (list (string * json)) :=
  match v with
  | None => Some []
  | Some (JObj props) => Some props
  | Some (JStr s) => joi_object_of_string s
  | _ => None
  end.
End WithPlatform.

End Joi.

Definition eventSchema_keys : list string :=
  ["eventId"; "ts"; "userId"; "sessionId"; "route"; "action"; "metadata"].

(** The own enumerable properties that [{ ...e }] copies. *)
Definition own_props (e : json) : list (string * json) :=
  match e with
  | JObj props => props
  | JArr items => imap (fun i v => (decimal (Z.of_nat i), v)) items
  | JStr s =>
      imap (fun i c => (decimal (Z.of_nat i), JStr (String c EmptyString)))
           (list_ascii_of_string s)
  | _ => []
  end.

(** [{ metadata: {}, ...e }]. *)
Definition withDefaults (e : json) : list (string * json) :=
  fold_left (fun o kv => JsMap.set (fst kv) (snd kv) o) (own_props e)
            [("metadata", JObj [])].

Section Validation.
Context {P : Platform}.

(** [eventSchema.validate(o)]: [Some value] when there is no error.  The
    schema is a closed [Joi.object]: a key outside it is an error. *)
Definition eventSchema_validate (o : list (string * json)) : option event :=
  if forallb (fun kv => bool_decide (fst kv ∈ eventSchema_keys)) o then
    eventId ← Joi.guid_required (JsMap.get "eventId" o);
    ts ← Joi.number_required (JsMap.get "ts" o);
    userId ← Joi.string_required true (JsMap.get "userId" o);
    sessionId ← Joi.string_required false (JsMap.get "sessionId" o);
    route ← Joi.string_required false (JsMap.get "route" o);
    action ← Joi.string_required false (JsMap.get "action" o);
    metadata ← Joi.object_default (JsMap.get "metadata" o);
    Some (mkEvent eventId ts userId sessionId route action metadata)
  else None.

(** The validation loop of both transports: records with an error are
    skipped, the values of the others are collected in order. *)
Definition validate_all (events : list json) : list event :=
  omap (fun e => eventSchema_validate (withDefaults e)) events.
End Validation.

(** ** Requests and authentication *)

(** [req.url] of an incoming request: absent, one that [new URL] rejects, or
    one whose query string holds the given parameters. *)
Inductive req_url : Type :=
| NoUrl
| BadUrl
| Url (searchParams : list (string * string)).

(** An incoming HTTP request, also the upgrade request of a WebSocket.
    Header names are in lower case as Node delivers them; [body] is
    [req.body] after [express.json()], [None] when it is undefined. *)
Record request : Type := mkRequest {
  headers : gmap string string;
  url : req_url;
  body : option json
}.

Inductive reply : Type :=
| ErrorBody (error : string)
| Accepted (accepted : nat)
| Token (token : string).

(** [res.status(status).json(body)]. *)
Record response : Type := mkResponse {
  status : Z;
  json_body : reply
}.

(** [a || b] on strings that may be undefined. *)
Definition js_or (a b : option string) : option string :=
  match a with
  | Some s => if truthy_str s then a else b
  | None => b
  end.

(** [process.env.JWT_SECRET || 'change_me']. *)
Definition JWT_SECRET (env : gmap string string) : string :=
  default "change_me" (js_or (env !! "JWT_SECRET") None).

(** [if (!token)] on a token that may be null. *)
Definition present (token : option string) : option string := js_or token None.

(** The token [authHttp] takes from the request, [None] when it answers
    'missing token'. *)
Definition authHttp_token (req : request) : option string :=
  let auth := default "" (js_or (headers req !! "authorization") (Some "")) in
  present (if startsWith auth "Bearer " then Some (slice 7 auth) else None).

(** The token [authWsFromReq] verifies, [None] when it returns null before
    verifying. *)
Definition authWsFromReq_token (req : request) : option string :=
  let auth := js_or (headers req !! "authorization") (headers req !! "Authorization") in
  let token :=
    match present auth with
    | Some a => Some (if startsWith a "Bearer " then slice 7 a else a)
    | None => None
    end in
  let token :=
    match present token, url req with
    | None, Url searchParams => JsMap.get "token" searchParams
    | _, _ => token
    end in
  present token.

Section Auth.
Context {P : Platform} (env : gmap string string).

(** [authHttp]: the 401 it sends, or the decoded token it hands to [next]. *)
Definition authHttp (req : request) (now : Z) : response + claims :=
  match authHttp_token req with
  | None => inl (mkResponse 401 (ErrorBody "missing token"))
  | Some token =>
      match jwt_verify token (JWT_SECRET env) now with
      | Some decoded => inr decoded
      | None => inl (mkResponse 401 (ErrorBody "invalid token"))
      end
  end.

Definition authWsFromReq (req : request) (now : Z) : option claims :=
  match authWsFromReq_token req with
  | None => None
  | Some token => jwt_verify token (JWT_SECRET env) now
  end.

(** [GET /token], for a query string in which [userId] is given at most
    once and under its plain name, so that [req.query.userId] is a string or
    undefined.  (Express makes an array or an object of a parameter that is
    repeated or written with brackets; the subject of the token is then not
    a string, which [jwt_sign] does not represent.) *)
Definition token_handler (req : request) (now : Z) : response :=
  let userId :=
    match url req with
    | Url searchParams => js_or (JsMap.get "userId" searchParams) None
    | _ => None
    end in
  mkResponse 200
    (Token (jwt_sign (default "demo-user" userId) (JWT_SECRET env) now (12 * 3600))).
End Auth.

(** ** MongoDB, as far as the server uses it *)

(** The [raw_events] collection with its index [eventId_1]. *)
Record raw_events : Type := mkRaw {
  docs : list event;
  eventId_unique : bool
}.

Definition has_eventId (id : string) (ds : list event) : bool :=
  existsb (fun d => String.eqb (eventId d) id) ds.

(** [createIndex({ eventId: 1 }, { unique: true })] inside [try {} catch {}]:
    MongoDB refuses the index when stored documents share an [eventId], and
    the refusal is swallowed. *)
Definition ensureIndexes (c : raw_events) : raw_events :=
  if eventId_unique c then c
  else mkRaw (docs c) (bool_decide (NoDup (map eventId (docs c)))).

Definition insertOne (c : raw_events) (d : event) : raw_events :=
  if eventId_unique c && has_eventId (eventId d) (docs c) then c
  else mkRaw (docs c ++ [d]) (eventId_unique c).

(** [insertMany(events, { ordered: false })]: every document is tried, one
    that violates the unique index is left out.  The error raised at the end
    for the documents left out is caught by [handleEvents]. *)
Definition insertMany (events : list event) (c : raw_events) : raw_events :=
  fold_left insertOne events c.

(** A document of the [aggregates] collection, found by (window, bucketStart). *)
Record aggregate : Type := mkAggregate {
  a_count : Z;
  a_errors : Z;
  createdAt : Z
}.

Definition count_errors (events : list event) : Z :=
  Z.of_nat (length (filter (fun e => action e = "error") events)).

(** The [updateOne] of [handleEvents] with [{ upsert: true }]. *)
Definition updateOne (w bucketStart : Z) (events : list event)
    (col : gmap (Z * Z) aggregate) : gmap (Z * Z) aggregate :=
  let n := Z.of_nat (length events) in
  let k := count_errors events in
  match col !! (w, bucketStart) with
  | Some d => <[(w, bucketStart) := mkAggregate (a_count d + n) (a_errors d + k) (createdAt d)]> col
  | None => <[(w, bucketStart) := mkAggregate n k bucketStart]> col
  end.

(** ** Sockets and the topic registry *)

Inductive ready_state : Type := CONNECTING | OPEN | CLOSING | CLOSED.

#[global] Instance ready_state_eq_dec : EqDecision ready_state.
Proof. solve_decision. Defined.

(** An outbound frame: [{ type, data }]. *)
Inductive frame : Type :=
| agg_snapshot (data : list (string * serialized))
| agg_delta (data : list (string * serialized)).

(** A server-side WebSocket.  [sent] lists the frames given to [ws.send],
    oldest first; [handlers] tells whether the connection handler attached
    the 'message' and 'close' listeners; [closeCode] is the code of a close
    the server started. *)
Record socket : Type := mkSocket {
  readyState : ready_state;
  bufferedAmount : Z;
  user : option string;
  subscriptions : gset string;
  handlers : bool;
  sent : list frame;
  closeCode : option Z
}.

(** [ws.send(text)]: a socket that is not open sends nothing. *)
Definition ws_send (f : frame) (ws : socket) : socket :=
  if decide (readyState ws = OPEN) then
    mkSocket (readyState ws) (bufferedAmount ws) (user ws) (subscriptions ws)
             (handlers ws) (sent ws ++ [f]) (closeCode ws)
  else ws.

Definition with_readyState (r : ready_state) (ws : socket) : socket :=
  mkSocket r (bufferedAmount ws) (user ws) (subscriptions ws) (handlers ws)
           (sent ws) (closeCode ws).

Definition with_bufferedAmount (n : Z) (ws : socket) : socket :=
  mkSocket (readyState ws) n (user ws) (subscriptions ws) (handlers ws)
           (sent ws) (closeCode ws).

Definition with_subscription (topic : string) (ws : socket) : socket :=
  mkSocket (readyState ws) (bufferedAmount ws) (user ws)
           (subscriptions ws ∪ {[topic]}) (handlers ws) (sent ws) (closeCode ws).

(** The socket of an authenticated connection, and the one the connection
    handler closes with 1008 and leaves without listeners. *)
Definition accepted_socket (decoded : claims) : socket :=
  mkSocket OPEN 0 (Some (default "unknown" (js_or (sub decoded) None))) ∅ true [] None.

Definition refused_socket : socket :=
  mkSocket CLOSING 0 None ∅ false [] (Some 1008).

(** The guard of [broadcast]: open, and less than 1,000,000 bytes queued. *)
Definition writable (ws : socket) : bool :=
  bool_decide (readyState ws = OPEN) && (bufferedAmount ws <? 1000000).

(** ** The server and the event loop *)

(** Who awaits a call of [handleEvents]: the [POST /ingest] handler of a
    request, which then answers, or the 'message' listener, which returns. *)
Inductive caller : Type :=
| FromHttp
| FromWs.

(** A call of [handleEvents] suspended at an [await]: on [insertMany], or on
    the [updateOne] of window [w], with the clock read once after the insert,
    the deltas so far and the windows still to do. *)
Inductive task : Type :=
| AwaitInsert (events : list event) (from : caller)
| AwaitUpsert (events : list event) (now : Z) (deltas : list (string * serialized))
              (w : Z) (rest : list Z) (from : caller).

(** A promise continuation in the job queue: the rest of the subscribe branch
    after [await latestAggregatesSnapshot()], and the rest of the ingest
    handler after [await handleEvents(valid)]. *)
Inductive job : Type :=
| SendSnapshot (ws : nat) (snapshot : list (string * serialized))
| Respond (rid : nat) (accepted : nat).

(** The state of the process.  Sockets, requests and calls of [handleEvents]
    are named by numbers; [rejected] lists the calls whose promise was
    rejected with nothing to handle it. *)
Record server : Type := mkServer {
  memoryWindows : gmap (Z * Z) entry;
  topicToSockets : gmap string (gset nat);
  sockets : gmap nat socket;
  eventsCol : raw_events;
  aggCol : gmap (Z * Z) aggregate;
  tasks : gmap nat task;
  jobs : list job;
  responses : gmap nat response;
  rejected : list nat
}.

Definition with_memoryWindows (mw : gmap (Z * Z) entry) (s : server) : server :=
  mkServer mw (topicToSockets s) (sockets s) (eventsCol s) (aggCol s) (tasks s)
           (jobs s) (responses s) (rejected s).

Definition with_topicToSockets (t : gmap string (gset nat)) (s : server) : server :=
  mkServer (memoryWindows s) t (sockets s) (eventsCol s) (aggCol s) (tasks s)
           (jobs s) (responses s) (rejected s).

Definition with_sockets (ws : gmap nat socket) (s : server) : server :=
  mkServer (memoryWindows s) (topicToSockets s) ws (eventsCol s) (aggCol s) (tasks s)
           (jobs s) (responses s) (rejected s).

Definition with_eventsCol (c : raw_events) (s : server) : server :=
  mkServer (memoryWindows s) (topicToSockets s) (sockets s) c (aggCol s) (tasks s)
           (jobs s) (responses s) (rejected s).

Definition with_aggCol (c : gmap (Z * Z) aggregate) (s : server) : server :=
  mkServer (memoryWindows s) (topicToSockets s) (sockets s) (eventsCol s) c (tasks s)
           (jobs s) (responses s) (rejected s).

Definition with_tasks (t : gmap nat task) (s : server) : server :=
  mkServer (memoryWindows s) (topicToSockets s) (sockets s) (eventsCol s) (aggCol s) t
           (jobs s) (responses s) (rejected s).

Definition with_jobs (j : list job) (s : server) : server :=
  mkServer (memoryWindows s) (topicToSockets s) (sockets s) (eventsCol s) (aggCol s)
           (tasks s) j (responses s) (rejected s).

Definition with_responses (r : gmap nat response) (s : server) : server :=
  mkServer (memoryWindows s) (topicToSockets s) (sockets s) (eventsCol s) (aggCol s)
           (tasks s) (jobs s) r (rejected s).

Definition with_rejected (r : list nat) (s : server) : server :=
  mkServer (memoryWindows s) (topicToSockets s) (sockets s) (eventsCol s) (aggCol s)
           (tasks s) (jobs s) (responses s) r.

(** The process after start-up on a database that holds [raw] and [aggs]:
    no bucket, no socket, the indexes ensured. *)
Definition init (raw : list event) (aggs : gmap (Z * Z) aggregate) : server :=
  mkServer ∅ ∅ ∅ (ensureIndexes (mkRaw raw false)) aggs ∅ [] ∅ [].

Definition subscribe (id : nat) (topic : string) (s : server) : server :=
  let set := default ∅ (topicToSockets s !! topic) in
  with_sockets (alter (with_subscription topic) id (sockets s))
    (with_topicToSockets (<[topic := set ∪ {[id]}]> (topicToSockets s)) s).

(** The 'close' listener: the socket leaves every topic it subscribed to, and
    a topic left empty is deleted. *)
Definition unsubscribe_all (id : nat) (topics : gset string) (s : server) : server :=
  with_topicToSockets
    (map_imap (fun topic set =>
       if decide (topic ∈ topics) then
         let set' := set ∖ {[id]} in
         if decide (size set' = 0%nat) then None else Some set'
       else Some set) (topicToSockets s)) s.

Definition broadcast (topic : string) (payload : frame) (s : server) : server :=
  match topicToSockets s !! topic with
  | None => s
  | Some set =>
      if decide (size set = 0%nat) then s
      else with_sockets
             (map_imap (fun id ws =>
                Some (if decide (id ∈ set) then
                        if writable ws then ws_send payload ws else ws
                      else ws)) (sockets s)) s
  end.

(** The promise of [handleEvents] is fulfilled: its awaiter goes to the job
    queue. *)
Definition resolve (tid : nat) (events : list event) (from : caller) (s : server) : server :=
  match from with
  | FromHttp => with_jobs (jobs s ++ [Respond tid (length events)]) s
  | FromWs => s
  end.

(** [handleEvents] from the clock read on: the window [w] at the head of the
    remaining ones is updated and its [updateOne] awaited; after the last
    window the deltas are broadcast. *)
Definition handleEvents_windows (tid : nat) (events : list event) (now : Z)
    (deltas : list (string * serialized)) (remaining : list Z) (from : caller)
    (s : server) : server :=
  match remaining with
  | w :: rest =>
      let '(mw, d) := update_window events now w (memoryWindows s) in
      with_tasks
        (<[tid := AwaitUpsert events now (JsMap.set (window_key w) d deltas) w rest from]>
           (tasks s))
        (with_memoryWindows mw s)
  | [] =>
      resolve tid events from
        (broadcast "dashboard:global" (agg_delta deltas)
           (with_tasks (delete tid (tasks s)) s))
  end.

(** [handleEvents(events)] up to its first [await]. *)
Definition handleEvents (tid : nat) (events : list event) (from : caller) (s : server)
  : server :=
  match events with
  | [] => resolve tid events from s
  | _ :: _ => with_tasks (<[tid := AwaitInsert events from]> (tasks s)) s
  end.

(** An inbound WebSocket message as the 'message' listener sees it: the
    binary flag, the length of the text, and what [JSON.parse] makes of it
    ([None] when it throws). *)
Record ws_data : Type := mkData {
  isBinary : bool;
  text_length : Z;
  parsed : option json
}.

(** What the event loop can run next.  The first ten are callbacks started
    from outside JavaScript: a new connection, a message, the start and the
    end of a close, a change of a socket's send queue, the two HTTP routes,
    the replies of MongoDB to an [insertMany] and to an [updateOne] ([ok]
    false when the driver rejects the promise), and the five second timer.
    [RunJob] runs the promise continuation at the head of the job queue. *)
Inductive label : Type :=
| Connection (id : nat) (req : request) (now : Z)
| Message (id : nat) (data : ws_data) (tid : nat) (now : Z)
| Closing (id : nat)
| Close (id : nat)
| Buffered (id : nat) (amount : Z)
| GetToken (rid : nat) (req : request) (now : Z)
| PostIngest (rid : nat) (req : request) (now : Z)
| InsertDone (tid : nat) (ok : bool) (now : Z)
| UpsertDone (tid : nat) (ok : bool)
| Interval (now : Z)
| RunJob.

(** A number that names no request and no call of [handleEvents] so far. *)
Definition fresh (n : nat) (s : server) : bool :=
  bool_decide (tasks s !! n = None) && bool_decide (responses s !! n = None)
  && bool_decide (n ∉ rejected s).

Definition respond (rid : nat) (r : response) (s : server) : server :=
  with_responses (<[rid := r]> (responses s)) s.

Definition is_str (v : option json) (s : string) : bool :=
  match v with
  | Some (JStr s') => String.eqb s' s
  | _ => false
  end.

Section Handlers.
Context {P : Platform} (env : gmap string string) (MAX_MSG_BYTES : Z).

(** The [POST /ingest] handler after [authHttp], up to its [await]. *)
Definition ingest_handler (rid : nat) (req : request) (s : server) : server :=
  match body req with
  | None => respond rid (mkResponse 400 (ErrorBody "empty payload")) s
  | Some payload =>
      if negb (truthy payload) || match payload with JArr [] => true | _ => false end
      then respond rid (mkResponse 400 (ErrorBody "empty payload")) s
      else
        let events := match payload with JArr items => items | _ => [payload] end in
        match validate_all events with
        | [] => respond rid (mkResponse 400 (ErrorBody "no valid events")) s
        | valid => handleEvents rid valid FromHttp s
        end
  end.

(** [app.post('/ingest', authHttp, handler)]. *)
Definition post_ingest (rid : nat) (req : request) (now : Z) (s : server) : server :=
  match authHttp env req now with
  | inl r => respond rid r s
  | inr _ => ingest_handler rid req s
  end.

(** The [wss.on('connection')] handler. *)
Definition on_connection (id : nat) (req : request) (now : Z) (s : server) : server :=
  match authWsFromReq env req now with
  | None => with_sockets (<[id := refused_socket]> (sockets s)) s
  | Some decoded => with_sockets (<[id := accepted_socket decoded]> (sockets s)) s
  end.

(** The 'message' listener, up to its [await]. *)
Definition on_message (id : nat) (data : ws_data) (tid : nat) (now : Z) (s : server)
  : server :=
  if isBinary data then s
  else if MAX_MSG_BYTES <? text_length data then s
  else
    match parsed data with
    | None => s
    | Some JNull => with_rejected (tid :: rejected s) s
    | Some (JObj msg) =>
        if is_str (JsMap.get "type" msg) "subscribe" then
          match JsMap.get "topic" msg with
          | Some (JStr topic) =>
              let s := subscribe id topic s in
              let snapshot := latestAggregatesSnapshot (memoryWindows s) now in
              with_jobs (jobs s ++ [SendSnapshot id snapshot]) s
          | _ => s
          end
        else if is_str (JsMap.get "type" msg) "events" then
          match JsMap.get "events" msg with
          | Some (JArr events) =>
              match validate_all events with
              | [] => s
              | sanitized => handleEvents tid sanitized FromWs s
              end
          | _ => s
          end
        else s
    | Some _ => s
    end.

(** The 'close' listener. *)
Definition on_close (id : nat) (ws : socket) (s : server) : server :=
  let s := with_sockets (<[id := with_readyState CLOSED ws]> (sockets s)) s in
  if handlers ws then unsubscribe_all id (subscriptions ws) s else s.

Definition run_job (j : job) (s : server) : server :=
  match j with
  | SendSnapshot id snapshot =>
      with_sockets (alter (ws_send (agg_snapshot snapshot)) id (sockets s)) s
  | Respond rid n => respond rid (mkResponse 200 (Accepted n)) s
  end.

(** MongoDB answers the [insertMany] of call [tid]; the call goes on to the
    windows whether the insert failed or not. *)
Definition insert_done (tid : nat) (ok : bool) (now : Z) (s : server) : server :=
  match tasks s !! tid with
  | Some (AwaitInsert events from) =>
      let s := if ok then with_eventsCol (insertMany events (eventsCol s)) s else s in
      handleEvents_windows tid events now [] WINDOW_SIZES from s
  | _ => s
  end.

(** MongoDB answers the [updateOne] of call [tid]; a failure is thrown out
    of [handleEvents], whose callers do not catch it. *)
Definition upsert_done (tid : nat) (ok : bool) (s : server) : server :=
  match tasks s !! tid with
  | Some (AwaitUpsert events now deltas w rest from) =>
      if ok then
        handleEvents_windows tid events now deltas rest from
          (with_aggCol (updateOne w (getBucketStart now w) events (aggCol s)) s)
      else with_rejected (tid :: rejected s) (with_tasks (delete tid (tasks s)) s)
  | _ => s
  end.

(** One turn of the event loop.  A callback from outside starts only when
    the job queue is empty; the frames of one connection are the exception:
    the [ws] library can hand over several frames that came in one chunk, a
    message or the close of the peer, one after the other without going back
    to the event loop, so these may also come while jobs wait.  A label that
    cannot happen in [s] leaves it as it is. *)
Definition when_idle (s s' : server) : server :=
  match jobs s with
  | [] => s'
  | _ :: _ => s
  end.

Definition step (l : label) (s : server) : server :=
  match l with
  | RunJob =>
      match jobs s with
      | j :: rest => run_job j (with_jobs rest s)
      | [] => s
      end
  | Message id data tid now =>
      match sockets s !! id with
      | Some ws =>
          if handlers ws && bool_decide (readyState ws = OPEN) && fresh tid s
          then on_message id data tid now s else s
      | None => s
      end
  | Closing id =>
      match sockets s !! id with
      | Some ws =>
          if decide (readyState ws = OPEN)
          then with_sockets (<[id := with_readyState CLOSING ws]> (sockets s)) s
          else s
      | None => s
      end
  | Connection id req now =>
      when_idle s
        match sockets s !! id with
        | None => on_connection id req now s
        | Some _ => s
        end
  | Close id =>
      when_idle s
        match sockets s !! id with
        | Some ws => if decide (readyState ws = CLOSED) then s else on_close id ws s
        | None => s
        end
  | Buffered id amount =>
      when_idle s (with_sockets (alter (with_bufferedAmount amount) id (sockets s)) s)
  | GetToken rid req now =>
      when_idle s (if fresh rid s then respond rid (token_handler env req now) s else s)
  | PostIngest rid req now =>
      when_idle s (if fresh rid s then post_ingest rid req now s else s)
  | InsertDone tid ok now => when_idle s (insert_done tid ok now s)
  | UpsertDone tid ok => when_idle s (upsert_done tid ok s)
  | Interval now => when_idle s (with_memoryWindows (janitor now (memoryWindows s)) s)
  end.

Definition run (ls : list label) (s : server) : server :=
  fold_left (fun s l => step l s) ls s.

(** The states the process can be in, from a start on any database. *)
Inductive reachable : server -> Prop :=
| reachable_init raw aggs : reachable (init raw aggs)
| reachable_step l s : reachable s -> reachable (step l s).
End Handlers.

(** ** The dashboard client *)

Module Client.

(** [coalesce(base, delta)]: without a base the delta as it is; otherwise
    a copy of the base in which every key of the delta holds the value of
    the delta.  The frames are objects fresh from [JSON.parse], [None] is
    [null]; no key of a frame is an array index, so the properties keep the
    order in which they were set. *)
Definition coalesce {V : Type} (base delta : option (list (string * V)))
  : option (list (string * V)) :=
  match base with
  | None => delta
  | Some b =>
      let d := default [] delta in
      Some (fold_left (fun out k =>
                         match JsMap.get k d with
                         | Some v => JsMap.set k v out
                         | None => out
                         end)
                      (JsMap.keys d) b)
  end.

(** What happens to the socket of [useWs] while the component is mounted
    (after that, [onclose] schedules nothing). *)
Inductive ws_event : Type :=
| onopen
| onclose.

(** [backoffRef.current] after an event, and the delay of the reconnect the
    event schedules. *)
Definition backoff_step (backoff : Z) (e : ws_event) : Z * option Z :=
  match e with
  | onopen => (500, None)
  | onclose => (Z.min (backoff * 2) 10000, Some backoff)
  end.

(** The delays of the reconnects scheduled over a run of events, from
    [backoffRef.current = backoff]. *)
Fixpoint reconnect_delays (backoff : Z) (es : list ws_event) : list Z :=
  match es with
  | [] => []
  | e :: es' =>
      let '(backoff', delay) := backoff_step backoff e in
      match delay with
      | Some d => d :: reconnect_delays backoff' es'
      | None => reconnect_delays backoff' es'
      end
  end.

(** [a.slice(-k)] for [1 <= k]: the last [k] elements. *)
Definition slice_last {A : Type} (k : Z) (a : list A) : list A :=
  drop (length a - Z.to_nat k) a.

(** The updater of [setHistory]: [[...prev, x].slice(-Math.max(10, range))]. *)
Definition push_history {A : Type} (range : Z) (prev : list A) (x : A) : list A :=
  slice_last (Z.max 10 range) (prev ++ [x]).

(** The record with index [i] of the batch [SendDemo] builds at clock [now],
    with [id] what [crypto.randomUUID()] returned for it. *)
Definition demo_user (i : nat) : string := "u-" +:+ decimal (Z.of_nat (i mod 7) + 1).

Definition demo_session (i : nat) : string := "s-" +:+ decimal (Z.of_nat (i mod 13) + 1).

Definition demo_route (i : nat) : string :=
  nth (i mod 4) ["/"; "/pricing"; "/dashboard"; "/login"] "".

Definition demo_action (i : nat) : string := nth (i mod 3) ["view"; "click"; "error"] "".

Definition demo_record (now : Z) (i : nat) (id : string) : json :=
  JObj [("eventId", JStr id); ("ts", JNum (inject_Z now));
        ("userId", JStr (demo_user i)); ("sessionId", JStr (demo_session i));
        ("route", JStr (demo_route i)); ("action", JStr (demo_action i));
        ("metadata", JObj [("i", JNum (inject_Z (Z.of_nat i)))])].

(** The body [SendDemo] posts: one record for each of [count] ids. *)
Definition demo_batch (now : Z) (ids : list string) : json :=
  JArr (imap (demo_record now) ids).

(** The event the server makes of a record of the batch. *)
Definition demo_event (now : Z) (i : nat) (id : string) : event :=
  mkEvent id now (demo_user i) (demo_session i) (demo_route i) (demo_action i)
          [("i", JNum (inject_Z (Z.of_nat i)))].

(** [JSON.stringify] of a string in which no character needs an escape:
    the string between two quotation marks. *)
Definition quoted (s : string) : string := String "034" s +:+ String "034" "".

(** [JSON.stringify] of the record with index [i]: the properties in the
    order of the object literal, the two numbers in decimal.  The strings of
    a record are ASCII without quotation mark, backslash or control
    character when the id is the text of a UUID. *)
Definition demo_record_text (now : Z) (i : nat) (id : string) : string :=
  "{" +:+ quoted "eventId" +:+ ":" +:+ quoted id
  +:+ "," +:+ quoted "ts" +:+ ":" +:+ decimal now
  +:+ "," +:+ quoted "userId" +:+ ":" +:+ quoted (demo_user i)
  +:+ "," +:+ quoted "sessionId" +:+ ":" +:+ quoted (demo_session i)
  +:+ "," +:+ quoted "route" +:+ ":" +:+ quoted (demo_route i)
  +:+ "," +:+ quoted "action" +:+ ":" +:+ quoted (demo_action i)
  +:+ "," +:+ quoted "metadata" +:+ ":{" +:+ quoted "i" +:+ ":"
  +:+ decimal (Z.of_nat i) +:+ "}}".

(** [body: JSON.stringify(events)], the text [SendDemo] posts. *)
Definition demo_body (now : Z) (ids : list string) : string :=
  "[" +:+ String.concat "," (imap (demo_record_text now) ids) +:+ "]".

End Client.

(** ** Vocabulary of the properties *)

(** The order in which routes are first seen: a route joins at the end the
    first time it occurs. *)
Definition see (seen : list string) (r : string) : list string :=
  if bool_decide (r ∈ seen) then seen else seen ++ [r].

Definition first_seen (rs : list string) : list string := fold_left see rs [].

(** The entries of a routes list whose count is [c], in list order. *)
Definition with_count (c : Z) (l : list (string * Z)) : list (string * Z) :=
  filter (fun x => snd x = c) l.

Definition sum_counts (l : list (string * Z)) : Z :=
  fold_right Z.add 0 (map snd l).

(** The invariants I2, I3 and I4 of a bucket. *)
Definition bucket_ok (e : entry) : Prop :=
  Z.of_nat (size (uniques e)) <= count e
  /\ errors e <= count e
  /\ sum_counts (routes e) = count e.

(** No delta before the first snapshot: what a socket was sent is empty or
    starts with a snapshot. *)
Definition snapshot_first (l : list frame) : Prop :=
  match l with
  | [] => True
  | agg_snapshot _ :: _ => True
  | agg_delta _ :: _ => False
  end.

Definition snapshot_pending (id : nat) (js : list job) : Prop :=
  exists snapshot, SendSnapshot id snapshot ∈ js.

(** The registry names sockets of authenticated connections only, and such a
    socket has been sent a frame unless it is no longer open or its snapshot
    waits in the job queue. *)
Definition registry_ok (s : server) : Prop :=
  forall topic set id,
    topicToSockets s !! topic = Some set -> id ∈ set ->
    exists ws, sockets s !! id = Some ws /\ handlers ws = true
      /\ (sent ws <> [] \/ readyState ws <> OPEN \/ snapshot_pending id (jobs s)).

(** A socket the connection handler refused stays as it was left. *)
Definition refused_ok (s : server) : Prop :=
  forall id ws,
    sockets s !! id = Some ws -> handlers ws = false ->
    sent ws = [] /\ subscriptions ws = ∅ /\ readyState ws <> OPEN
    /\ closeCode ws = Some 1008.

Definition sockets_ok (s : server) : Prop :=
  (forall id ws, sockets s !! id = Some ws -> snapshot_first (sent ws))
  /\ registry_ok s /\ refused_ok s.

(** A request that is not answered and cannot be any more: no response, no
    call of [handleEvents] under its number, no job that would answer, and
    its handler's promise rejected. *)
Definition unanswered (rid : nat) (s : server) : Prop :=
  responses s !! rid = None /\ tasks s !! rid = None /\ rid ∈ rejected s
  /\ forall n, Respond rid n ∉ jobs s.

(** The resolution order of the bearer credential in the words of the
    specification: the [Authorization] header with the prefix, else the
    header value as it is, else the [token] query parameter. *)
Definition header_bearer (req : request) : option string :=
  match js_or (headers req !! "authorization") (headers req !! "Authorization") with
  | Some a => if startsWith a "Bearer " then present (Some (slice 7 a)) else None
  | None => None
  end.

Definition header_plain (req : request) : option string :=
  match js_or (headers req !! "authorization") (headers req !! "Authorization") with
  | Some a => if startsWith a "Bearer " then None else present (Some a)
  | None => None
  end.

Definition query_token (req : request) : option string :=
  match url req with
  | Url searchParams => present (JsMap.get "token" searchParams)
  | _ => None
  end.

Definition first_of (candidates : list (option string)) : option string :=
  fold_right (fun c rest => match c with Some _ => c | None => rest end) None candidates.

Definition spec_credential (req : request) : option string :=
  first_of [header_bearer req; header_plain req; query_token req].

(** The payload test of the ingest handler: [!payload] or an empty array. *)
Definition empty_payload (payload : option json) : bool :=
  match payload with
  | None => true
  | Some v => negb (truthy v) || match v with JArr [] => true | _ => false end
  end.

(** [Array.isArray(payload) ? payload : [payload]]. *)
Definition records (payload : option json) : list json :=
  match payload with
  | Some (JArr items) => items
  | Some v => [v]
  | None => []
  end.

(** The labels of one call of [handleEvents] whose [updateOne]s all
    succeed, from the reply to its insert to the end. *)
Definition ingestion (tid : nat) (ok : bool) (now : Z) : list label :=
  [InsertDone tid ok now; UpsertDone tid true; UpsertDone tid true; UpsertDone tid true].

(** The loop over [WINDOW_SIZES] of [handleEvents] without its [await]s: the
    windows and the deltas after a batch received at [now] went through. *)
Definition windows_run (events : list event) (now : Z) (mw : gmap (Z * Z) entry)
  : gmap (Z * Z) entry * list (string * serialized) :=
  fold_left (fun acc w =>
               let '(m, d) := update_window events now w (fst acc) in
               (m, JsMap.set (window_key w) d (snd acc)))
            WINDOW_SIZES (mw, []).

(** The aggregate documents after the three upserts of that batch. *)
Definition upserts_run (events : list event) (now : Z) (col : gmap (Z * Z) aggregate)
  : gmap (Z * Z) aggregate :=
  fold_left (fun c w => updateOne w (getBucketStart now w) events c) WINDOW_SIZES col.

(** The same event with another producer timestamp. *)
Definition with_ts (t : Z) (e : event) : event :=
  mkEvent (eventId e) t (userId e) (sessionId e) (route e) (action e) (metadata e).

(** An event on route [r] with nothing else of note. *)
Definition view_of (r : string) : event := mkEvent "" 0 "" "" r "view" [].

(** ** Sample requests

    The pieces of the end-to-end scenarios: an event record with the given
    id, route and action; a request with a bearer token and a payload; a
    dashboard that connects with its token in the query string and
    subscribes to the global topic. *)
Definition event_json (id route action : string) : json :=
  JObj [("eventId", JStr id); ("ts", JNum (1000 # 1)%Q); ("userId", JStr "u1");
        ("sessionId", JStr "s1"); ("route", JStr route); ("action", JStr action);
        ("metadata", JObj [])].

Definition validated (id route action : string) : event :=
  mkEvent id 1000 "u1" "s1" route action [].

Definition bearer_request (token : string) (payload : option json) : request :=
  mkRequest {["authorization" := "Bearer " +:+ token]} NoUrl payload.

Definition dashboard_request (token : string) : request :=
  mkRequest ∅ (Url [("token", token)]) None.

Definition subscribe_frame : ws_data :=
  mkData false 47
    (Some (JObj [("type", JStr "subscribe"); ("topic", JStr "dashboard:global")])).

Definition sample_uuid : string := "3f2504e0-4f89-41d3-9a0c-0305e82c3301".

Definition t0 : Z := 1700000000000.

(** A server just started on an empty database, with one dashboard (socket 0)
    connected, subscribed and served its snapshot at [t0]. *)
Definition with_dashboard {P : Platform} (env : gmap string string) (MAX_MSG_BYTES : Z)
    (dashboard : request) : server :=
  run env MAX_MSG_BYTES
      [Connection 0 dashboard t0; Message 0 subscribe_frame 1 t0; RunJob]
      (init [] ∅).

(** The serialized bucket of scenario 1: one event, one user, one route. *)
Definition one_view : serialized := mkSerialized 1 1 [("/", 1)] 0.

(** Scenario 1 of the specification, for an event with the given id posted
    at [t0] in the request [post] while the dashboard listens: the answer is
    [{accepted: 1}] and the dashboard is sent, after its snapshot, one delta
    that reads count 1, uniques 1, routes [["/", 1]], errors 0 in each of
    the three windows. *)
Definition single_event_flow {P : Platform} (env : gmap string string)
    (MAX_MSG_BYTES : Z) (dashboard post : request) : Prop :=
  let s := run env MAX_MSG_BYTES
               (PostIngest 2 post t0 :: ingestion 2 true t0 ++ [RunJob])
               (with_dashboard env MAX_MSG_BYTES dashboard) in
  responses s !! 2%nat = Some (mkResponse 200 (Accepted 1))
  /\ exists snapshot,
      sent <$> sockets s !! 0%nat
      = Some [agg_snapshot snapshot;
              agg_delta [("1s", one_view); ("5s", one_view); ("60s", one_view)]].

(** ** Vocabulary of the further properties *)

(** The hexadecimal digits of a string, in the order of the string. *)
Definition hex_digits (s : string) : list ascii :=
  List.filter Joi.is_hex (list_ascii_of_string s).

(** The text of a UUID in the canonical layout 8-4-4-4-12 with the version
    digit 4: five groups of digits [a], [b], [c], [d], [e] and the variant
    digit. *)
Definition uuid_text (a b c d e : list ascii) (variant : ascii) : string :=
  string_of_list_ascii
    (a ++ "-"%char :: b ++ "-"%char :: "4"%char :: c ++ "-"%char :: variant :: d
       ++ "-"%char :: e).

(** What validation guarantees of an event. *)
Definition event_ok (ev : event) : Prop :=
  Joi.guid_uuidv4 (eventId ev) = true /\ 0 <= ts ev <= 2 ^ 53 - 1
  /\ sessionId ev <> "" /\ route ev <> "" /\ action ev <> "".

(** A batch as [handleEvents] is called with: not empty, all validated. *)
Definition batch_ok (events : list event) : Prop :=
  events <> [] /\ Forall event_ok events.

Definition task_events (t : task) : list event :=
  match t with
  | AwaitInsert events _ => events
  | AwaitUpsert events _ _ _ _ _ => events
  end.

(** A suspended call of [handleEvents] holds a validated batch, and inside
    the loop it stands at a place of [WINDOW_SIZES], with one delta for each
    window up to that place. *)
Definition task_ok (t : task) : Prop :=
  batch_ok (task_events t)
  /\ match t with
     | AwaitInsert _ _ => True
     | AwaitUpsert _ _ deltas w rest _ =>
         exists before, WINDOW_SIZES = before ++ (w :: rest)
                        /\ JsMap.keys deltas = map window_key (before ++ [w])
     end.

(** A bucket as the server builds them: of one of the three windows, at a
    multiple of the bucket length, with at least one event, its routes a
    map (one entry per route) of non-empty routes with positive tallies,
    and no empty user id. *)
Definition bucket_wf (k : Z * Z) (e : entry) : Prop :=
  k.1 ∈ WINDOW_SIZES /\ k.2 mod (k.1 * 1000) = 0
  /\ 1 <= count e
  /\ NoDup (JsMap.keys (routes e)) /\ ("" ∉ JsMap.keys (routes e))
  /\ Forall (fun rc => 1 <= snd rc) (routes e)
  /\ ("" ∉ uniques e).

Definition frame_data (f : frame) : list (string * serialized) :=
  match f with
  | agg_snapshot data => data
  | agg_delta data => data
  end.

(** The payload of a frame has one entry for each window, in the order of
    [WINDOW_SIZES]. *)
Definition three_windows (data : list (string * serialized)) : Prop :=
  JsMap.keys data = ["1s"; "5s"; "60s"].

Definition job_ok (j : job) : Prop :=
  match j with
  | SendSnapshot _ snapshot => three_windows snapshot
  | Respond _ n => (1 <= n)%nat
  end.

(** The answers of the two routes. *)
Definition response_ok (r : response) : Prop :=
  match json_body r with
  | Token _ => status r = 200
  | Accepted n => status r = 200 /\ (1 <= n)%nat
  | ErrorBody e =>
      (status r = 400 /\ (e = "empty payload" \/ e = "no valid events"))
      \/ (status r = 401 /\ (e = "missing token" \/ e = "invalid token"))
  end.

(** What holds of a bucket from its creation on, before the first event
    is tallied. *)
Definition entry_wf (e : entry) : Prop :=
  0 <= count e
  /\ NoDup (JsMap.keys (routes e)) /\ ("" ∉ JsMap.keys (routes e))
  /\ Forall (fun rc => 1 <= snd rc) (routes e)
  /\ ("" ∉ uniques e).

(** The registry and the sockets agree: no topic is kept with an empty set;
    a socket listed under a topic is one of an accepted connection that
    subscribed to the topic and has not closed; and a socket that subscribed
    to a topic is one of an accepted connection, listed under the topic
    until its close. *)
Definition registry_agrees (s : server) : Prop :=
  (forall topic set, topicToSockets s !! topic = Some set -> set <> ∅)
  /\ (forall topic set id,
        topicToSockets s !! topic = Some set -> id ∈ set ->
        exists ws, sockets s !! id = Some ws /\ handlers ws = true
                   /\ topic ∈ subscriptions ws /\ readyState ws <> CLOSED)
  /\ (forall id ws topic,
        sockets s !! id = Some ws -> topic ∈ subscriptions ws ->
        handlers ws = true
        /\ (readyState ws <> CLOSED ->
            exists set, topicToSockets s !! topic = Some set /\ id ∈ set)).

(** Two states of a socket that differ in nothing the registry depends on. *)
Definition same_membership (a b : socket) : Prop :=
  handlers a = handlers b /\ subscriptions a = subscriptions b
  /\ (readyState a = CLOSED <-> readyState b = CLOSED).

(** What was sent to a socket is well formed: every frame has the three
    windows, and a socket that was sent a delta subscribed to the global
    topic. *)
Definition sent_ok (ws : socket) : Prop :=
  forall f, f ∈ sent ws ->
    three_windows (frame_data f)
    /\ forall data, f = agg_delta data -> "dashboard:global" ∈ subscriptions ws.

Definition protocol_ok (s : server) : Prop :=
  map_Forall (fun _ ws => sent_ok ws) (sockets s)
  /\ Forall job_ok (jobs s)
  /\ map_Forall (fun _ r => response_ok r) (responses s).

(** How a socket can differ from what it was some turns ago. *)
Definition socket_evolves (ws ws' : socket) : Prop :=
  user ws' = user ws /\ handlers ws' = handlers ws /\ closeCode ws' = closeCode ws
  /\ subscriptions ws ⊆ subscriptions ws'
  /\ sent ws `prefix_of` sent ws'
  /\ (readyState ws <> OPEN ->
      readyState ws' <> OPEN /\ sent ws' = sent ws /\ subscriptions ws' = subscriptions ws)
  /\ (readyState ws = CLOSED -> readyState ws' = CLOSED).

(** Two buckets that count the same: the same totals, the same users and
    the same tally for every route, whatever the order of the routes. *)
Definition same_tallies (e e' : entry) : Prop :=
  count e = count e' /\ uniques e = uniques e' /\ errors e = errors e'
  /\ forall r, JsMap.get r (routes e) = JsMap.get r (routes e').

(** A bucket whose numbers hang together: the invariants of [bucket_ok], no
    negative error count, and a routes map with positive tallies. *)
Definition entry_sound (e : entry) : Prop :=
  bucket_ok e /\ 0 <= errors e
  /\ NoDup (JsMap.keys (routes e)) /\ Forall (fun rc => 1 <= snd rc) (routes e).

(** The same of an entry of a frame: errors and uniques within the count,
    and at most ten routes, each named once, in falling order of positive
    tallies that add up to no more than the count. *)
Definition serialized_ok (d : serialized) : Prop :=
  0 <= s_errors d <= s_count d
  /\ Z.of_nat (s_uniques d) <= s_count d
  /\ sum_counts (s_routes d) <= s_count d
  /\ (length (s_routes d) <= 10)%nat
  /\ StronglySorted (fun a b => snd b <= snd a) (s_routes d)
  /\ NoDup (JsMap.keys (s_routes d))
  /\ Forall (fun rc => 1 <= snd rc) (s_routes d).

Definition payload_ok (data : list (string * serialized)) : Prop :=
  Forall (fun kd => serialized_ok (snd kd)) data.

(** Every entry that is in a frame, or on its way into one, is sound. *)
Definition entries_ok (s : server) : Prop :=
  map_Forall (fun _ e => entry_sound e) (memoryWindows s)
  /\ map_Forall (fun _ t => match t with
                            | AwaitInsert _ _ => True
                            | AwaitUpsert _ _ deltas _ _ _ => payload_ok deltas
                            end) (tasks s)
  /\ Forall (fun j => match j with
                      | SendSnapshot _ snapshot => payload_ok snapshot
                      | Respond _ _ => True
                      end) (jobs s)
  /\ map_Forall (fun _ ws => Forall (fun f => payload_ok (frame_data f)) (sent ws))
                (sockets s).

(** A query string that is empty or holds the one parameter [userId]:
    [req.query.userId] of Express is then undefined or that string. *)
Definition only_userId (query : list (string * string)) : Prop :=
  query = [] \/ exists userId, query = [("userId", userId)].

(** [express.json({ limit: '32kb' })]: a body of more bytes than the limit is
    answered 413 by the middleware and reaches no route. *)
Definition JSON_LIMIT : Z := 32 * 1024.

Definition within_json_limit (text : string) : Prop :=
  Z.of_nat (String.length text) <= JSON_LIMIT.

#[global] Arguments update_window : simpl never.
#[global] Arguments getBucketStart : simpl never.
#[global] Arguments serializeEntry : simpl never.
#[global] Arguments broadcast : simpl never.
#[global] Arguments updateOne : simpl never.
#[global] Arguments insertMany : simpl never.
#[global] Arguments janitor : simpl never.

(** * Properties *)

(** ** Strings *)

Lemma truthy_str_true (s : string) : truthy_str s = true <-> s <> "".
Proof.
  unfold truthy_str. destruct (String.eqb_spec s ""); simpl; split; congruence.
Qed.

Lemma present_Some (t : string) : t <> "" -> present (Some t) = Some t.
Proof.
  intros H. unfold present, js_or. apply truthy_str_true in H. by rewrite H.
Qed.

Lemma present_nonempty (o : option string) (t : string) :
  present o = Some t -> o = Some t /\ t <> "".
Proof.
  unfold present, js_or. destruct o as [s|]; [|done].
  destruct (truthy_str s) eqn:E; [|done].
  intros [= ->]. split; [done|]. by apply truthy_str_true.
Qed.

Lemma present_idemp (o : option string) : present (present o) = present o.
Proof.
  unfold present, js_or. destruct o as [s|]; [|done].
  destruct (truthy_str s) eqn:E; [|done]. by rewrite E.
Qed.

(** ** The routes map and its serialization *)

Lemma get_set_eq (k : string) (v : Z) (m : list (string * Z)) :
  JsMap.get k (JsMap.set k v m) = Some v.
Proof.
  induction m as [|[k' v'] m IH]; simpl.
  - by rewrite String.eqb_refl.
  - destruct (String.eqb k' k) eqn:E; simpl; rewrite E; [done | exact IH].
Qed.

Lemma get_set_ne (k k' : string) (v : Z) (m : list (string * Z)) :
  k <> k' -> JsMap.get k' (JsMap.set k v m) = JsMap.get k' m.
Proof.
  intros Hne. induction m as [|[k0 v0] m IH]; simpl.
  - destruct (String.eqb_spec k k'); [done | reflexivity].
  - destruct (String.eqb_spec k0 k) as [->|]; simpl.
    + destruct (String.eqb_spec k k'); [done | reflexivity].
    + destruct (String.eqb k0 k'); [reflexivity | exact IH].
Qed.

Lemma get_None_keys (k : string) (m : list (string * Z)) :
  JsMap.get k m = None <-> k ∉ JsMap.keys m.
Proof.
  induction m as [|[k' v'] m IH]; simpl.
  - split; [intros _; apply not_elem_of_nil | done].
  - rewrite not_elem_of_cons. destruct (String.eqb_spec k' k) as [->|Hne].
    + split; [done | intros [? _]; done].
    + rewrite IH. split; [intros ?; split; congruence | intros [_ ?]; done].
Qed.

Lemma keys_set (k : string) (v : Z) (m : list (string * Z)) :
  JsMap.keys (JsMap.set k v m) = see (JsMap.keys m) k.
Proof.
  unfold see, JsMap.keys. induction m as [|[k' v'] m IH].
  - reflexivity.
  - cbn [JsMap.set map fst]. destruct (String.eqb_spec k' k) as [->|Hne].
    + rewrite bool_decide_eq_true_2; [done | apply elem_of_cons; by left].
    + cbn [map fst]. rewrite IH.
      destruct (bool_decide_reflect (k ∈ map fst m)) as [Hin|Hnin].
      * rewrite bool_decide_eq_true_2; [done | apply elem_of_cons; by right].
      * rewrite bool_decide_eq_false_2; [done |].
        rewrite not_elem_of_cons. split; congruence.
Qed.

Lemma sum_counts_set (k : string) (m : list (string * Z)) :
  sum_counts (JsMap.set k (default 0 (JsMap.get k m) + 1) m) = sum_counts m + 1.
Proof.
  unfold sum_counts. induction m as [|[k' v'] m IH]; simpl; [lia|].
  destruct (String.eqb k' k); simpl; lia.
Qed.

Lemma sort_insert_perm (x : string * Z) (l : list (string * Z)) :
  Permutation (sort_insert by_count_desc x l) (x :: l).
Proof.
  induction l as [|y l IH]; simpl; [done|].
  destruct (by_count_desc x y <=? 0); [done|].
  rewrite IH. apply perm_swap.
Qed.

Lemma js_sort_perm (l : list (string * Z)) :
  Permutation (js_sort by_count_desc l) l.
Proof.
  induction l as [|x l IH]; simpl; [done|].
  rewrite sort_insert_perm. by constructor.
Qed.

(** [a] may stand in front of [b]: its count is not smaller. *)
Lemma sort_insert_sorted (x : string * Z) (l : list (string * Z)) :
  StronglySorted (fun a b => snd b <= snd a) l ->
  StronglySorted (fun a b => snd b <= snd a) (sort_insert by_count_desc x l).
Proof.
  induction 1 as [|y l Hs IH Hy]; simpl.
  - repeat constructor.
  - unfold by_count_desc at 1. destruct (Z.leb_spec (snd y - snd x) 0) as [Hle|Hgt].
    + constructor; [by constructor|].
      constructor; [lia|]. eapply Forall_impl; [exact Hy|]. simpl. intros; lia.
    + constructor; [exact IH|].
      rewrite sort_insert_perm. constructor; [lia | exact Hy].
Qed.

Lemma js_sort_sorted (l : list (string * Z)) :
  StronglySorted (fun a b => snd b <= snd a) (js_sort by_count_desc l).
Proof.
  induction l as [|x l IH]; simpl; [constructor|]. by apply sort_insert_sorted.
Qed.

Lemma sort_insert_stable (c : Z) (x : string * Z) (l : list (string * Z)) :
  with_count c (sort_insert by_count_desc x l) = with_count c (x :: l).
Proof.
  unfold with_count. induction l as [|y l IH]; simpl; [done|].
  unfold by_count_desc at 1. destruct (Z.leb_spec (snd y - snd x) 0) as [Hle|Hgt]; [done|].
  rewrite filter_cons, IH, !filter_cons.
  repeat case_decide; try done; lia.
Qed.

Lemma js_sort_stable (c : Z) (l : list (string * Z)) :
  with_count c (js_sort by_count_desc l) = with_count c l.
Proof.
  induction l as [|x l IH]; simpl; [done|].
  rewrite sort_insert_stable. unfold with_count in *. by rewrite !filter_cons, IH.
Qed.

Lemma StronglySorted_take {A} (R : A -> A -> Prop) (n : nat) (l : list A) :
  StronglySorted R l -> StronglySorted R (take n l).
Proof.
  intros H. revert n. induction H as [|x l Hs IH Hx]; intros [|n]; simpl; try constructor.
  - apply IH.
  - apply Forall_take, Hx.
Qed.

Lemma filter_take_prefix {A} (P : A -> Prop) `{forall x, Decision (P x)} (n : nat) (l : list A) :
  filter P (take n l) `prefix_of` filter P l.
Proof.
  revert n. induction l as [|x l IH]; intros [|n]; simpl; try apply prefix_nil.
  rewrite !filter_cons. case_decide; [apply prefix_cons|]; apply IH.
Qed.

Lemma tally_routes_keys (events : list event) (e : entry) :
  JsMap.keys (routes (fold_left tally events e))
  = fold_left see (map route events) (JsMap.keys (routes e)).
Proof.
  revert e. induction events as [|ev events IH]; intros e; simpl; [done|].
  rewrite IH. simpl. by rewrite keys_set.
Qed.

(** C7. The serialized routes of a bucket: at most ten; ordered by count,
    largest first; the routes left out are none of them counted higher than
    one that is kept; the routes with one and the same count stand in the
    order in which they were inserted into the bucket's map; that order is
    the order in which the routes were first seen among the events tallied;
    and five events on /a, then three on /b, then four on /c serialize as
    /a 5, /c 4, /b 3. *)
Theorem top_routes :
  (forall e : entry,
      let out := s_routes (serializeEntry e) in
      (length out <= 10)%nat
      /\ StronglySorted (fun a b => snd b <= snd a) out
      /\ (exists rest, Permutation (out ++ rest) (routes e)
                       /\ forall a b, a ∈ out -> b ∈ rest -> snd b <= snd a)
      /\ (forall c, with_count c out `prefix_of` with_count c (routes e)))
  /\ (forall events : list event,
         JsMap.keys (routes (fold_left tally events new_entry))
         = first_seen (map route events))
  /\ s_routes (serializeEntry
                 (fold_left tally
                    (replicate 5 (view_of "/a") ++ replicate 3 (view_of "/b")
                               ++ replicate 4 (view_of "/c"))
                    new_entry))
     = [("/a", 5); ("/c", 4); ("/b", 3)].
Proof.
  split; [|split].
  - intros e out. subst out. unfold serializeEntry; cbn [s_routes].
    pose proof (js_sort_sorted (routes e)) as Hs.
    split; [|split; [|split]].
    + rewrite length_take. lia.
    + by apply StronglySorted_take.
    + exists (drop 10 (js_sort by_count_desc (routes e))). split.
      * rewrite take_drop. apply js_sort_perm.
      * intros a b Ha Hb. rewrite <- (take_drop 10) in Hs.
        apply (StronglySorted_app_1_elem_of _ _ _ _ _ Hs Ha Hb).
    + intros c. rewrite <- (js_sort_stable c (routes e)). apply filter_take_prefix.
  - intros events. apply (tally_routes_keys events new_entry).
  - vm_compute. reflexivity.
Qed.

(** ** Buckets *)

Lemma new_entry_ok : bucket_ok new_entry.
Proof. unfold bucket_ok, new_entry; cbn [count uniques routes errors]. rewrite size_empty. unfold sum_counts; simpl. lia. Qed.

Lemma tally_ok (e : entry) (ev : event) : bucket_ok e -> bucket_ok (tally e ev).
Proof.
  intros (Hu & He & Hr). unfold bucket_ok, tally; cbn [count uniques routes errors].
  split; [|split].
  - destruct (truthy_str (userId ev)); [|lia].
    rewrite size_union_alt.
    assert (size ({[userId ev]} ∖ uniques e : gset string) <= 1)%nat.
    { rewrite <- (size_singleton (C:=gset string) (userId ev)).
      apply subseteq_size. intros x Hx. by apply elem_of_difference in Hx as [Hx _]. }
    lia.
  - destruct (String.eqb (action ev) "error"); lia.
  - rewrite sum_counts_set. lia.
Qed.


Lemma fold_tally_count (events : list event) (e : entry) :
  count (fold_left tally events e) = count e + Z.of_nat (length events).
Proof.
  revert e. induction events as [|ev events IH]; intros e; simpl length; simpl fold_left.
  - lia.
  - rewrite IH. cbn [tally count]. lia.
Qed.




Lemma getBucketStart_floor (t w : Z) :
  0 < w ->
  getBucketStart t w <= t < getBucketStart t w + w * 1000
  /\ getBucketStart t w mod (w * 1000) = 0.
Proof.
  intros Hw. unfold getBucketStart. cbv zeta.
  assert (0 < w * 1000) as Hb by lia.
  pose proof (Z.mul_div_le t (w * 1000) Hb).
  pose proof (Z.mul_succ_div_gt t (w * 1000) Hb).
  split; [lia|]. apply Z.mod_mul. lia.
Qed.

Lemma update_window_other (events : list event) (now w : Z) (mw : gmap (Z * Z) entry)
    (k : Z * Z) :
  k <> (w, getBucketStart now w) ->
  fst (update_window events now w mw) !! k = mw !! k.
Proof.
  intros Hk. unfold update_window; cbn [fst]. by rewrite lookup_insert_ne.
Qed.

Lemma update_window_bucket (events : list event) (now w : Z) (mw : gmap (Z * Z) entry) :
  fst (update_window events now w mw) !! (w, getBucketStart now w)
  = Some (fold_left tally events (bucket_of mw w (getBucketStart now w))).
Proof. unfold update_window; cbn [fst]. by rewrite lookup_insert_eq. Qed.

Lemma tally_with_ts (t : Z) (e : entry) (ev : event) :
  tally e (with_ts t ev) = tally e ev.
Proof. reflexivity. Qed.

Lemma fold_tally_with_ts (f : event -> Z) (events : list event) (e : entry) :
  fold_left tally (map (fun ev => with_ts (f ev) ev) events) e = fold_left tally events e.
Proof.
  revert e. induction events as [|ev events IH]; intros e; simpl; [done|].
  by rewrite IH.
Qed.

(** ** One call of [handleEvents] *)

Ltac server_simpl :=
  cbn [memoryWindows topicToSockets sockets eventsCol aggCol tasks jobs responses
       rejected with_memoryWindows with_topicToSockets with_sockets with_eventsCol
       with_aggCol with_tasks with_jobs with_responses with_rejected respond] in *.

Section Run.
Context {P : Platform} (env : gmap string string) (MAX_MSG_BYTES : Z).

Local Abbreviation step := (step env MAX_MSG_BYTES).
Local Abbreviation run := (run env MAX_MSG_BYTES).
Local Abbreviation reachable := (reachable env MAX_MSG_BYTES).

Lemma run_app (ls ls' : list label) (s : server) :
  run (ls ++ ls') s = run ls' (run ls s).
Proof. apply fold_left_app. Qed.

Lemma run_cons (l : label) (ls : list label) (s : server) :
  run (l :: ls) s = run ls (step l s).
Proof. reflexivity. Qed.

Lemma reachable_run (ls : list label) (s : server) :
  reachable s -> reachable (run ls s).
Proof.
  revert s. induction ls as [|l ls IH]; intros s Hs; simpl; [done|].
  apply IH. by constructor.
Qed.

Lemma reachable_ind' (I : server -> Prop) :
  (forall raw aggs, I (init raw aggs)) ->
  (forall l s, reachable s -> I s -> I (step l s)) ->
  forall s, reachable s -> I s.
Proof. intros Hi Hs s H. induction H; auto. Qed.

Lemma step_InsertDone (s : server) (tid : nat) (ok : bool) (now : Z) :
  jobs s = [] -> step (InsertDone tid ok now) s = insert_done tid ok now s.
Proof. intros H. unfold step, when_idle. by rewrite H. Qed.

Lemma step_UpsertDone (s : server) (tid : nat) (ok : bool) :
  jobs s = [] -> step (UpsertDone tid ok) s = upsert_done tid ok s.
Proof. intros H. unfold step, when_idle. by rewrite H. Qed.

Lemma handleEvents_windows_cons (tid : nat) (events : list event) (now : Z)
    (deltas : list (string * serialized)) (w : Z) (rest : list Z) (from : caller)
    (s : server) :
  handleEvents_windows tid events now deltas (w :: rest) from s
  = with_tasks
      (<[tid := AwaitUpsert events now
                  (JsMap.set (window_key w)
                     (snd (update_window events now w (memoryWindows s))) deltas)
                  w rest from]> (tasks s))
      (with_memoryWindows (fst (update_window events now w (memoryWindows s))) s).
Proof.
  unfold handleEvents_windows.
  by destruct (update_window events now w (memoryWindows s)).
Qed.

(** The loop from the reply to an [updateOne] on, all replies good. *)
Lemma upserts_loop (tid : nat) (events : list event) (now : Z) (from : caller)
    (remaining : list Z) :
  forall (s : server) (deltas : list (string * serialized)) (w : Z),
    jobs s = [] ->
    tasks s !! tid = Some (AwaitUpsert events now deltas w remaining from) ->
    let acc := fold_left (fun acc w =>
                 let '(m, d) := update_window events now w (fst acc) in
                 (m, JsMap.set (window_key w) d (snd acc)))
                 remaining (memoryWindows s, deltas) in
    run (map (fun _ => UpsertDone tid true) (w :: remaining)) s
    = resolve tid events from
        (broadcast "dashboard:global" (agg_delta (snd acc))
           (mkServer (fst acc) (topicToSockets s) (sockets s) (eventsCol s)
              (fold_left (fun c w => updateOne w (getBucketStart now w) events c)
                         (w :: remaining) (aggCol s))
              (delete tid (tasks s)) [] (responses s) (rejected s))).
Proof.
  induction remaining as [|w' rest IH]; intros s deltas w Hj Ht acc.
  - subst acc. cbn [map fold_left fst snd]. rewrite run_cons, step_UpsertDone by done.
    unfold upsert_done. rewrite Ht. cbn [handleEvents_windows].
    destruct s; simpl in *; subst. reflexivity.
  - cbn [map]. rewrite run_cons, step_UpsertDone by done.
    unfold upsert_done. rewrite Ht, handleEvents_windows_cons.
    match goal with |- _ _ ?s' = _ =>
      specialize (IH s' (JsMap.set (window_key w')
                           (snd (update_window events now w' (memoryWindows s))) deltas) w')
    end.
    cbn [map] in IH. rewrite IH; clear IH.
    + subst acc. server_simpl. cbn [fold_left fst snd].
      destruct (update_window events now w' (memoryWindows s)) as [m d].
      by rewrite delete_insert_eq.
    + server_simpl. exact Hj.
    + server_simpl. by rewrite lookup_insert_eq.
Qed.

(** The whole of a call whose upserts succeed: buckets, deltas, both
    collections, the broadcast at the end and the awaiter in the job queue. *)
Lemma ingestion_run (s : server) (tid : nat) (events : list event) (from : caller)
    (ok : bool) (now : Z) :
  tasks s !! tid = Some (AwaitInsert events from) ->
  jobs s = [] ->
  run (ingestion tid ok now) s
  = resolve tid events from
      (broadcast "dashboard:global"
         (agg_delta (snd (windows_run events now (memoryWindows s))))
         (mkServer (fst (windows_run events now (memoryWindows s)))
                   (topicToSockets s) (sockets s)
                   (if ok then insertMany events (eventsCol s) else eventsCol s)
                   (upserts_run events now (aggCol s))
                   (delete tid (tasks s)) [] (responses s) (rejected s))).
Proof.
  intros Ht Hj. unfold ingestion. rewrite run_cons, step_InsertDone by done.
  unfold insert_done. rewrite Ht. unfold WINDOW_SIZES at 1.
  assert ((if ok then with_eventsCol (insertMany events (eventsCol s)) s else s)
          = with_eventsCol (if ok then insertMany events (eventsCol s) else eventsCol s) s)
    as -> by (by destruct ok, s).
  rewrite handleEvents_windows_cons.
  match goal with |- _ ?ls ?s' = _ =>
    pose proof (upserts_loop tid events now from [5; 60] s'
                  (JsMap.set (window_key 1)
                     (snd (update_window events now 1 (memoryWindows s))) []) 1) as H
  end.
  cbn [map] in H. server_simpl. rewrite H; clear H.
  - unfold windows_run, upserts_run, WINDOW_SIZES. cbn [fold_left fst snd].
    destruct (update_window events now 1 (memoryWindows s)) as [m d].
    cbn [fst snd]. by rewrite delete_insert_eq.
  - exact Hj.
  - by rewrite lookup_insert_eq.
Qed.
End Run.

(** The three buckets of a batch have different keys, so the loop over the
    windows is three independent updates. *)
Lemma windows_run_eq (events : list event) (now : Z) (mw : gmap (Z * Z) entry) :
  let e w := fold_left tally events (bucket_of mw w (getBucketStart now w)) in
  windows_run events now mw
  = (<[(60, getBucketStart now 60) := e 60]>
       (<[(5, getBucketStart now 5) := e 5]>
          (<[(1, getBucketStart now 1) := e 1]> mw)),
     [("1s", serializeEntry (e 1)); ("5s", serializeEntry (e 5));
      ("60s", serializeEntry (e 60))]).
Proof.
  intros e. unfold windows_run, WINDOW_SIZES, update_window. cbn [fold_left fst snd].
  unfold bucket_of. rewrite !lookup_insert_ne by congruence. reflexivity.
Qed.

Lemma windows_run_bucket (events : list event) (now : Z) (mw : gmap (Z * Z) entry) (w : Z) :
  w ∈ WINDOW_SIZES ->
  fst (windows_run events now mw) !! (w, getBucketStart now w)
  = Some (fold_left tally events (bucket_of mw w (getBucketStart now w))).
Proof.
  intros Hw. rewrite windows_run_eq. cbn [fst].
  unfold WINDOW_SIZES in Hw. rewrite !elem_of_cons, elem_of_nil in Hw.
  destruct Hw as [->|[->|[->|[]]]].
  - rewrite !lookup_insert_ne by congruence. apply lookup_insert_eq.
  - rewrite lookup_insert_ne by congruence. apply lookup_insert_eq.
  - apply lookup_insert_eq.
Qed.

Lemma windows_run_other (events : list event) (now : Z) (mw : gmap (Z * Z) entry)
    (k : Z * Z) :
  (forall w, w ∈ WINDOW_SIZES -> k <> (w, getBucketStart now w)) ->
  fst (windows_run events now mw) !! k = mw !! k.
Proof.
  intros Hk. rewrite windows_run_eq. cbn [fst].
  rewrite !lookup_insert_ne; [done| | |]; apply not_eq_sym, Hk;
    unfold WINDOW_SIZES; rewrite !elem_of_cons; auto.
Qed.

Lemma windows_run_with_ts (f : event -> Z) (events : list event) (now : Z)
    (mw : gmap (Z * Z) entry) :
  windows_run (map (fun ev => with_ts (f ev) ev) events) now mw
  = windows_run events now mw.
Proof. rewrite !windows_run_eq. by rewrite !fold_tally_with_ts. Qed.

(** ** What the helpers leave alone *)

Lemma broadcast_sockets_only (topic : string) (payload : frame) (s : server) :
  exists socks, broadcast topic payload s = with_sockets socks s.
Proof.
  unfold broadcast. destruct (topicToSockets s !! topic) as [set|].
  - case_decide; [exists (sockets s); by destruct s | eauto].
  - exists (sockets s). by destruct s.
Qed.

Lemma resolve_jobs_only (tid : nat) (events : list event) (from : caller) (s : server) :
  exists js, resolve tid events from s = with_jobs js s.
Proof. destruct from; simpl; [eauto | exists (jobs s); by destruct s]. Qed.

(** The fields of the state after a call of [handleEvents] has ended. *)
Lemma finished_fields (tid : nat) (events : list event) (from : caller)
    (topic : string) (payload : frame) (s : server) :
  let s' := resolve tid events from (broadcast topic payload s) in
  memoryWindows s' = memoryWindows s /\ topicToSockets s' = topicToSockets s
  /\ eventsCol s' = eventsCol s /\ aggCol s' = aggCol s /\ tasks s' = tasks s
  /\ responses s' = responses s /\ rejected s' = rejected s.
Proof.
  intros s'. subst s'.
  destruct (broadcast_sockets_only topic payload s) as [socks ->].
  destruct (resolve_jobs_only tid events from (with_sockets socks s)) as [js ->].
  by destruct s.
Qed.

(** ** C9: bucket assignment *)

Section BucketAssignment.
Context {P : Platform} (env : gmap string string) (MAX_MSG_BYTES : Z).

(** C9. A batch whose call of [handleEvents] reads the clock at [now] updates,
    for each window [w] of 1, 5 and 60 seconds, the bucket that starts at
    [floor(now / (w * 1000)) * (w * 1000)], the multiple of the bucket length
    with [now] in its range, and no other bucket; the [ts] fields of the
    events have no part in it: with any other timestamps the windows and
    the deltas come out the same. *)
Theorem bucket_assignment (s : server) (tid : nat) (events : list event)
    (from : caller) (ok : bool) (now : Z) :
  tasks s !! tid = Some (AwaitInsert events from) ->
  jobs s = [] ->
  let s' := run env MAX_MSG_BYTES (ingestion tid ok now) s in
  (forall w, w ∈ WINDOW_SIZES ->
     getBucketStart now w = now / (w * 1000) * (w * 1000)
     /\ getBucketStart now w <= now < getBucketStart now w + w * 1000
     /\ getBucketStart now w mod (w * 1000) = 0
     /\ memoryWindows s' !! (w, getBucketStart now w)
        = Some (fold_left tally events
                  (bucket_of (memoryWindows s) w (getBucketStart now w))))
  /\ (forall k, (forall w, w ∈ WINDOW_SIZES -> k <> (w, getBucketStart now w)) ->
        memoryWindows s' !! k = memoryWindows s !! k)
  /\ memoryWindows s' = fst (windows_run events now (memoryWindows s))
  /\ (forall f : event -> Z,
        windows_run (map (fun ev => with_ts (f ev) ev) events) now (memoryWindows s)
        = windows_run events now (memoryWindows s)).
Proof.
  intros Ht Hj s'.
  assert (memoryWindows s' = fst (windows_run events now (memoryWindows s))) as Hmw.
  { subst s'. rewrite (ingestion_run env MAX_MSG_BYTES s tid events from ok now Ht Hj).
    by destruct (finished_fields tid events from "dashboard:global"
      (agg_delta (snd (windows_run events now (memoryWindows s))))
      (mkServer (fst (windows_run events now (memoryWindows s)))
                (topicToSockets s) (sockets s)
                (if ok then insertMany events (eventsCol s) else eventsCol s)
                (upserts_run events now (aggCol s))
                (delete tid (tasks s)) [] (responses s) (rejected s))) as (-> & _). }
  split; [|split; [|split]].
  - intros w Hw.
    assert (0 < w) as Hpos.
    { unfold WINDOW_SIZES in Hw. rewrite !elem_of_cons, elem_of_nil in Hw. lia. }
    destruct (getBucketStart_floor now w Hpos) as [Hrange Hmod].
    split; [reflexivity|]. split; [exact Hrange|]. split; [exact Hmod|].
    rewrite Hmw. by apply windows_run_bucket.
  - intros k Hk. rewrite Hmw. by apply windows_run_other.
  - exact Hmw.
  - intros f. apply windows_run_with_ts.
Qed.
End BucketAssignment.

Lemma bucket_assignment_witness :
  let post := bearer_request "change_me.u1" (Some (JArr [event_json sample_uuid "/" "view"])) in
  let s := step (P:=stub) ∅ 32768 (PostIngest 2 post t0) (init [] ∅) in
  tasks s !! 2%nat = Some (AwaitInsert [validated sample_uuid "/" "view"] FromHttp)
  /\ jobs s = []
  /\ memoryWindows (run (P:=stub) ∅ 32768 (ingestion 2 true t0) s)
       !! (60, getBucketStart t0 60)
     = Some (fold_left tally [validated sample_uuid "/" "view"]
               (bucket_of (memoryWindows s) 60 (getBucketStart t0 60))).
Proof.
  intros post s.
  assert (tasks s !! 2%nat
          = Some (AwaitInsert [validated sample_uuid "/" "view"] FromHttp)) as Ht
    by (vm_compute; reflexivity).
  assert (jobs s = []) as Hj by (vm_compute; reflexivity).
  split; [exact Ht|]. split; [exact Hj|].
  destruct (bucket_assignment (P:=stub) ∅ 32768 s 2 _ FromHttp true t0 Ht Hj) as [Hw _].
  apply (Hw 60). unfold WINDOW_SIZES. rewrite !elem_of_cons. auto.
Defined.

(** ** C5: the bucket invariants *)

Section Buckets.
Context {P : Platform} (env : gmap string string) (MAX_MSG_BYTES : Z).

Lemma handleEvents_memoryWindows (tid : nat) (events : list event) (from : caller)
    (s : server) :
  memoryWindows (handleEvents tid events from s) = memoryWindows s.
Proof.
  unfold handleEvents. destruct events; [|done].
  by destruct (resolve_jobs_only tid [] from s) as [js ->].
Qed.

Lemma handleEvents_windows_memoryWindows (tid : nat) (events : list event) (now : Z)
    (deltas : list (string * serialized)) (remaining : list Z) (from : caller)
    (s : server) :
  memoryWindows (handleEvents_windows tid events now deltas remaining from s)
  = match remaining with
    | w :: _ => fst (update_window events now w (memoryWindows s))
    | [] => memoryWindows s
    end.
Proof.
  destruct remaining as [|w rest].
  - cbn [handleEvents_windows].
    by destruct (finished_fields tid events from "dashboard:global" (agg_delta deltas)
                   (with_tasks (delete tid (tasks s)) s)) as (-> & _).
  - by rewrite handleEvents_windows_cons.
Qed.



End Buckets.


(** ** C6: duplicates in storage and in memory *)

Lemma has_eventId_spec (id : string) (ds : list event) :
  has_eventId id ds = true <-> id ∈ map eventId ds.
Proof.
  unfold has_eventId. induction ds as [|d ds IH]; simpl.
  - split; [done | intros H; by apply elem_of_nil in H].
  - rewrite orb_true_iff, IH, elem_of_cons.
    destruct (String.eqb_spec (eventId d) id); split; intros [?|?]; auto; congruence.
Qed.

Lemma insertOne_unique (c : raw_events) (d : event) :
  eventId_unique (insertOne c d) = eventId_unique c.
Proof. unfold insertOne. by destruct (_ && _). Qed.

Lemma insertOne_keeps (c : raw_events) (d : event) (id : string) :
  id ∈ map eventId (docs c) -> id ∈ map eventId (docs (insertOne c d)).
Proof.
  unfold insertOne. destruct (_ && _); [done|]. cbn [docs].
  rewrite map_app, elem_of_app. auto.
Qed.

Lemma insertOne_stores (c : raw_events) (d : event) :
  eventId d ∈ map eventId (docs (insertOne c d)).
Proof.
  unfold insertOne. destruct (eventId_unique c && has_eventId (eventId d) (docs c)) eqn:E.
  - apply andb_true_iff in E as [_ E]. by apply has_eventId_spec.
  - cbn [docs]. rewrite map_app, elem_of_app. right. apply elem_of_cons. by left.
Qed.

Lemma insertOne_NoDup (c : raw_events) (d : event) :
  eventId_unique c = true ->
  NoDup (map eventId (docs c)) -> NoDup (map eventId (docs (insertOne c d))).
Proof.
  intros Hu Hn. unfold insertOne. rewrite Hu. cbn [andb].
  destruct (has_eventId (eventId d) (docs c)) eqn:E; [done|]. cbn [docs].
  rewrite map_app. apply NoDup_app. split; [done|]. split.
  - intros id Hin Hd. apply list_elem_of_singleton in Hd as ->.
    apply has_eventId_spec in Hin. congruence.
  - apply NoDup_singleton.
Qed.

Lemma insertMany_unique (events : list event) (c : raw_events) :
  eventId_unique (insertMany events c) = eventId_unique c.
Proof.
  unfold insertMany. revert c. induction events as [|d ds IH]; intros c; simpl; [done|].
  by rewrite IH, insertOne_unique.
Qed.

Lemma insertMany_keeps (events : list event) (c : raw_events) (id : string) :
  id ∈ map eventId (docs c) -> id ∈ map eventId (docs (insertMany events c)).
Proof.
  unfold insertMany. revert c. induction events as [|d ds IH]; intros c H; simpl; [done|].
  by apply IH, insertOne_keeps.
Qed.

Lemma insertMany_stores (events : list event) (c : raw_events) (id : string) :
  id ∈ map eventId events -> id ∈ map eventId (docs (insertMany events c)).
Proof.
  unfold insertMany. revert c. induction events as [|d ds IH]; intros c H; simpl in *.
  - by apply elem_of_nil in H.
  - apply elem_of_cons in H as [->|H]; [|by apply IH].
    apply (insertMany_keeps ds), insertOne_stores.
Qed.

Lemma insertMany_NoDup (events : list event) (c : raw_events) :
  eventId_unique c = true ->
  NoDup (map eventId (docs c)) -> NoDup (map eventId (docs (insertMany events c))).
Proof.
  unfold insertMany. revert c. induction events as [|d ds IH]; intros c Hu Hn; simpl; [done|].
  apply IH; [by rewrite insertOne_unique | by apply insertOne_NoDup].
Qed.

Lemma filter_absent (ds : list event) (id : string) :
  id ∉ map eventId ds -> filter (fun d => eventId d = id) ds = [].
Proof.
  induction ds as [|d ds IH]; simpl; intros Hn; [done|].
  apply not_elem_of_cons in Hn as [Hd Hn]. rewrite filter_cons.
  case_decide; [congruence | by apply IH].
Qed.

(** One document with a given id: the id occurs, and no id occurs twice. *)
Lemma stored_once (ds : list event) (id : string) :
  NoDup (map eventId ds) -> id ∈ map eventId ds ->
  length (filter (fun d => eventId d = id) ds) = 1%nat.
Proof.
  induction ds as [|d ds IH]; simpl; intros Hn Hin.
  - by apply elem_of_nil in Hin.
  - apply NoDup_cons in Hn as [Hd Hn]. rewrite filter_cons.
    apply elem_of_cons in Hin. case_decide as E.
    + subst id. by rewrite filter_absent.
    + destruct Hin as [->|Hin]; [done | by apply IH].
Qed.

Section RawEvents.
Context {P : Platform} (env : gmap string string) (MAX_MSG_BYTES : Z).

Lemma handleEvents_eventsCol (tid : nat) (events : list event) (from : caller)
    (s : server) :
  eventsCol (handleEvents tid events from s) = eventsCol s.
Proof.
  unfold handleEvents. destruct events; [|done].
  by destruct (resolve_jobs_only tid [] from s) as [js ->].
Qed.

Lemma handleEvents_windows_eventsCol (tid : nat) (events : list event) (now : Z)
    (deltas : list (string * serialized)) (remaining : list Z) (from : caller)
    (s : server) :
  eventsCol (handleEvents_windows tid events now deltas remaining from s) = eventsCol s.
Proof.
  destruct remaining as [|w rest].
  - cbn [handleEvents_windows].
    by destruct (finished_fields tid events from "dashboard:global" (agg_delta deltas)
                   (with_tasks (delete tid (tasks s)) s)) as (_ & _ & -> & _).
  - by rewrite handleEvents_windows_cons.
Qed.

(** A turn of the event loop leaves the raw events alone or inserts a batch. *)
Lemma step_eventsCol (l : label) (s : server) :
  eventsCol (step env MAX_MSG_BYTES l s) = eventsCol s
  \/ exists events,
       eventsCol (step env MAX_MSG_BYTES l s) = insertMany events (eventsCol s).
Proof.
  unfold step, when_idle.
  destruct l; try (destruct (jobs s) as [|j js] eqn:Hj; [|by left]); try (by left).
  - left. destruct (sockets s !! id); [done|].
    unfold on_connection. by destruct (authWsFromReq env req now).
  - left. destruct (sockets s !! id) as [ws|]; [|done].
    destruct (handlers ws && bool_decide (readyState ws = OPEN) && fresh tid s); [|done].
    unfold on_message.
    repeat (match goal with
            | |- context [match ?x with _ => _ end] => destruct x
            end; try done; try apply handleEvents_eventsCol).
  - left. destruct (sockets s !! id); [|done]. by case_decide.
  - left. destruct (sockets s !! id) as [ws|]; [|done]. case_decide; [done|].
    unfold on_close. by destruct (handlers ws).
  - left. by destruct (fresh rid s).
  - left. destruct (fresh rid s); [|done].
    unfold post_ingest, ingest_handler.
    repeat (match goal with
            | |- context [match ?x with _ => _ end] => destruct x
            end; try done; try apply handleEvents_eventsCol).
  - unfold insert_done. destruct (tasks s !! tid) as [[events from|]|]; try (by left).
    rewrite handleEvents_windows_eventsCol. destruct ok; [right; by exists events | by left].
  - left. unfold upsert_done.
    destruct (tasks s !! tid) as [[|events now deltas w rest from]|]; try done.
    destruct ok; [|done]. by rewrite handleEvents_windows_eventsCol.
  - left. destruct (jobs s) as [|j js]; [done|]. by destruct j.
Qed.

(** Once the unique index exists, no two stored documents share an id. *)
Lemma reachable_raw_events (s : server) :
  reachable env MAX_MSG_BYTES s ->
  eventId_unique (eventsCol s) = true -> NoDup (map eventId (docs (eventsCol s))).
Proof.
  induction 1 as [raw aggs|l s Hs IH].
  - cbn. intros H. by apply bool_decide_eq_true_1 in H.
  - destruct (step_eventsCol l s) as [->|[events ->]]; [exact IH|].
    rewrite insertMany_unique. intros Hu. by apply insertMany_NoDup, IH.
Qed.

Lemma windows_run_count (events : list event) (now : Z) (mw : gmap (Z * Z) entry) (w : Z) :
  w ∈ WINDOW_SIZES ->
  count (bucket_of (fst (windows_run events now mw)) w (getBucketStart now w))
  = count (bucket_of mw w (getBucketStart now w)) + Z.of_nat (length events).
Proof.
  intros Hw. unfold bucket_of at 1. rewrite windows_run_bucket by done.
  apply fold_tally_count.
Qed.

Lemma resubmitted_stored_once (n : nat) (events : list event) (c : raw_events) (id : string) :
  (1 <= n)%nat -> eventId_unique c = true -> NoDup (map eventId (docs c)) ->
  id ∈ map eventId events ->
  length (filter (fun d => eventId d = id) (docs (Nat.iter n (insertMany events) c)))
  = 1%nat.
Proof.
  intros Hn Hu Hd Hid.
  assert (eventId_unique (Nat.iter n (insertMany events) c) = true
          /\ NoDup (map eventId (docs (Nat.iter n (insertMany events) c)))) as [_ Hnd].
  { clear Hn. induction n as [|n [IHu IHd]]; simpl; [done|].
    split; [by rewrite insertMany_unique | by apply insertMany_NoDup]. }
  apply stored_once; [exact Hnd|].
  destruct n as [|n]; [lia|]. simpl. by apply insertMany_stores.
Qed.

Lemma resubmitted_count (n : nat) (events : list event) (now : Z)
    (mw : gmap (Z * Z) entry) (w : Z) :
  w ∈ WINDOW_SIZES ->
  count (bucket_of (Nat.iter n (fun m => fst (windows_run events now m)) mw)
                   w (getBucketStart now w))
  = count (bucket_of mw w (getBucketStart now w))
    + Z.of_nat n * Z.of_nat (length events).
Proof.
  intros Hw. induction n as [|n IH]; [simpl; lia|].
  cbn [Nat.iter nat_rect]. rewrite windows_run_count by done.
  unfold Nat.iter in IH. rewrite IH. lia.
Qed.

(** C6. With the unique index on [eventId] in place, a batch that goes
    through [handleEvents] leaves, for each of its ids, exactly one document
    with that id in the raw events, however often the id occurs in the batch
    and whether or not it was stored before; inserting the batch [n] times
    over leaves exactly one as well; the buckets of the receipt time count
    every submitted event, duplicates included: the count grows by the length
    of the batch, and by [n] times that length after [n] submissions. *)
Theorem duplicates_stored_once (s : server) (tid : nat) (events : list event)
    (from : caller) (now : Z) :
  reachable env MAX_MSG_BYTES s ->
  eventId_unique (eventsCol s) = true ->
  tasks s !! tid = Some (AwaitInsert events from) ->
  jobs s = [] ->
  let s' := run env MAX_MSG_BYTES (ingestion tid true now) s in
  (forall id, id ∈ map eventId events ->
     length (filter (fun d => eventId d = id) (docs (eventsCol s'))) = 1%nat)
  /\ (forall w, w ∈ WINDOW_SIZES ->
        count (bucket_of (memoryWindows s') w (getBucketStart now w))
        = count (bucket_of (memoryWindows s) w (getBucketStart now w))
          + Z.of_nat (length events))
  /\ (forall n, (1 <= n)%nat ->
        (forall id, id ∈ map eventId events ->
           length (filter (fun d => eventId d = id)
                     (docs (Nat.iter n (insertMany events) (eventsCol s)))) = 1%nat)
        /\ (forall w, w ∈ WINDOW_SIZES ->
              count (bucket_of
                       (Nat.iter n (fun m => fst (windows_run events now m))
                                 (memoryWindows s))
                       w (getBucketStart now w))
              = count (bucket_of (memoryWindows s) w (getBucketStart now w))
                + Z.of_nat n * Z.of_nat (length events))).
Proof.
  intros Hs Hu Ht Hj s'.
  pose proof (reachable_raw_events s Hs Hu) as Hd.
  destruct (finished_fields tid events from "dashboard:global"
      (agg_delta (snd (windows_run events now (memoryWindows s))))
      (mkServer (fst (windows_run events now (memoryWindows s)))
                (topicToSockets s) (sockets s) (insertMany events (eventsCol s))
                (upserts_run events now (aggCol s))
                (delete tid (tasks s)) [] (responses s) (rejected s)))
    as (Hmw & _ & Hcol & _).
  rewrite <- (ingestion_run env MAX_MSG_BYTES s tid events from true now Ht Hj)
    in Hmw, Hcol.
  fold s' in Hmw, Hcol. cbn [memoryWindows eventsCol] in Hmw, Hcol.
  split; [|split].
  - intros id Hid. rewrite Hcol. apply stored_once.
    + by apply insertMany_NoDup.
    + by apply insertMany_stores.
  - intros w Hw. rewrite Hmw. by apply windows_run_count.
  - intros n Hn. split.
    + intros id Hid. by apply resubmitted_stored_once.
    + intros w Hw. by apply resubmitted_count.
Qed.
End RawEvents.

Lemma duplicates_stored_once_witness :
  let twice := JArr [event_json sample_uuid "/" "view"; event_json sample_uuid "/" "view"] in
  let s := step (P:=stub) ∅ 32768
                (PostIngest 2 (bearer_request "change_me.u1" (Some twice)) t0)
                (init [] ∅) in
  let events := [validated sample_uuid "/" "view"; validated sample_uuid "/" "view"] in
  let s' := run (P:=stub) ∅ 32768 (ingestion 2 true t0) s in
  reachable (P:=stub) ∅ 32768 s
  /\ eventId_unique (eventsCol s) = true
  /\ tasks s !! 2%nat = Some (AwaitInsert events FromHttp)
  /\ jobs s = []
  /\ length (filter (fun d => eventId d = sample_uuid) (docs (eventsCol s'))) = 1%nat
  /\ count (bucket_of (memoryWindows s') 60 (getBucketStart t0 60))
     = count (bucket_of (memoryWindows s) 60 (getBucketStart t0 60)) + 2.
Proof.
  intros twice s events s'.
  assert (reachable (P:=stub) ∅ 32768 s) as Hs by apply reachable_step, reachable_init.
  assert (eventId_unique (eventsCol s) = true) as Hu by (vm_compute; reflexivity).
  assert (tasks s !! 2%nat = Some (AwaitInsert events FromHttp)) as Ht
    by (vm_compute; reflexivity).
  assert (jobs s = []) as Hj by (vm_compute; reflexivity).
  destruct (duplicates_stored_once (P:=stub) ∅ 32768 s 2 events FromHttp t0 Hs Hu Ht Hj)
    as (Hone & Hcount & _).
  repeat (split; [assumption|]). split.
  - apply Hone. apply elem_of_cons. by left.
  - apply (Hcount 60). unfold WINDOW_SIZES. rewrite !elem_of_cons. auto.
Defined.

(** ** A request on its way through the ingest handler *)

Section Ingest.
Context {P : Platform} (env : gmap string string) (MAX_MSG_BYTES : Z).

Local Abbreviation step := (step env MAX_MSG_BYTES).
Local Abbreviation run := (run env MAX_MSG_BYTES).

Lemma step_PostIngest (s : server) (rid : nat) (req : request) (now : Z) :
  jobs s = [] -> fresh rid s = true ->
  step (PostIngest rid req now) s = post_ingest env rid req now s.
Proof. intros Hj Hf. unfold step, when_idle. by rewrite Hj, Hf. Qed.

Lemma step_RunJob (s : server) (j : job) (js : list job) :
  jobs s = j :: js -> step RunJob s = run_job j (with_jobs js s).
Proof. intros Hj. unfold step. by rewrite Hj. Qed.

Lemma validate_all_length (rs : list json) :
  length (validate_all rs)
  = length (filter (fun r => is_Some (eventSchema_validate (withDefaults r))) rs).
Proof.
  unfold validate_all. induction rs as [|r rs IH]; [done|].
  cbn [omap list_omap]. rewrite filter_cons.
  destruct (eventSchema_validate (withDefaults r)) as [e|]; simpl;
    [by rewrite IH | exact IH].
Qed.

(** The ingest handler on a payload that is not empty. *)
Lemma ingest_handler_records (rid : nat) (req : request) (s : server) :
  empty_payload (body req) = false ->
  ingest_handler rid req s
  = match validate_all (records (body req)) with
    | [] => respond rid (mkResponse 400 (ErrorBody "no valid events")) s
    | valid => handleEvents rid valid FromHttp s
    end.
Proof.
  unfold ingest_handler, empty_payload, records.
  destruct (body req) as [payload|]; [|done]. intros ->.
  by destruct payload.
Qed.

Lemma ingest_handler_empty (rid : nat) (req : request) (s : server) :
  empty_payload (body req) = true ->
  ingest_handler rid req s = respond rid (mkResponse 400 (ErrorBody "empty payload")) s.
Proof.
  unfold ingest_handler, empty_payload.
  destruct (body req) as [payload|]; [|done]. by intros ->.
Qed.

(** A batch on its way through the handler, its call of [handleEvents] with
    good upserts, and the job that answers. *)
Lemma accepted_run (s : server) (rid : nat) (valid : list event) (ok : bool) (now : Z) :
  jobs s = [] -> valid <> [] ->
  let done :=
    broadcast "dashboard:global"
      (agg_delta (snd (windows_run valid now (memoryWindows s))))
      (mkServer (fst (windows_run valid now (memoryWindows s)))
                (topicToSockets s) (sockets s)
                (if ok then insertMany valid (eventsCol s) else eventsCol s)
                (upserts_run valid now (aggCol s))
                (delete rid (tasks s)) [] (responses s) (rejected s)) in
  run (ingestion rid ok now ++ [RunJob]) (handleEvents rid valid FromHttp s)
  = respond rid (mkResponse 200 (Accepted (length valid))) done.
Proof.
  intros Hj Hv done. destruct valid as [|e valid]; [done|].
  cbn [handleEvents].
  rewrite run_app, (ingestion_run env MAX_MSG_BYTES _ rid (e :: valid) FromHttp ok now);
    server_simpl; [| by rewrite lookup_insert_eq | done].
  rewrite delete_insert_eq. fold done. cbn [resolve].
  assert (jobs done = []) as Hd.
  { subst done. match goal with |- jobs (broadcast ?t ?p ?s0) = _ =>
      by destruct (broadcast_sockets_only t p s0) as [socks ->] end. }
  rewrite Hd. cbn [app]. rewrite run_cons.
  rewrite (step_RunJob _ (Respond rid (length (e :: valid))) []) by done.
  cbn [run_job run fold_left]. f_equal.
  destruct done; simpl in *; by subst.
Qed.
End Ingest.

(** ** C1: the single-event flow *)

Section SingleEvent.
Context {P : Platform} (env : gmap string string) (MAX_MSG_BYTES : Z).

Local Abbreviation step := (step env MAX_MSG_BYTES).
Local Abbreviation run := (run env MAX_MSG_BYTES).

Lemma guid_nonempty (id : string) : Joi.guid_uuidv4 id = true -> truthy_str id = true.
Proof. by destruct id. Qed.

Lemma validate_event_json (id : string) :
  validate_all [event_json id "/" "view"]
  = if Joi.guid_uuidv4 id then [validated id "/" "view"] else [].
Proof.
  unfold validate_all, event_json. cbn [omap list_omap].
  unfold eventSchema_validate, Joi.guid_required.
  cbn -[Joi.guid_uuidv4 truthy_str].
  destruct (Joi.guid_uuidv4 id) eqn:G.
  - rewrite (guid_nonempty id G), G. reflexivity.
  - destruct (truthy_str id); [rewrite G|]; reflexivity.
Qed.

Lemma step_Connection (s : server) (id : nat) (req : request) (now : Z) :
  jobs s = [] -> sockets s !! id = None ->
  step (Connection id req now) s = on_connection env id req now s.
Proof. intros Hj Hs. unfold step, when_idle. by rewrite Hj, Hs. Qed.

Lemma step_Message (s : server) (id : nat) (ws : socket) (data : ws_data) (tid : nat)
    (now : Z) :
  sockets s !! id = Some ws ->
  handlers ws = true -> readyState ws = OPEN -> fresh tid s = true ->
  step (Message id data tid now) s = on_message MAX_MSG_BYTES id data tid now s.
Proof.
  intros Hs Hh Hr Hf. unfold step. rewrite Hs, Hh, Hf.
  by rewrite bool_decide_eq_true_2.
Qed.

(** The subscribe branch of the 'message' listener. *)
Lemma on_message_subscribe (s : server) (id : nat) (data : ws_data) (tid : nat) (now : Z)
    (msg : list (string * json)) (topic : string) :
  isBinary data = false -> text_length data <= MAX_MSG_BYTES ->
  parsed data = Some (JObj msg) ->
  JsMap.get "type" msg = Some (JStr "subscribe") ->
  JsMap.get "topic" msg = Some (JStr topic) ->
  on_message MAX_MSG_BYTES id data tid now s
  = with_jobs (jobs s ++ [SendSnapshot id (latestAggregatesSnapshot (memoryWindows s) now)])
              (subscribe id topic s).
Proof.
  intros Hb Hl Hp Hty Hto. unfold on_message. rewrite Hb, Hp, Hty, Hto.
  replace (MAX_MSG_BYTES <? text_length data) with false by (symmetry; lia).
  reflexivity.
Qed.

(** The server of the scenarios once the dashboard is in. *)
Lemma with_dashboard_eq (dashboard : request) (decoded : claims) :
  authWsFromReq env dashboard t0 = Some decoded ->
  47 <= MAX_MSG_BYTES ->
  with_dashboard env MAX_MSG_BYTES dashboard
  = mkServer ∅ {["dashboard:global" := {[0%nat]}]}
      {[0%nat := ws_send (agg_snapshot (latestAggregatesSnapshot ∅ t0))
                   (with_subscription "dashboard:global" (accepted_socket decoded))]}
      (mkRaw [] true) ∅ ∅ [] ∅ [].
Proof.
  intros Ha Hm. unfold with_dashboard. rewrite !run_cons.
  rewrite step_Connection by done. unfold on_connection. rewrite Ha.
  erewrite step_Message;
    [| apply lookup_insert_eq | done | done | vm_compute; reflexivity].
  erewrite on_message_subscribe; [| done | exact Hm | done | done | done].
  erewrite step_RunJob by reflexivity.
  vm_compute. reflexivity.
Qed.

(** C1, amended. Scenario 1 with an event whose [eventId] is a version-4
    UUID: posted at [t0 = 1_700_000_000_000] by an authenticated caller while
    an authenticated dashboard is subscribed, with MongoDB answering, the
    request is answered [{accepted: 1}] and the delta sent to the dashboard
    reads count 1, uniques 1, routes [["/", 1]], errors 0 under each of "1s",
    "5s" and "60s".  An [eventId] that is not a version-4 UUID does not pass
    validation: the record is dropped. *)
Theorem single_event_flow_uuid (id : string) (dashboard post : request)
    (decoded decoded' : claims) :
  Joi.guid_uuidv4 id = true ->
  body post = Some (JArr [event_json id "/" "view"]) ->
  authHttp env post t0 = inr decoded ->
  authWsFromReq env dashboard t0 = Some decoded' ->
  47 <= MAX_MSG_BYTES ->
  single_event_flow env MAX_MSG_BYTES dashboard post
  /\ forall id', Joi.guid_uuidv4 id' = false ->
       validate_all [event_json id' "/" "view"] = [].
Proof.
  intros Hg Hb Ha Hd Hm. split.
  - unfold single_event_flow. rewrite (with_dashboard_eq dashboard decoded' Hd Hm).
    rewrite run_cons, step_PostIngest; [| reflexivity | vm_compute; reflexivity].
    unfold post_ingest. rewrite Ha.
    rewrite ingest_handler_records by (by rewrite Hb).
    rewrite Hb. cbn [records]. rewrite validate_event_json, Hg.
    rewrite accepted_run by done.
    split; [vm_compute; reflexivity|].
    exists (latestAggregatesSnapshot ∅ t0). vm_compute. reflexivity.
  - intros id' Hg'. by rewrite validate_event_json, Hg'.
Qed.
End SingleEvent.

Lemma single_event_flow_uuid_witness :
  let dashboard := dashboard_request "change_me.dashboard" in
  let post := bearer_request "change_me.u1" (Some (JArr [event_json sample_uuid "/" "view"])) in
  Joi.guid_uuidv4 sample_uuid = true
  /\ authHttp (P:=stub) ∅ post t0 = inr (mkClaims (Some "u1"))
  /\ authWsFromReq (P:=stub) ∅ dashboard t0 = Some (mkClaims (Some "dashboard"))
  /\ single_event_flow (P:=stub) ∅ 32768 dashboard post.
Proof.
  intros dashboard post.
  assert (Joi.guid_uuidv4 sample_uuid = true) as Hg by reflexivity.
  assert (authHttp (P:=stub) ∅ post t0 = inr (mkClaims (Some "u1"))) as Ha
    by (vm_compute; reflexivity).
  assert (authWsFromReq (P:=stub) ∅ dashboard t0 = Some (mkClaims (Some "dashboard")))
    as Hd by (vm_compute; reflexivity).
  repeat (split; [assumption|]).
  apply (single_event_flow_uuid (P:=stub) ∅ 32768 sample_uuid dashboard post _ _
           Hg eq_refl Ha Hd).
  lia.
Defined.

(** The scenario as the specification has it, with the event id "A": the
    record fails validation, the answer is 400 [{error: "no valid events"}],
    and the dashboard is sent nothing after its snapshot. *)
Lemma single_event_flow_opaque_id :
  let dashboard := dashboard_request "change_me.dashboard" in
  let post := bearer_request "change_me.u1" (Some (JArr [event_json "A" "/" "view"])) in
  let s := run (P:=stub) ∅ 32768 (PostIngest 2 post t0 :: ingestion 2 true t0 ++ [RunJob])
               (with_dashboard (P:=stub) ∅ 32768 dashboard) in
  authHttp (P:=stub) ∅ post t0 = inr (mkClaims (Some "u1"))
  /\ responses s !! 2%nat = Some (mkResponse 400 (ErrorBody "no valid events"))
  /\ sent <$> sockets s !! 0%nat = Some [agg_snapshot (latestAggregatesSnapshot ∅ t0)]
  /\ ~ single_event_flow (P:=stub) ∅ 32768 dashboard post.
Proof.
  intros dashboard post s.
  assert (responses s !! 2%nat = Some (mkResponse 400 (ErrorBody "no valid events")))
    as Hr by (vm_compute; reflexivity).
  split; [vm_compute; reflexivity|]. split; [exact Hr|].
  split; [vm_compute; reflexivity|].
  intros [H _]. fold s in H. rewrite Hr in H. discriminate H.
Qed.

(** ** C2: persistence failures *)

Lemma fresh_spec (n : nat) (s : server) :
  fresh n s = true <->
  tasks s !! n = None /\ responses s !! n = None /\ n ∉ rejected s.
Proof.
  unfold fresh. rewrite !andb_true_iff, !bool_decide_eq_true. tauto.
Qed.

Lemma unanswered_frame (rid : nat) (s s' : server) :
  responses s' = responses s -> tasks s' = tasks s ->
  (forall n, n ∈ rejected s -> n ∈ rejected s') ->
  (forall n, Respond rid n ∈ jobs s' -> Respond rid n ∈ jobs s) ->
  unanswered rid s -> unanswered rid s'.
Proof.
  intros Hr Ht Hrej Hj (H1 & H2 & H3 & H4). unfold unanswered.
  rewrite Hr, Ht. repeat split; auto. intros n Hn. by apply (H4 n), Hj.
Qed.

Lemma unanswered_respond (rid rid' : nat) (r : response) (s : server) :
  rid' <> rid -> unanswered rid s -> unanswered rid (respond rid' r s).
Proof.
  intros Hne (H1 & H2 & H3 & H4). unfold unanswered, respond. server_simpl.
  by rewrite lookup_insert_ne.
Qed.

Lemma unanswered_resolve (rid tid : nat) (events : list event) (from : caller) (s : server) :
  tid <> rid -> unanswered rid s -> unanswered rid (resolve tid events from s).
Proof.
  intros Hne (H1 & H2 & H3 & H4). destruct from; cbn [resolve]; [|done].
  unfold unanswered. server_simpl. repeat split; try done.
  intros n Hn. apply elem_of_app in Hn as [Hn|Hn]; [by apply (H4 n)|].
  apply list_elem_of_singleton in Hn. congruence.
Qed.

Lemma unanswered_handleEvents (rid tid : nat) (events : list event) (from : caller)
    (s : server) :
  tid <> rid -> unanswered rid s -> unanswered rid (handleEvents tid events from s).
Proof.
  intros Hne Hu. unfold handleEvents. destruct events as [|e events].
  - by apply unanswered_resolve.
  - destruct Hu as (H1 & H2 & H3 & H4). unfold unanswered. server_simpl.
    by rewrite lookup_insert_ne.
Qed.

Lemma unanswered_broadcast (rid : nat) (topic : string) (payload : frame) (s : server) :
  unanswered rid s -> unanswered rid (broadcast topic payload s).
Proof.
  intros Hu. destruct (broadcast_sockets_only topic payload s) as [socks ->].
  by apply (unanswered_frame rid s).
Qed.

Lemma unanswered_windows (rid tid : nat) (events : list event) (now : Z)
    (deltas : list (string * serialized)) (remaining : list Z) (from : caller)
    (s : server) :
  tid <> rid -> unanswered rid s ->
  unanswered rid (handleEvents_windows tid events now deltas remaining from s).
Proof.
  intros Hne Hu. destruct remaining as [|w rest].
  - cbn [handleEvents_windows]. apply unanswered_resolve; [done|].
    apply unanswered_broadcast. destruct Hu as (H1 & H2 & H3 & H4).
    unfold unanswered. server_simpl. by rewrite lookup_delete_ne.
  - rewrite handleEvents_windows_cons. destruct Hu as (H1 & H2 & H3 & H4).
    unfold unanswered. server_simpl. by rewrite lookup_insert_ne.
Qed.

Section Unanswered.
Context {P : Platform} (env : gmap string string) (MAX_MSG_BYTES : Z).

Local Abbreviation step := (step env MAX_MSG_BYTES).
Local Abbreviation run := (run env MAX_MSG_BYTES).

Lemma step_unanswered (rid : nat) (l : label) (s : server) :
  unanswered rid s -> unanswered rid (step l s).
Proof.
  intros Hu. pose proof Hu as (H1 & H2 & H3 & H4). unfold step, when_idle.
  destruct l; try (destruct (jobs s) as [|j js] eqn:Hj; [|done]); try done.
  - (* Connection *)
    destruct (sockets s !! id); [done|]. unfold on_connection.
    destruct (authWsFromReq env req now); by apply (unanswered_frame rid s).
  - (* Message *)
    destruct (sockets s !! id) as [ws|]; [|done].
    destruct (handlers ws && bool_decide (readyState ws = OPEN)); [|done]. cbn [andb].
    destruct (fresh tid s) eqn:Hf; [|done]. apply fresh_spec in Hf as (Hf1 & Hf2 & Hf3).
    assert (tid <> rid) as Hne by (intros ->; done).
    unfold on_message.
    repeat (match goal with
            | |- context [match ?x with _ => _ end] => destruct x eqn:?
            end; try done);
      try (by apply unanswered_handleEvents).
    + apply (unanswered_frame rid s); try done. server_simpl.
      intros n Hn. apply elem_of_cons. by right.
    + apply (unanswered_frame rid s); try done. unfold subscribe. server_simpl.
      intros n Hn. apply elem_of_app in Hn as [Hn|Hn]; [done|].
      by apply list_elem_of_singleton in Hn.
  - (* Closing *)
    destruct (sockets s !! id); [|done]. case_decide; [|done].
    by apply (unanswered_frame rid s).
  - (* Close *)
    destruct (sockets s !! id) as [ws|]; [|done]. case_decide; [done|].
    unfold on_close, unsubscribe_all. destruct (handlers ws); by apply (unanswered_frame rid s).
  - (* GetToken *)
    destruct (fresh rid0 s) eqn:Hf; [|done]. apply fresh_spec in Hf as (Hf1 & Hf2 & Hf3).
    apply unanswered_respond; [|done]. by intros ->.
  - (* PostIngest *)
    destruct (fresh rid0 s) eqn:Hf; [|done]. apply fresh_spec in Hf as (Hf1 & Hf2 & Hf3).
    assert (rid0 <> rid) as Hne by (intros ->; done).
    unfold post_ingest, ingest_handler.
    repeat (match goal with
            | |- context [match ?x with _ => _ end] => destruct x eqn:?
            end; try done);
      try (by apply unanswered_handleEvents); by apply unanswered_respond.
  - (* InsertDone *)
    unfold insert_done. destruct (tasks s !! tid) as [[events from|]|] eqn:Et; try done.
    assert (tid <> rid) as Hne by (intros ->; congruence).
    apply unanswered_windows; [done|]. destruct ok; [|done].
    by apply (unanswered_frame rid s).
  - (* UpsertDone *)
    unfold upsert_done.
    destruct (tasks s !! tid) as [[|events now deltas w rest from]|] eqn:Et; try done.
    assert (tid <> rid) as Hne by (intros ->; congruence).
    destruct ok.
    + apply unanswered_windows; [done|]. by apply (unanswered_frame rid s).
    + unfold unanswered. server_simpl. rewrite lookup_delete_ne by done.
      split; [done|]. split; [done|]. split; [apply elem_of_cons; by right|].
      by rewrite Hj.
  - (* RunJob *)
    destruct (jobs s) as [|j js] eqn:Hj; [done|].
    assert (forall n, Respond rid n ∉ js) as H4'.
    { intros n Hn. apply (H4 n). apply elem_of_cons. by right. }
    destruct j as [id snapshot|rid' n]; cbn [run_job].
    + unfold unanswered. by server_simpl.
    + apply unanswered_respond.
      * intros ->. apply (H4 n). apply elem_of_cons. by left.
      * unfold unanswered. by server_simpl.
Qed.

Lemma run_unanswered (rid : nat) (ls : list label) (s : server) :
  unanswered rid s -> unanswered rid (run ls s).
Proof.
  revert s. induction ls as [|l ls IH]; intros s Hu; [done|].
  rewrite run_cons. by apply IH, step_unanswered.
Qed.
End Unanswered.

Section UpsertFailure.
Context {P : Platform} (env : gmap string string) (MAX_MSG_BYTES : Z).

Local Abbreviation step := (step env MAX_MSG_BYTES).
Local Abbreviation run := (run env MAX_MSG_BYTES).

(** A call of [handleEvents] whose reply to the [k+1]-th [updateOne] is a
    failure: the windows before it are updated, nothing is sent, the call is
    gone and its promise is rejected. *)
Lemma upsert_failure_run (s : server) (tid : nat) (events : list event) (from : caller)
    (ok : bool) (now : Z) (k : nat) :
  tasks s !! tid = Some (AwaitInsert events from) ->
  jobs s = [] -> (k < 3)%nat ->
  let thrown :=
    run (InsertDone tid ok now :: replicate k (UpsertDone tid true) ++ [UpsertDone tid false])
        s in
  sockets thrown = sockets s /\ topicToSockets thrown = topicToSockets s
  /\ jobs thrown = [] /\ responses thrown = responses s
  /\ tasks thrown = delete tid (tasks s) /\ rejected thrown = tid :: rejected s
  /\ memoryWindows thrown
     = fold_left (fun m w => fst (update_window events now w m))
                 (take (S k) WINDOW_SIZES) (memoryWindows s).
Proof.
  intros Ht Hj Hk thrown. subst thrown.
  rewrite run_cons, step_InsertDone by done. unfold insert_done. rewrite Ht.
  assert ((if ok then with_eventsCol (insertMany events (eventsCol s)) s else s)
          = with_eventsCol (if ok then insertMany events (eventsCol s) else eventsCol s) s)
    as -> by (by destruct ok, s).
  unfold WINDOW_SIZES. rewrite handleEvents_windows_cons.
  destruct k as [|[|[|k]]]; [| | |lia]; cbn [replicate app take fold_left];
    repeat (rewrite run_cons, step_UpsertDone by (server_simpl; done);
            unfold upsert_done; server_simpl; rewrite lookup_insert_eq;
            rewrite ?handleEvents_windows_cons; server_simpl);
    cbn [run fold_left]; server_simpl; rewrite ?delete_insert_eq; done.
Qed.

Lemma broadcast_sockets_ext (topic : string) (payload : frame) (s s' : server) :
  topicToSockets s' = topicToSockets s -> sockets s' = sockets s ->
  sockets (broadcast topic payload s') = sockets (broadcast topic payload s).
Proof.
  intros Ht Hs. unfold broadcast. rewrite Ht.
  destruct (topicToSockets s !! topic) as [set|]; [|done].
  case_decide; [done|]. server_simpl. by rewrite Hs.
Qed.

(** C2. What the claim says holds for [insertMany]: when the insert fails and
    the upserts are answered, the request is answered [{accepted: n}] and the
    delta is broadcast.  It does not hold for [updateOne]: when the reply to
    the first, second or third upsert is a failure, the promise of the
    handler is rejected, nothing is broadcast, only the windows before the
    failure hold the batch, and whatever happens afterwards the request is
    never answered and its call never resumes. *)
Theorem upsert_failure_unanswered (s : server) (rid : nat) (valid : list event)
    (now : Z) :
  jobs s = [] ->
  fresh rid s = true ->
  valid <> [] ->
  let s1 := handleEvents rid valid FromHttp s in
  (let swallowed := run (ingestion rid false now ++ [RunJob]) s1 in
   responses swallowed !! rid = Some (mkResponse 200 (Accepted (length valid)))
   /\ sockets swallowed
      = sockets (broadcast "dashboard:global"
                   (agg_delta (snd (windows_run valid now (memoryWindows s)))) s))
  /\ (forall ok k, (k < 3)%nat ->
        let thrown :=
          run (InsertDone rid ok now :: replicate k (UpsertDone rid true)
                 ++ [UpsertDone rid false]) s1 in
        sockets thrown = sockets s
        /\ rid ∈ rejected thrown
        /\ memoryWindows thrown
           = fold_left (fun m w => fst (update_window valid now w m))
                       (take (S k) WINDOW_SIZES) (memoryWindows s)
        /\ forall ls, responses (run ls thrown) !! rid = None
                      /\ tasks (run ls thrown) !! rid = None).
Proof.
  intros Hj Hf Hv s1. apply fresh_spec in Hf as (Hf1 & Hf2 & Hf3).
  assert (s1 = with_tasks (<[rid := AwaitInsert valid FromHttp]> (tasks s)) s) as Hs1.
  { subst s1. by destruct valid. }
  split.
  - intros swallowed. subst swallowed s1. rewrite accepted_run by done.
    unfold respond. server_simpl. rewrite lookup_insert_eq. split; [done|].
    by apply broadcast_sockets_ext.
  - intros ok k Hk thrown.
    destruct (upsert_failure_run s1 rid valid FromHttp ok now k)
      as (Hsock & Htts & Hjobs & Hresp & Htasks & Hrej & Hmw);
      [by rewrite Hs1; server_simpl; rewrite lookup_insert_eq | by rewrite Hs1 | done |].
    fold thrown in Hsock, Htts, Hjobs, Hresp, Htasks, Hrej, Hmw.
    rewrite Hs1 in Hsock, Hresp, Hmw. server_simpl.
    split; [done|]. split; [rewrite Hrej; apply elem_of_cons; by left|].
    split; [done|]. intros ls.
    assert (unanswered rid thrown) as Hu.
    { unfold unanswered. rewrite Hresp, Htasks, Hrej, Hjobs, lookup_delete_eq.
      repeat split; try done; [apply elem_of_cons; by left|].
      intros n Hn. by apply elem_of_nil in Hn. }
    by destruct (run_unanswered env MAX_MSG_BYTES rid ls thrown Hu) as (? & ? & _).
Qed.
End UpsertFailure.

Lemma upsert_failure_unanswered_witness :
  let dashboard := dashboard_request "change_me.dashboard" in
  let s := with_dashboard (P:=stub) ∅ 32768 dashboard in
  let valid := [validated sample_uuid "/" "view"] in
  let thrown := run (P:=stub) ∅ 32768 [InsertDone 2 true t0; UpsertDone 2 false]
                    (handleEvents 2 valid FromHttp s) in
  jobs s = []
  /\ fresh 2 s = true
  /\ sent <$> sockets thrown !! 0%nat = Some [agg_snapshot (latestAggregatesSnapshot ∅ t0)]
  /\ rejected thrown = [2%nat]
  /\ count <$> memoryWindows thrown !! (1, getBucketStart t0 1) = Some 1
  /\ memoryWindows thrown !! (5, getBucketStart t0 5) = None
  /\ memoryWindows thrown !! (60, getBucketStart t0 60) = None
  /\ forall ls, responses (run (P:=stub) ∅ 32768 ls thrown) !! 2%nat = None.
Proof.
  intros dashboard s valid thrown.
  assert (jobs s = []) as Hj by (vm_compute; reflexivity).
  assert (fresh 2 s = true) as Hf by (vm_compute; reflexivity).
  split; [exact Hj|]. split; [exact Hf|].
  destruct (upsert_failure_unanswered (P:=stub) ∅ 32768 s 2 valid t0 Hj Hf)
    as [_ Hthrown]; [done|].
  destruct (Hthrown true 0%nat) as (_ & _ & _ & Hnever); [lia|].
  repeat (split; [vm_compute; reflexivity|]).
  intros ls. apply (Hnever ls).
Defined.

(** ** C8: the answers of [POST /ingest] *)

Section IngestAnswers.
Context {P : Platform} (env : gmap string string) (MAX_MSG_BYTES : Z).

Local Abbreviation step := (step env MAX_MSG_BYTES).
Local Abbreviation run := (run env MAX_MSG_BYTES).

(** A call of [handleEvents] for a request, whose reply to the first, second
    or third [updateOne] is a failure: whatever comes afterwards, the request
    has no answer. *)
Lemma rejected_upsert_no_answer (s : server) (rid : nat) (valid : list event)
    (ok : bool) (now : Z) (k : nat) (ls : list label) :
  jobs s = [] -> fresh rid s = true -> valid <> [] -> (k < 3)%nat ->
  responses
    (run (InsertDone rid ok now
            :: replicate k (UpsertDone rid true) ++ [UpsertDone rid false] ++ ls)
         (handleEvents rid valid FromHttp s)) !! rid
  = None.
Proof.
  intros Hj Hf Hv Hk. apply fresh_spec in Hf as (Hf1 & Hf2 & Hf3).
  assert (handleEvents rid valid FromHttp s
          = with_tasks (<[rid := AwaitInsert valid FromHttp]> (tasks s)) s) as ->
    by (by destruct valid).
  rewrite app_assoc, app_comm_cons, run_app.
  match goal with |- responses (run ls ?t) !! rid = None => set (thrown := t) end.
  destruct (upsert_failure_run env MAX_MSG_BYTES
              (with_tasks (<[rid := AwaitInsert valid FromHttp]> (tasks s)) s)
              rid valid FromHttp ok now k)
    as (_ & _ & Hjobs & Hresp & Htasks & Hrej & _);
    [by server_simpl; rewrite lookup_insert_eq | done | done |].
  fold thrown in Hjobs, Hresp, Htasks, Hrej. server_simpl.
  assert (unanswered rid thrown) as Hu.
  { unfold unanswered. rewrite Hresp, Htasks, Hrej, Hjobs, lookup_delete_eq.
    repeat split; try done; [apply elem_of_cons; by left|].
    intros n Hn. by apply elem_of_nil in Hn. }
  by destruct (run_unanswered env MAX_MSG_BYTES rid ls thrown Hu) as (? & _).
Qed.

(** C8. A [POST /ingest] request that passed [authHttp] is answered 400
    [{error: "empty payload"}] when the payload is missing, falsy or an empty
    array, and 400 [{error: "no valid events"}] when the payload is not empty
    and no record of it passes validation.  Otherwise [n] records pass
    validation, the ones that fail being left out, and the handler awaits
    [handleEvents]: when the three upserts are answered (the insert failing
    or not) the request is answered [{accepted: n}] with status 200; when
    the reply to one of the upserts is a failure, [res.json] is not reached:
    whatever happens afterwards, the handler sends no answer to the
    request. *)
Theorem ingest_answers (s : server) (rid : nat) (req : request) (now : Z)
    (decoded : claims) :
  jobs s = [] ->
  fresh rid s = true ->
  authHttp env req now = inr decoded ->
  let valid := validate_all (records (body req)) in
  (empty_payload (body req) = true ->
     step (PostIngest rid req now) s
     = respond rid (mkResponse 400 (ErrorBody "empty payload")) s)
  /\ (empty_payload (body req) = false -> valid = [] ->
       step (PostIngest rid req now) s
       = respond rid (mkResponse 400 (ErrorBody "no valid events")) s)
  /\ (empty_payload (body req) = false -> valid <> [] ->
       (forall ok now',
          responses (run (PostIngest rid req now :: ingestion rid ok now' ++ [RunJob]) s)
            !! rid
          = Some (mkResponse 200 (Accepted (length valid))))
       /\ (forall ok now' k ls, (k < 3)%nat ->
             responses
               (run (PostIngest rid req now :: InsertDone rid ok now'
                       :: replicate k (UpsertDone rid true)
                       ++ [UpsertDone rid false] ++ ls) s) !! rid
             = None))
  /\ length valid
     = length (filter (fun r => is_Some (eventSchema_validate (withDefaults r)))
                      (records (body req))).
Proof.
  intros Hj Hf Ha valid.
  assert (step (PostIngest rid req now) s = ingest_handler rid req s) as Hstep.
  { rewrite step_PostIngest by done. unfold post_ingest. by rewrite Ha. }
  split; [|split; [|split]].
  - intros He. by rewrite Hstep, ingest_handler_empty.
  - intros He Hv. rewrite Hstep, ingest_handler_records by done. fold valid. by rewrite Hv.
  - intros He Hv.
    assert (ingest_handler rid req s = handleEvents rid valid FromHttp s) as Hh.
    { rewrite ingest_handler_records by done. fold valid. by destruct valid. }
    split.
    + intros ok now'. rewrite run_cons, Hstep, Hh.
      rewrite accepted_run by done. unfold respond. cbn [responses with_responses].
      by rewrite lookup_insert_eq.
    + intros ok now' k ls Hk. rewrite run_cons, Hstep, Hh.
      by apply rejected_upsert_no_answer.
  - apply validate_all_length.
Qed.
End IngestAnswers.

Lemma ingest_answers_witness :
  let mixed :=
    JArr [event_json sample_uuid "/" "view";
          JObj [("eventId", JStr sample_uuid); ("ts", JNum (1000 # 1)%Q);
                ("userId", JStr "u1"); ("route", JStr "/"); ("action", JStr "view")]] in
  let req := bearer_request "change_me.u1" (Some mixed) in
  jobs (init [] ∅) = []
  /\ fresh 2 (init [] ∅) = true
  /\ authHttp (P:=stub) ∅ req t0 = inr (mkClaims (Some "u1"))
  /\ validate_all (P:=stub) (records (body req)) = [validated sample_uuid "/" "view"]
  /\ responses (run (P:=stub) ∅ 32768
                   (PostIngest 2 req t0 :: ingestion 2 true t0 ++ [RunJob]) (init [] ∅))
       !! 2%nat
     = Some (mkResponse 200 (Accepted 1))
  /\ forall ls,
       responses (run (P:=stub) ∅ 32768
                     (PostIngest 2 req t0 :: InsertDone 2 true t0 :: UpsertDone 2 false :: ls)
                     (init [] ∅)) !! 2%nat
       = None.
Proof.
  intros mixed req.
  assert (jobs (init [] ∅) = []) as Hj by reflexivity.
  assert (fresh 2 (init [] ∅) = true) as Hf by (vm_compute; reflexivity).
  assert (authHttp (P:=stub) ∅ req t0 = inr (mkClaims (Some "u1"))) as Ha
    by (vm_compute; reflexivity).
  repeat (split; [assumption|]).
  split; [vm_compute; reflexivity|].
  destruct (ingest_answers (P:=stub) ∅ 32768 (init [] ∅) 2 req t0 _ Hj Hf Ha)
    as (_ & _ & Hacc & _).
  destruct (Hacc eq_refl) as [Hgood Hbad]; [vm_compute; congruence|].
  split; [apply Hgood|].
  intros ls. apply (Hbad true t0 0%nat ls). lia.
Defined.

(** ** Sockets and the registry in every reachable state *)

Lemma snapshot_first_app (l : list frame) (f : frame) :
  snapshot_first l -> l <> [] -> snapshot_first (l ++ [f]).
Proof. by destruct l as [|[] l]. Qed.

Lemma snapshot_first_snapshot (l : list frame) (data : list (string * serialized)) :
  snapshot_first l -> snapshot_first (l ++ [agg_snapshot data]).
Proof. by destruct l as [|[] l]. Qed.

Lemma ws_send_handlers (f : frame) (ws : socket) : handlers (ws_send f ws) = handlers ws.
Proof. unfold ws_send. by case_decide. Qed.

Lemma ws_send_readyState (f : frame) (ws : socket) :
  readyState (ws_send f ws) = readyState ws.
Proof. unfold ws_send. by case_decide. Qed.

Lemma ws_send_sent (f : frame) (ws : socket) :
  sent (ws_send f ws) = if decide (readyState ws = OPEN) then sent ws ++ [f] else sent ws.
Proof. unfold ws_send. by case_decide. Qed.

Lemma ws_send_sent_nonempty (f : frame) (ws : socket) :
  sent ws <> [] -> sent (ws_send f ws) <> [].
Proof.
  rewrite ws_send_sent. intros Hne. case_decide; [|done]. intros E.
  by apply app_eq_nil in E as [? _].
Qed.

Lemma ws_send_refused (f : frame) (ws : socket) :
  readyState ws <> OPEN -> ws_send f ws = ws.
Proof. intros H. unfold ws_send. by case_decide. Qed.

Lemma snapshot_pending_app (id : nat) (js js' : list job) :
  snapshot_pending id js -> snapshot_pending id (js ++ js').
Proof. intros [snap H]. exists snap. apply elem_of_app. by left. Qed.

Lemma snapshot_pending_nil (id : nat) : ~ snapshot_pending id [].
Proof. intros [snap H]. by apply elem_of_nil in H. Qed.

(** Nothing about sockets changes when only the other fields do and jobs are
    added at the end of the queue. *)
Lemma sockets_ok_frame (s s' : server) (js : list job) :
  sockets s' = sockets s -> topicToSockets s' = topicToSockets s ->
  jobs s' = jobs s ++ js ->
  sockets_ok s -> sockets_ok s'.
Proof.
  intros Hs Ht Hj (H1 & H2 & H3). unfold sockets_ok, registry_ok, refused_ok.
  rewrite Hs, Ht, Hj. split; [exact H1|]. split; [|exact H3].
  intros topic set id Hl Hin. destruct (H2 topic set id Hl Hin) as (ws & Hw & Hh & Hc).
  exists ws. split; [done|]. split; [done|].
  destruct Hc as [?|[?|?]]; [by left | by right; left |].
  right; right. by apply snapshot_pending_app.
Qed.

Lemma handleEvents_frame (tid : nat) (events : list event) (from : caller) (s : server) :
  sockets_ok s -> sockets_ok (handleEvents tid events from s).
Proof.
  unfold handleEvents. destruct events as [|e events].
  - destruct from; cbn [resolve]; [|done].
    by apply (sockets_ok_frame s _ [Respond tid (length (@nil event))]).
  - apply (sockets_ok_frame s _ []); try done. cbn. by rewrite app_nil_r.
Qed.

Lemma connection_ok (s : server) (id : nat) (ws0 : socket) :
  sockets s !! id = None ->
  sent ws0 = [] ->
  (handlers ws0 = false ->
   subscriptions ws0 = ∅ /\ readyState ws0 <> OPEN /\ closeCode ws0 = Some 1008) ->
  sockets_ok s -> sockets_ok (with_sockets (<[id := ws0]> (sockets s)) s).
Proof.
  intros Hnew Hsent Href (H1 & H2 & H3). unfold sockets_ok, registry_ok, refused_ok.
  server_simpl. split; [|split].
  - intros id' ws. rewrite lookup_insert. case_decide as E.
    + intros [= <-]. by rewrite Hsent.
    + apply H1.
  - intros topic set id' Hl Hin. destruct (H2 topic set id' Hl Hin) as (ws & Hw & Hrest).
    exists ws. split; [|exact Hrest].
    rewrite lookup_insert_ne; [done|]. intros ->. congruence.
  - intros id' ws. rewrite lookup_insert. case_decide as E.
    + intros [= <-] Hh. split; [done|]. by apply Href.
    + apply H3.
Qed.

Lemma subscribe_ok (s : server) (id : nat) (ws : socket) (topic : string)
    (snapshot : list (string * serialized)) :
  sockets s !! id = Some ws -> handlers ws = true ->
  sockets_ok s ->
  sockets_ok (with_jobs (jobs (subscribe id topic s) ++ [SendSnapshot id snapshot])
                        (subscribe id topic s)).
Proof.
  intros Hw Hh (H1 & H2 & H3). unfold sockets_ok, registry_ok, refused_ok, subscribe.
  server_simpl. split; [|split].
  - intros id' ws'. rewrite lookup_alter. case_decide as E.
    + subst id'. rewrite Hw. intros [= <-]. by apply (H1 id ws).
    + apply H1.
  - intros topic' set id' Hl Hin.
    assert (id' = id \/ (id' <> id /\ exists set0, topicToSockets s !! topic' = Some set0
                                                  /\ id' ∈ set0)) as [->|(Hne & set0 & Hl0 & Hin0)].
    { destruct (decide (id' = id)) as [|Hne]; [by left|right]. split; [done|].
      rewrite lookup_insert in Hl. case_decide as E.
      - injection Hl as <-. apply elem_of_union in Hin as [Hin|Hin].
        + subst topic'. destruct (topicToSockets s !! topic) as [set0|] eqn:E0.
          * by exists set0.
          * by apply elem_of_empty in Hin.
        + by apply elem_of_singleton in Hin.
      - by exists set. }
    + exists (with_subscription topic ws). rewrite lookup_alter, decide_True by done.
      rewrite Hw. split; [done|]. split; [done|]. right; right.
      exists snapshot. apply elem_of_app. right. apply elem_of_cons. by left.
    + destruct (H2 topic' set0 id' Hl0 Hin0) as (ws' & Hw' & Hh' & Hc).
      exists ws'. rewrite lookup_alter_ne by done. split; [done|]. split; [done|].
      destruct Hc as [?|[?|?]]; [by left | by right; left |].
      right; right. by apply snapshot_pending_app.
  - intros id' ws'. rewrite lookup_alter. case_decide as E.
    + subst id'. rewrite Hw. intros [= <-]. cbn. congruence.
    + apply H3.
Qed.

(** A socket changes in a way that keeps what was sent and who listens, and
    does not open it. *)
Lemma socket_update_ok (s : server) (id : nat) (ws ws' : socket) :
  sockets s !! id = Some ws ->
  sent ws' = sent ws -> handlers ws' = handlers ws ->
  subscriptions ws' = subscriptions ws -> closeCode ws' = closeCode ws ->
  (readyState ws' = OPEN -> readyState ws = OPEN) ->
  sockets_ok s -> sockets_ok (with_sockets (<[id := ws']> (sockets s)) s).
Proof.
  intros Hw Hsent Hh Hsub Hc Hr (H1 & H2 & H3).
  unfold sockets_ok, registry_ok, refused_ok. server_simpl. split; [|split].
  - intros id' w. rewrite lookup_insert. case_decide as E.
    + subst id'. intros [= <-]. rewrite Hsent. by apply (H1 id ws).
    + apply H1.
  - intros topic set id' Hl Hin. destruct (H2 topic set id' Hl Hin) as (w & Hw' & Hh' & Hc').
    destruct (decide (id' = id)) as [->|Hid].
    + exists ws'. rewrite lookup_insert_eq. rewrite Hw in Hw'. injection Hw' as <-.
      split; [done|]. split; [congruence|].
      destruct Hc' as [?|[?|?]]; [left; congruence | right; left; auto | by right; right].
    + exists w. by rewrite lookup_insert_ne.
  - intros id' w. rewrite lookup_insert. case_decide as E.
    + subst id'. intros [= <-] Hf. rewrite Hh in Hf.
      destruct (H3 id ws Hw Hf) as (? & ? & ? & ?).
      rewrite Hsent, Hsub, Hc. repeat split; try done. intros Ho. by apply Hr in Ho.
    + apply H3.
Qed.

Lemma unsubscribe_all_ok (s : server) (id : nat) (topics : gset string) :
  sockets_ok s -> sockets_ok (unsubscribe_all id topics s).
Proof.
  intros (H1 & H2 & H3). unfold sockets_ok, registry_ok, refused_ok, unsubscribe_all.
  server_simpl. split; [exact H1|]. split; [|exact H3].
  intros topic set id' Hl Hin. rewrite map_lookup_imap in Hl.
  destruct (topicToSockets s !! topic) as [set0|] eqn:E; [|done]. cbn in Hl.
  apply (H2 topic set0 id' E).
  case_decide; [|by injection Hl as <-].
  case_decide; [done|]. injection Hl as <-.
  by apply elem_of_difference in Hin as [? _].
Qed.

Lemma broadcast_ok (s : server) (topic : string) (data : list (string * serialized)) :
  jobs s = [] -> sockets_ok s -> sockets_ok (broadcast topic (agg_delta data) s).
Proof.
  intros Hj (H1 & H2 & H3). unfold broadcast.
  destruct (topicToSockets s !! topic) as [set|] eqn:Et; [|done].
  case_decide; [done|].
  unfold sockets_ok, registry_ok, refused_ok. server_simpl. split; [|split].
  - intros id ws'. rewrite map_lookup_imap.
    destruct (sockets s !! id) as [ws|] eqn:Ew; [|done]. cbn.
    pose proof (H1 id ws Ew) as Hf.
    case_decide as Hin; [|by intros [= <-]].
    destruct (writable ws); [|by intros [= <-]]. intros [= <-].
    destruct (H2 topic set id Et Hin) as (w & Hw & _ & Hc).
    rewrite Ew in Hw. injection Hw as <-.
    rewrite ws_send_sent. case_decide as Ho; [|done].
    destruct Hc as [Hne|[Hno|Hp]]; [by apply snapshot_first_app | done |].
    rewrite Hj in Hp. by apply snapshot_pending_nil in Hp.
  - intros topic' set' id Hl Hin. destruct (H2 topic' set' id Hl Hin) as (ws & Hw & Hh & Hc).
    rewrite map_lookup_imap, Hw. cbn. eexists. split; [reflexivity|].
    repeat case_match; rewrite ?ws_send_handlers, ?ws_send_readyState;
      (split; [done|]);
      (destruct Hc as [?|[?|?]];
       [left; by try apply ws_send_sent_nonempty | by right; left | by right; right]).
  - intros id ws'. rewrite map_lookup_imap.
    destruct (sockets s !! id) as [ws|] eqn:Ew; [|done]. cbn.
    intros [= <-] Hh.
    assert (handlers ws = false) as Hh'.
    { revert Hh. repeat case_match; by rewrite ?ws_send_handlers. }
    destruct (H3 id ws Ew Hh') as (? & ? & ? & ?).
    repeat case_match; rewrite ?ws_send_refused by done; done.
Qed.

Lemma run_job_ok (s : server) (j : job) (js : list job) :
  jobs s = j :: js -> sockets_ok s -> sockets_ok (run_job j (with_jobs js s)).
Proof.
  intros Hj (H1 & H2 & H3). destruct j as [id snapshot|rid n]; cbn [run_job].
  - unfold sockets_ok, registry_ok, refused_ok. server_simpl. split; [|split].
    + intros id' ws'. rewrite lookup_alter. case_decide as E.
      * subst id'. destruct (sockets s !! id) as [ws|] eqn:Ew; [|done]. cbn.
        intros [= <-]. rewrite ws_send_sent. pose proof (H1 id ws Ew).
        case_decide; [by apply snapshot_first_snapshot | done].
      * apply H1.
    + intros topic set id' Hl Hin.
      destruct (H2 topic set id' Hl Hin) as (ws & Hw & Hh & Hc).
      rewrite lookup_alter. case_decide as E.
      * subst id'. rewrite Hw. cbn. eexists. split; [reflexivity|].
        rewrite ws_send_handlers, ws_send_readyState. split; [done|].
        destruct (decide (readyState ws = OPEN)) as [Ho|Ho]; [left | by right; left].
        rewrite ws_send_sent, decide_True by done.
        intros E. by apply app_eq_nil in E as [_ ?].
      * exists ws. split; [done|]. split; [done|].
        destruct Hc as [?|[?|[snap Hp]]]; [by left | by right; left |].
        right; right. exists snap. rewrite Hj in Hp.
        apply elem_of_cons in Hp as [[= ? ?]|Hp]; done.
    + intros id' ws'. rewrite lookup_alter. case_decide as E.
      * subst id'. destruct (sockets s !! id) as [ws|] eqn:Ew; [|done]. cbn.
        intros [= <-]. rewrite ws_send_handlers. intros Hh.
        destruct (H3 id ws Ew Hh) as (? & ? & ? & ?).
        by rewrite ws_send_refused.
      * apply H3.
  - unfold sockets_ok, registry_ok, refused_ok. server_simpl.
    split; [exact H1|]. split; [|exact H3].
    intros topic set id Hl Hin. destruct (H2 topic set id Hl Hin) as (ws & Hw & Hh & Hc).
    exists ws. split; [done|]. split; [done|].
    destruct Hc as [?|[?|[snap Hp]]]; [by left | by right; left |].
    right; right. exists snap. rewrite Hj in Hp. by apply elem_of_cons in Hp as [[=]|Hp].
Qed.

Lemma handleEvents_windows_ok (tid : nat) (events : list event) (now : Z)
    (deltas : list (string * serialized)) (remaining : list Z) (from : caller)
    (s : server) :
  jobs s = [] -> sockets_ok s ->
  sockets_ok (handleEvents_windows tid events now deltas remaining from s).
Proof.
  intros Hj Hok. destruct remaining as [|w rest].
  - cbn [handleEvents_windows].
    assert (sockets_ok (broadcast "dashboard:global" (agg_delta deltas)
                          (with_tasks (delete tid (tasks s)) s))) as Hb.
    { apply broadcast_ok; [done|]. by apply (sockets_ok_frame s _ []); rewrite ?app_nil_r. }
    destruct from; cbn [resolve]; [|done].
    by eapply sockets_ok_frame; [..|exact Hb].
  - rewrite handleEvents_windows_cons.
    by apply (sockets_ok_frame s _ []); rewrite ?app_nil_r.
Qed.

Section Sockets.
Context {P : Platform} (env : gmap string string) (MAX_MSG_BYTES : Z).

Lemma on_message_ok (s : server) (id : nat) (ws : socket) (data : ws_data) (tid : nat)
    (now : Z) :
  sockets s !! id = Some ws -> handlers ws = true ->
  sockets_ok s -> sockets_ok (on_message MAX_MSG_BYTES id data tid now s).
Proof.
  intros Hw Hh Hok. unfold on_message.
  repeat (match goal with
          | |- context [match ?x with _ => _ end] => destruct x eqn:?
          end; try done);
    try (by apply handleEvents_frame);
    try (by apply (sockets_ok_frame s _ []); rewrite ?app_nil_r).
  by apply (subscribe_ok s id ws).
Qed.

Lemma step_sockets_ok (l : label) (s : server) :
  sockets_ok s -> sockets_ok (step env MAX_MSG_BYTES l s).
Proof.
  intros Hok. unfold step, when_idle.
  destruct l; try (destruct (jobs s) as [|j js] eqn:Hj; [|done]); try done.
  - (* Connection *)
    destruct (sockets s !! id) eqn:Ew; [done|]. unfold on_connection.
    destruct (authWsFromReq env req now); by apply connection_ok.
  - (* Message *)
    destruct (sockets s !! id) as [ws|] eqn:Ew; [|done].
    destruct (handlers ws) eqn:Hh; [|done].
    destruct (bool_decide (readyState ws = OPEN)); [|done].
    destruct (fresh tid s); [|done]. by apply (on_message_ok s id ws).
  - (* Closing *)
    destruct (sockets s !! id) as [ws|] eqn:Ew; [|done]. case_decide; [|done].
    by apply (socket_update_ok s id ws).
  - (* Close *)
    destruct (sockets s !! id) as [ws|] eqn:Ew; [|done]. case_decide; [done|].
    unfold on_close.
    assert (sockets_ok (with_sockets (<[id := with_readyState CLOSED ws]> (sockets s)) s)).
    { by apply (socket_update_ok s id ws). }
    destruct (handlers ws); [by apply unsubscribe_all_ok | done].
  - (* Buffered *)
    destruct (sockets s !! id) as [ws|] eqn:Ew.
    + replace (alter (with_bufferedAmount amount) id (sockets s))
        with (<[id := with_bufferedAmount amount ws]> (sockets s)).
      * by apply (socket_update_ok s id ws).
      * apply map_eq. intros i. rewrite lookup_insert, lookup_alter.
        case_decide; [subst; by rewrite Ew | done].
    + replace (alter (with_bufferedAmount amount) id (sockets s)) with (sockets s).
      * by apply (sockets_ok_frame s _ []); rewrite ?app_nil_r.
      * apply map_eq. intros i. rewrite lookup_alter.
        case_decide; [subst; by rewrite Ew | done].
  - (* GetToken *)
    destruct (fresh rid s); [|done].
    by apply (sockets_ok_frame s _ []); rewrite ?app_nil_r.
  - (* PostIngest *)
    destruct (fresh rid s); [|done]. unfold post_ingest, ingest_handler.
    repeat (match goal with
            | |- context [match ?x with _ => _ end] => destruct x eqn:?
            end; try done);
      try (by apply handleEvents_frame);
      try (by apply (sockets_ok_frame s _ []); rewrite ?app_nil_r).
  - (* InsertDone *)
    unfold insert_done. destruct (tasks s !! tid) as [[events from|]|]; try done.
    apply handleEvents_windows_ok; [by destruct ok|].
    destruct ok; [|done]. by apply (sockets_ok_frame s _ []); rewrite ?app_nil_r.
  - (* UpsertDone *)
    unfold upsert_done.
    destruct (tasks s !! tid) as [[|events now deltas w rest from]|]; try done.
    destruct ok.
    + apply handleEvents_windows_ok; [done|].
      by apply (sockets_ok_frame s _ []); rewrite ?app_nil_r.
    + by apply (sockets_ok_frame s _ []); rewrite ?app_nil_r.
  - (* RunJob *)
    destruct (jobs s) as [|j js] eqn:Hj; [done|]. by apply run_job_ok.
Qed.

Lemma reachable_sockets_ok (s : server) :
  reachable env MAX_MSG_BYTES s -> sockets_ok s.
Proof.
  induction 1 as [raw aggs|l s Hs IH]; [|by apply step_sockets_ok].
  unfold sockets_ok, registry_ok, refused_ok, init. server_simpl.
  split; [|split]; intros *; by rewrite lookup_empty.
Qed.
End Sockets.

(** ** C4: snapshot before delta *)

Lemma handleEvents_sockets (tid : nat) (events : list event) (from : caller) (s : server) :
  sockets (handleEvents tid events from s) = sockets s.
Proof.
  unfold handleEvents. destruct events; [|done].
  by destruct (resolve_jobs_only tid [] from s) as [js ->].
Qed.

Lemma resolve_sockets (tid : nat) (events : list event) (from : caller) (s : server) :
  sockets (resolve tid events from s) = sockets s.
Proof. by destruct (resolve_jobs_only tid events from s) as [js ->]. Qed.

(** What a broadcast does to one socket: nothing, or the payload at the end
    of what it was sent, and then the socket is registered under the topic. *)
Lemma broadcast_sent (topic : string) (payload : frame) (s : server) (id : nat)
    (ws ws' : socket) :
  sockets s !! id = Some ws ->
  sockets (broadcast topic payload s) !! id = Some ws' ->
  sent ws' = sent ws
  \/ (sent ws' = sent ws ++ [payload]
      /\ exists set, topicToSockets s !! topic = Some set /\ id ∈ set).
Proof.
  intros Hw. unfold broadcast.
  destruct (topicToSockets s !! topic) as [set|] eqn:Et;
    [|rewrite Hw; intros [= <-]; by left].
  case_decide; [rewrite Hw; intros [= <-]; by left|].
  server_simpl. rewrite map_lookup_imap, Hw. cbn.
  case_decide as Hin; [|intros [= <-]; by left].
  destruct (writable ws); [|intros [= <-]; by left]. intros [= <-].
  rewrite ws_send_sent. case_decide; [right|by left]. split; [done|]. by exists set.
Qed.

Lemma handleEvents_windows_sent (tid : nat) (events : list event) (now : Z)
    (deltas : list (string * serialized)) (remaining : list Z) (from : caller)
    (s : server) (id : nat) (ws ws' : socket) :
  sockets s !! id = Some ws ->
  sockets (handleEvents_windows tid events now deltas remaining from s) !! id = Some ws' ->
  sent ws' = sent ws
  \/ (sent ws' = sent ws ++ [agg_delta deltas] /\ remaining = []
      /\ exists set, topicToSockets s !! "dashboard:global" = Some set /\ id ∈ set).
Proof.
  intros Hw. destruct remaining as [|w rest].
  - cbn [handleEvents_windows]. rewrite resolve_sockets. intros Hb.
    destruct (broadcast_sent "dashboard:global" (agg_delta deltas)
                (with_tasks (delete tid (tasks s)) s) id ws ws' Hw Hb) as [?|[? ?]];
      [by left | by right].
  - rewrite handleEvents_windows_cons. server_simpl. rewrite Hw. intros [= <-]. by left.
Qed.

Section SnapshotFirst.
Context {P : Platform} (env : gmap string string) (MAX_MSG_BYTES : Z).

Local Abbreviation step := (step env MAX_MSG_BYTES).
Local Abbreviation reachable := (reachable env MAX_MSG_BYTES).

(** What one turn of the event loop sends to a socket: nothing; or a delta,
    in the turn in which the last [updateOne] of a call is answered, which
    starts on an empty job queue, to a socket registered under the global
    topic; or the snapshot of the job at the head of the queue. *)
Lemma step_sent (l : label) (s : server) (id : nat) (ws ws' : socket) :
  sockets s !! id = Some ws ->
  sockets (step l s) !! id = Some ws' ->
  sent ws' = sent ws
  \/ (exists tid data set,
        l = UpsertDone tid true /\ jobs s = []
        /\ sent ws' = sent ws ++ [agg_delta data]
        /\ topicToSockets s !! "dashboard:global" = Some set /\ id ∈ set)
  \/ (exists snapshot js,
        l = RunJob /\ jobs s = SendSnapshot id snapshot :: js
        /\ sent ws' = sent ws ++ [agg_snapshot snapshot]).
Proof.
  intros Hw. unfold step, when_idle.
  destruct l;
    try (destruct (jobs s) as [|j js] eqn:Hj; [|rewrite Hw; intros [= <-]; by left]);
    try (rewrite Hw; intros [= <-]; by left).
  - (* Connection *)
    destruct (sockets s !! id0) eqn:Ew; [rewrite Hw; intros [= <-]; by left|].
    unfold on_connection.
    destruct (authWsFromReq env req now); server_simpl;
      (rewrite lookup_insert_ne by congruence); rewrite Hw; intros [= <-]; by left.
  - (* Message *)
    destruct (sockets s !! id0) as [ws0|] eqn:Ew; [|rewrite Hw; intros [= <-]; by left].
    destruct (handlers ws0 && bool_decide (readyState ws0 = OPEN) && fresh tid s);
      [|rewrite Hw; intros [= <-]; by left].
    unfold on_message.
    repeat (match goal with
            | |- context [match ?x with _ => _ end] => destruct x eqn:?
            end; try (rewrite Hw; intros [= <-]; by left));
      rewrite ?handleEvents_sockets; try (server_simpl; rewrite Hw; intros [= <-]; by left).
    unfold subscribe. server_simpl. rewrite lookup_alter. case_decide.
    + subst. rewrite Hw. intros [= <-]. by left.
    + rewrite Hw. intros [= <-]. by left.
  - (* Closing *)
    destruct (sockets s !! id0) as [ws0|] eqn:Ew; [|rewrite Hw; intros [= <-]; by left].
    case_decide; [|rewrite Hw; intros [= <-]; by left].
    server_simpl. rewrite lookup_insert. case_decide.
    + subst. rewrite Hw in Ew. injection Ew as <-. intros [= <-]. by left.
    + rewrite Hw. intros [= <-]. by left.
  - (* Close *)
    destruct (sockets s !! id0) as [ws0|] eqn:Ew; [|rewrite Hw; intros [= <-]; by left].
    case_decide; [rewrite Hw; intros [= <-]; by left|].
    unfold on_close, unsubscribe_all. destruct (handlers ws0); server_simpl;
      rewrite lookup_insert; (case_decide;
        [subst; rewrite Hw in Ew; injection Ew as <-; intros [= <-]; by left
        |rewrite Hw; intros [= <-]; by left]).
  - (* Buffered *)
    server_simpl. rewrite lookup_alter. case_decide.
    + subst. rewrite Hw. intros [= <-]. by left.
    + rewrite Hw. intros [= <-]. by left.
  - (* GetToken *)
    destruct (fresh rid s); server_simpl; rewrite Hw; intros [= <-]; by left.
  - (* PostIngest *)
    destruct (fresh rid s); [|rewrite Hw; intros [= <-]; by left].
    unfold post_ingest, ingest_handler.
    repeat (match goal with
            | |- context [match ?x with _ => _ end] => destruct x eqn:?
            end; try (rewrite Hw; intros [= <-]; by left));
      rewrite ?handleEvents_sockets; server_simpl; rewrite Hw; intros [= <-]; by left.
  - (* InsertDone *)
    unfold insert_done.
    destruct (tasks s !! tid) as [[events from|]|];
      try (rewrite Hw; intros [= <-]; by left).
    unfold WINDOW_SIZES. rewrite handleEvents_windows_cons.
    destruct ok; server_simpl; rewrite Hw; intros [= <-]; by left.
  - (* UpsertDone *)
    unfold upsert_done.
    destruct (tasks s !! tid) as [[|events now deltas w rest from]|];
      try (rewrite Hw; intros [= <-]; by left).
    destruct ok; [|server_simpl; rewrite Hw; intros [= <-]; by left].
    intros Hb.
    match type of Hb with sockets (handleEvents_windows _ _ _ _ _ _ ?s0) !! _ = _ =>
      destruct (handleEvents_windows_sent tid events now deltas rest from s0 id ws ws' Hw Hb)
        as [?|(? & _ & set & ? & ?)] end; [by left|].
    right; left. by exists tid, deltas, set.
  - (* Interval *)
    server_simpl. rewrite Hw. intros [= <-]. by left.
  - (* RunJob *)
    destruct (jobs s) as [|j js] eqn:Hj; [rewrite Hw; intros [= <-]; by left|].
    destruct j as [id0 snapshot|rid n]; cbn [run_job]; server_simpl;
      [|rewrite Hw; intros [= <-]; by left].
    rewrite lookup_alter. case_decide; [|rewrite Hw; intros [= <-]; by left].
    subst id0. rewrite Hw. cbn. intros [= <-]. rewrite ws_send_sent.
    case_decide; [|by left]. right; right. by exists snapshot, js.
Qed.

(** The turn that handles a subscribe frame. *)
Lemma subscribe_turn (s : server) (id : nat) (ws : socket) (data : ws_data)
    (tid : nat) (now : Z) (msg : list (string * json)) (topic : string) :
  sockets s !! id = Some ws ->
  handlers ws = true -> readyState ws = OPEN -> fresh tid s = true ->
  isBinary data = false -> text_length data <= MAX_MSG_BYTES ->
  parsed data = Some (JObj msg) ->
  JsMap.get "type" msg = Some (JStr "subscribe") ->
  JsMap.get "topic" msg = Some (JStr topic) ->
  step (Message id data tid now) s
  = with_jobs (jobs s ++ [SendSnapshot id (latestAggregatesSnapshot (memoryWindows s) now)])
              (subscribe id topic s).
Proof.
  intros Hw Hh Hr Hf Hb Hl Hp Hty Hto.
  rewrite (step_Message env MAX_MSG_BYTES s id ws) by done.
  by rewrite (on_message_subscribe MAX_MSG_BYTES s id data tid now msg topic).
Qed.

(** C4. In every state the process can reach, under every interleaving of
    connections, frames, HTTP requests, database replies, timers and promise
    continuations: (1) what a socket has been sent is empty or starts with a
    snapshot, so no delta precedes the first snapshot; (2) a turn of the
    event loop sends a socket nothing, or one [agg_delta] by the broadcast
    to the global topic the socket is registered under, or the one
    [agg_snapshot] of the subscribe continuation at the head of the job
    queue; (3) whenever a callback can start (the job queue is empty) a
    registered socket that is open has been sent a frame already; (4) the
    turn that handles a subscribe frame registers the socket, sends nothing
    and puts the continuation that sends the snapshot into the job queue;
    (5) while a job waits no turn sends a delta; (6) the continuation, once
    at the head of the queue with the socket open, sends the snapshot. *)
Theorem snapshot_before_delta (s : server) (id : nat) (ws : socket) :
  reachable s ->
  sockets s !! id = Some ws ->
  snapshot_first (sent ws)
  /\ (forall l ws',
        sockets (step l s) !! id = Some ws' ->
        sent ws' = sent ws
        \/ (exists tid data set,
              l = UpsertDone tid true /\ jobs s = []
              /\ sent ws' = sent ws ++ [agg_delta data]
              /\ topicToSockets s !! "dashboard:global" = Some set /\ id ∈ set)
        \/ (exists snapshot js,
              l = RunJob /\ jobs s = SendSnapshot id snapshot :: js
              /\ sent ws' = sent ws ++ [agg_snapshot snapshot]))
  /\ (forall topic set,
        topicToSockets s !! topic = Some set -> id ∈ set -> jobs s = [] ->
        readyState ws = OPEN -> sent ws <> [])
  /\ (forall data tid now msg topic,
        handlers ws = true -> readyState ws = OPEN -> fresh tid s = true ->
        isBinary data = false -> text_length data <= MAX_MSG_BYTES ->
        parsed data = Some (JObj msg) ->
        JsMap.get "type" msg = Some (JStr "subscribe") ->
        JsMap.get "topic" msg = Some (JStr topic) ->
        let s1 := step (Message id data tid now) s in
        jobs s1
        = jobs s ++ [SendSnapshot id (latestAggregatesSnapshot (memoryWindows s) now)]
        /\ sent <$> sockets s1 !! id = Some (sent ws)
        /\ exists set, topicToSockets s1 !! topic = Some set /\ id ∈ set)
  /\ (forall l ws' data,
        jobs s <> [] -> sockets (step l s) !! id = Some ws' ->
        sent ws' <> sent ws ++ [agg_delta data])
  /\ (forall snapshot js,
        jobs s = SendSnapshot id snapshot :: js -> readyState ws = OPEN ->
        sent <$> sockets (step RunJob s) !! id
        = Some (sent ws ++ [agg_snapshot snapshot])).
Proof.
  intros Hs Hw. destruct (reachable_sockets_ok env MAX_MSG_BYTES s Hs) as (H1 & H2 & _).
  split; [by apply (H1 id ws)|]. split; [|split; [|split; [|split]]].
  - intros l ws'. by apply step_sent.
  - intros topic set Hl Hin Hj Ho. destruct (H2 topic set id Hl Hin) as (w & Hw' & _ & Hc).
    rewrite Hw in Hw'. injection Hw' as <-.
    destruct Hc as [?|[?|Hp]]; [done | done |].
    rewrite Hj in Hp. by apply snapshot_pending_nil in Hp.
  - intros data tid now msg topic Hh Hr Hf Hb Hl Hp Hty Hto s1.
    subst s1. rewrite (subscribe_turn s id ws data tid now msg topic) by done.
    unfold subscribe. server_simpl. split; [done|]. split.
    + by rewrite lookup_alter_eq, Hw.
    + eexists. rewrite lookup_insert_eq. split; [done|].
      apply elem_of_union. right. by apply elem_of_singleton.
  - intros l ws' data Hj Hl E.
    destruct (step_sent l s id ws ws' Hw Hl)
      as [E'|[(? & ? & ? & _ & Hj' & _)|(snap & js & _ & _ & E')]].
    + rewrite E' in E. rewrite <- (app_nil_r (sent ws)) in E at 1.
      by apply app_inv_head in E.
    + done.
    + rewrite E' in E. by apply app_inv_head in E.
  - intros snapshot js Hj Ho.
    rewrite (step_RunJob env MAX_MSG_BYTES s (SendSnapshot id snapshot) js) by done.
    cbn [run_job]. server_simpl. rewrite lookup_alter_eq, Hw. cbn.
    by rewrite ws_send_sent, decide_True.
Qed.
End SnapshotFirst.

Lemma snapshot_before_delta_witness :
  let dashboard := dashboard_request "change_me.dashboard" in
  let post := bearer_request "change_me.u1" (Some (JArr [event_json sample_uuid "/" "view"])) in
  let s := run (P:=stub) ∅ 32768 (PostIngest 2 post t0 :: ingestion 2 true t0 ++ [RunJob])
               (with_dashboard (P:=stub) ∅ 32768 dashboard) in
  let ws := mkSocket OPEN 0 (Some "dashboard") {["dashboard:global"]} true
              [agg_snapshot (latestAggregatesSnapshot ∅ t0);
               agg_delta [("1s", one_view); ("5s", one_view); ("60s", one_view)]]
              None in
  reachable (P:=stub) ∅ 32768 s
  /\ sockets s !! 0%nat = Some ws
  /\ snapshot_first (sent ws).
Proof.
  intros dashboard post s ws.
  assert (reachable (P:=stub) ∅ 32768 s) as Hs
    by (apply reachable_run, reachable_run, reachable_init).
  assert (sockets s !! 0%nat = Some ws) as Hw by (vm_compute; reflexivity).
  split; [exact Hs|]. split; [exact Hw|].
  apply (snapshot_before_delta (P:=stub) ∅ 32768 s 0 ws Hs Hw).
Defined.
(** ** C3: the bearer credential *)

Lemma authWsFromReq_token_spec (req : request) :
  authWsFromReq_token req = spec_credential req.
Proof.
  unfold authWsFromReq_token, spec_credential, first_of, header_bearer, header_plain,
    query_token. cbn [fold_right].
  destruct (js_or (headers req !! "authorization") (headers req !! "Authorization"))
    as [a|] eqn:Ea.
  - destruct (present (Some a)) as [a'|] eqn:Ep.
    + apply present_nonempty in Ep as [[= <-] Hne].
      destruct (startsWith a "Bearer ").
      * destruct (present (Some (slice 7 a))) as [t|] eqn:Et; [done|].
        destruct (url req) as [| |sp]; rewrite ?Et, ?present_idemp; try done.
        by destruct (present (JsMap.get "token" sp)).
      * by rewrite !present_Some.
    + assert (a = "") as ->.
      { unfold present, js_or in Ep. destruct (truthy_str a) eqn:E; [done|].
        unfold truthy_str in E. by destruct (String.eqb_spec a ""). }
      cbn. destruct (url req) as [| |sp]; rewrite ?present_idemp; try done.
      by destruct (present (JsMap.get "token" sp)).
  - cbn. destruct (url req) as [| |sp]; rewrite ?present_idemp; try done.
    by destruct (present (JsMap.get "token" sp)).
Qed.

Lemma authHttp_token_bearer (req : request) :
  authHttp_token req
  = match headers req !! "authorization" with
    | Some a => if startsWith a "Bearer " then present (Some (slice 7 a)) else None
    | None => None
    end.
Proof.
  unfold authHttp_token, js_or. destruct (headers req !! "authorization") as [a|]; [|done].
  destruct (truthy_str a) eqn:E.
  - change (default "" (Some a)) with a. by destruct (startsWith a "Bearer ").
  - unfold truthy_str in E. destruct (String.eqb_spec a ""); [by subst|done].
Qed.

(** The request transport does not follow the resolution order of the
    specification: a token given as the bare value of the [Authorization]
    header and in the [token] query parameter is a credential by that order
    and on the streaming transport, and a missing token to [authHttp], which
    answers 401. *)
Lemma request_transport_bearer_only :
  let req := mkRequest {["authorization" := "change_me.u1"]}
                       (Url [("token", "change_me.u1")]) None in
  spec_credential req = Some "change_me.u1"
  /\ authWsFromReq (P:=stub) ∅ req t0 = Some (mkClaims (Some "u1"))
  /\ authHttp_token req = None
  /\ authHttp (P:=stub) ∅ req t0 = inl (mkResponse 401 (ErrorBody "missing token"))
  /\ ~ (forall req, authHttp_token req = spec_credential req
                    /\ authWsFromReq_token req = spec_credential req).
Proof.
  intros req. repeat split; try (vm_compute; reflexivity).
  intros H. destruct (H req) as [E _]. vm_compute in E. discriminate E.
Qed.

Section Credentials.
Context {P : Platform} (env : gmap string string) (MAX_MSG_BYTES : Z).

Local Abbreviation step := (step env MAX_MSG_BYTES).
Local Abbreviation reachable := (reachable env MAX_MSG_BYTES).

(** C3, amended. On the streaming transport the bearer credential is
    resolved in the order of the specification: the [Authorization] header
    with the "Bearer " prefix, then the header value as it is, then the
    [token] query parameter.  On the request transport it is the
    [Authorization] header with the "Bearer " prefix and nothing else.  A
    credential that is absent or that [jwt.verify] rejects gives, on the
    request transport, a 401 with a JSON error and, on the streaming
    transport, a null identity: the connection handler closes the socket with
    code 1008 and attaches no listener, and in every reachable state such a
    socket holds no subscription, is registered under no topic, has been
    sent nothing, and its messages are not handled. *)
Theorem credential_resolution (req : request) (now : Z) :
  authWsFromReq_token req = spec_credential req
  /\ authHttp_token req
     = match headers req !! "authorization" with
       | Some a => if startsWith a "Bearer " then present (Some (slice 7 a)) else None
       | None => None
       end
  /\ (match authHttp_token req with
      | Some t => jwt_verify t (JWT_SECRET env) now = None
      | None => True
      end ->
      exists error, authHttp env req now = inl (mkResponse 401 (ErrorBody error)))
  /\ (match authWsFromReq_token req with
      | Some t => jwt_verify t (JWT_SECRET env) now = None
      | None => True
      end ->
      authWsFromReq env req now = None
      /\ forall s id, jobs s = [] -> sockets s !! id = None ->
           step (Connection id req now) s
           = with_sockets (<[id := refused_socket]> (sockets s)) s)
  /\ (forall s id ws,
        reachable s -> sockets s !! id = Some ws -> handlers ws = false ->
        closeCode ws = Some 1008 /\ readyState ws <> OPEN
        /\ subscriptions ws = ∅ /\ sent ws = []
        /\ (forall topic set, topicToSockets s !! topic = Some set -> id ∉ set)
        /\ (forall data tid now', step (Message id data tid now') s = s)).
Proof.
  split; [apply authWsFromReq_token_spec|]. split; [apply authHttp_token_bearer|].
  split; [|split].
  - unfold authHttp. destruct (authHttp_token req) as [t|]; [intros ->|]; eauto.
  - intros Hnull.
    assert (authWsFromReq env req now = None) as Hn.
    { unfold authWsFromReq. by destruct (authWsFromReq_token req). }
    split; [exact Hn|]. intros s id Hj Hs.
    rewrite step_Connection by done. unfold on_connection. by rewrite Hn.
  - intros s id ws Hs Hw Hh.
    destruct (reachable_sockets_ok env MAX_MSG_BYTES s Hs) as (_ & H2 & H3).
    destruct (H3 id ws Hw Hh) as (? & ? & ? & ?).
    repeat (split; [done|]). split.
    + intros topic set Hl Hin. destruct (H2 topic set id Hl Hin) as (w & Hw' & Hh' & _).
      congruence.
    + intros data tid now'. unfold step. by rewrite Hw, Hh.
Qed.
End Credentials.

(** ** C10: the default secret *)

Lemma prefix_append (s t : string) : String.prefix s (s +:+ t) = true.
Proof.
  induction s as [|c s IH]; simpl; [by destruct t|].
  by destruct (ascii_dec c c).
Qed.

Lemma prefix_append_assoc (s t u : string) : String.prefix (s +:+ t) (s +:+ t +:+ u) = true.
Proof.
  induction s as [|c s IH].
  - change (String.prefix t (t +:+ u) = true). apply prefix_append.
  - simpl. by destruct (ascii_dec c c).
Qed.

Lemma slice_append (s t : string) : slice (String.length s) (s +:+ t) = t.
Proof. induction s as [|c s IH]; simpl; [by destruct t | exact IH]. Qed.

Lemma slice_append_dot (s t : string) :
  slice (S (String.length s)) (s +:+ "." +:+ t) = t.
Proof. induction s as [|c s IH]; simpl; [by destruct t | exact IH]. Qed.

(** The stand-in keeps the contract of the library. *)
#[global] Instance stub_laws : PlatformLaws stub.
Proof.
  split.
  - intros secret now. cbn. unfold stub_verify, startsWith. by destruct secret.
  - intros who secret now ttl now' _. cbn. unfold stub_verify, stub_sign, startsWith.
    by rewrite prefix_append_assoc, slice_append_dot.
Qed.

Section DefaultSecret.
Context {P : Platform} {L : PlatformLaws P} (env : gmap string string) (MAX_MSG_BYTES : Z).

Local Abbreviation step := (step env MAX_MSG_BYTES).

Lemma signed_nonempty (who secret : string) (now ttl now' : Z) :
  now' / 1000 < now / 1000 + ttl -> jwt_sign who secret now ttl <> "".
Proof.
  intros Ht E. pose proof (jwt_verify_sign who secret now ttl now' Ht) as Hv.
  rewrite E, jwt_verify_empty in Hv. discriminate Hv.
Qed.

Lemma js_or_truthy (s : string) (b : option string) :
  truthy_str s = true -> js_or (Some s) b = Some s.
Proof. intros H. unfold js_or. by rewrite H. Qed.

Lemma bearer_prefix (token : string) :
  truthy_str ("Bearer " +:+ token) = true
  /\ startsWith ("Bearer " +:+ token) "Bearer " = true
  /\ slice 7 ("Bearer " +:+ token) = token.
Proof. repeat split. unfold startsWith. cbn. by destruct token. Qed.

Lemma bearer_request_token (token : string) (payload : option json) :
  token <> "" ->
  authHttp_token (bearer_request token payload) = Some token
  /\ authWsFromReq_token (bearer_request token payload) = Some token.
Proof.
  intros Hne. destruct (bearer_prefix token) as (Ht & Hp & Hs).
  unfold authHttp_token, authWsFromReq_token, bearer_request.
  cbn [headers url]. rewrite lookup_singleton_eq, !js_or_truthy by done.
  change (default "" (Some ("Bearer " +:+ token))) with ("Bearer " +:+ token).
  rewrite (present_Some _ (proj1 (truthy_str_true _) Ht)), Hp, Hs.
  by rewrite !present_Some.
Qed.

Lemma dashboard_request_token (token : string) :
  token <> "" -> authWsFromReq_token (dashboard_request token) = Some token.
Proof.
  intros Hne. unfold authWsFromReq_token, dashboard_request. cbn [headers url].
  rewrite !lookup_empty. change (js_or None None) with (@None string).
  change (present None) with (@None string). cbn [JsMap.get].
  rewrite String.eqb_refl. change (present None) with (@None string).
  cbv iota. by rewrite present_Some.
Qed.

(** C10. Without [JWT_SECRET] in the environment the secret is the literal
    'change_me': [GET /token] signs with it, [authHttp] and [authWsFromReq]
    verify against it, and so every token signed with 'change_me' whose
    expiry is ahead of the clock authenticates: as a bearer token on the
    request transport, and in the [Authorization] header or the [token]
    query parameter on the streaming transport, where the connection is
    accepted. *)
Theorem default_secret :
  env !! "JWT_SECRET" = None ->
  JWT_SECRET env = "change_me"
  /\ (forall req now, exists who,
        token_handler env req now
        = mkResponse 200 (Token (jwt_sign who "change_me" now (12 * 3600))))
  /\ (forall req now,
        authHttp env req now
        = match authHttp_token req with
          | None => inl (mkResponse 401 (ErrorBody "missing token"))
          | Some token =>
              match jwt_verify token "change_me" now with
              | Some decoded => inr decoded
              | None => inl (mkResponse 401 (ErrorBody "invalid token"))
              end
          end)
  /\ (forall req now,
        authWsFromReq env req now
        = match authWsFromReq_token req with
          | None => None
          | Some token => jwt_verify token "change_me" now
          end)
  /\ (forall who now ttl now' payload,
        now' / 1000 < now / 1000 + ttl ->
        let token := jwt_sign who "change_me" now ttl in
        authHttp env (bearer_request token payload) now' = inr (mkClaims (Some who))
        /\ authWsFromReq env (bearer_request token payload) now'
           = Some (mkClaims (Some who))
        /\ authWsFromReq env (dashboard_request token) now' = Some (mkClaims (Some who))
        /\ forall s id, jobs s = [] -> sockets s !! id = None ->
             step (Connection id (dashboard_request token) now') s
             = with_sockets (<[id := accepted_socket (mkClaims (Some who))]> (sockets s)) s).
Proof.
  intros Henv.
  assert (JWT_SECRET env = "change_me") as Hsecret.
  { unfold JWT_SECRET. by rewrite Henv. }
  split; [exact Hsecret|]. split; [|split; [|split]].
  - intros req now. unfold token_handler. rewrite Hsecret. eauto.
  - intros req now. unfold authHttp. by rewrite Hsecret.
  - intros req now. unfold authWsFromReq. by rewrite Hsecret.
  - intros who now ttl now' payload Ht token.
    pose proof (signed_nonempty who "change_me" now ttl now' Ht) as Hne. fold token in Hne.
    pose proof (jwt_verify_sign who "change_me" now ttl now' Ht) as Hv. fold token in Hv.
    destruct (bearer_request_token token payload Hne) as [Hh Hw].
    pose proof (dashboard_request_token token Hne) as Hd.
    assert (authWsFromReq env (dashboard_request token) now' = Some (mkClaims (Some who)))
      as Hdash by (unfold authWsFromReq; by rewrite Hd, Hsecret).
    split; [unfold authHttp; by rewrite Hh, Hsecret, Hv|].
    split; [unfold authWsFromReq; by rewrite Hw, Hsecret|].
    split; [exact Hdash|].
    intros s id Hj Hs. rewrite step_Connection by done.
    unfold on_connection. by rewrite Hdash.
Qed.
End DefaultSecret.

Lemma default_secret_witness :
  (∅ : gmap string string) !! "JWT_SECRET" = None
  /\ JWT_SECRET ∅ = "change_me"
  /\ authHttp (P:=stub) ∅
       (bearer_request (jwt_sign (Platform:=stub) "u1" "change_me" t0 43200) None)
       (t0 + 1000)
     = inr (mkClaims (Some "u1")).
Proof.
  assert ((∅ : gmap string string) !! "JWT_SECRET" = None) as Henv by reflexivity.
  destruct (default_secret (P:=stub) ∅ 32768 Henv) as (Hs & _ & _ & _ & Hauth).
  split; [exact Henv|]. split; [exact Hs|].
  apply (Hauth "u1" t0 43200 (t0 + 1000) None). vm_compute. reflexivity.
Defined.

(** * Further properties *)

(** ** The shape of an accepted [eventId] *)

Lemma eat_hex_spec (n : nat) (s r : list ascii) :
  Joi.eat_hex n s = Some r ->
  exists h, s = h ++ r /\ length h = n /\ List.filter Joi.is_hex h = h.
Proof.
  revert s. induction n as [|n IH]; intros s H; simpl in H.
  - exists []. by inversion H.
  - destruct s as [|c s]; [done|]. destruct (Joi.is_hex c) eqn:Hc; [|done].
    destruct (IH s H) as (h & -> & Hl & Hf). exists (c :: h).
    split; [done|]. split; [simpl; lia|]. simpl. by rewrite Hc, Hf.
Qed.

Lemma eat_spec (p : ascii -> bool) (s r : list ascii) :
  Joi.eat p s = Some r -> exists c, s = c :: r /\ p c = true.
Proof.
  destruct s as [|c s]; [done|]. simpl. destruct (p c) eqn:Hp; [|done].
  intros [= <-]. by exists c.
Qed.

Lemma eat_opt_spec (p : ascii -> bool) (s r : list ascii) (o : option ascii) :
  Joi.eat_opt p s = (o, r) ->
  (o = None /\ s = r) \/ (exists c, o = Some c /\ s = c :: r /\ p c = true).
Proof.
  destruct s as [|c s]; simpl.
  - intros [= <- <-]. by left.
  - destruct (p c) eqn:Hp; intros [= <- <-]; [right; by exists c | by left].
Qed.

Lemma eat_same_spec (sep : option ascii) (s : list ascii) :
  Joi.eat_same sep s = s \/ exists c, sep = Some c /\ s = c :: Joi.eat_same sep s.
Proof.
  destruct sep as [c|], s as [|c' s]; simpl; try by left.
  destruct (Ascii.eqb c c') eqn:E; [|by left].
  apply Ascii.eqb_eq in E as ->. right. by exists c'.
Qed.

Lemma one_of_not_hex (cs : string) (c : ascii) :
  forallb (fun x => negb (Joi.is_hex x)) (list_ascii_of_string cs) = true ->
  Joi.one_of cs c = true -> Joi.is_hex c = false.
Proof.
  unfold Joi.one_of. induction (list_ascii_of_string cs) as [|x l IH]; simpl; [done|].
  intros [Hx Hl]%andb_true_iff [E|Hc]%orb_true_iff; [|by apply IH].
  apply Ascii.eqb_eq in E as ->. by apply negb_true_iff.
Qed.

Lemma one_of_hex (cs : string) (c : ascii) :
  forallb Joi.is_hex (list_ascii_of_string cs) = true ->
  Joi.one_of cs c = true -> Joi.is_hex c = true.
Proof.
  unfold Joi.one_of. induction (list_ascii_of_string cs) as [|x l IH]; simpl; [done|].
  intros [Hx Hl]%andb_true_iff [E|Hc]%orb_true_iff; [|by apply IH].
  by apply Ascii.eqb_eq in E as ->.
Qed.

Lemma string_length_list (s : string) :
  String.length s = length (list_ascii_of_string s).
Proof. induction s; simpl; congruence. Qed.

Lemma eat_opt_pad (cs : string) (s r : list ascii) (o : option ascii) :
  forallb (fun x => negb (Joi.is_hex x)) (list_ascii_of_string cs) = true ->
  Joi.eat_opt (Joi.one_of cs) s = (o, r) ->
  (forall c, o = Some c -> Joi.is_hex c = false)
  /\ exists pad, s = pad ++ r /\ (length pad <= 1)%nat /\ List.filter Joi.is_hex pad = [].
Proof.
  intros Hcs [[-> ->]|(c & -> & -> & Hc)]%eat_opt_spec.
  - split; [done|]. exists []. simpl. split; [done|]. split; [lia|done].
  - pose proof (one_of_not_hex cs c Hcs Hc) as Hn.
    split; [by intros ? [= <-]|]. exists [c]. simpl. rewrite Hn. split; [done|]. split; [lia|done].
Qed.

Lemma eat_same_pad (sep : option ascii) (s : list ascii) :
  (forall c, sep = Some c -> Joi.is_hex c = false) ->
  exists pad, s = pad ++ Joi.eat_same sep s /\ (length pad <= 1)%nat
              /\ List.filter Joi.is_hex pad = [].
Proof.
  intros Hsep. destruct (eat_same_spec sep s) as [E|(c & -> & E)].
  - exists []. simpl. split; [done|]. split; [lia|done].
  - exists [c]. simpl. rewrite (Hsep c eq_refl). split; [done|]. split; [lia|done].
Qed.

(** X3. An [eventId] the schema accepts has exactly 32 hexadecimal digits,
    of which the 13th is 4, the version, and the 17th is 8, 9, a or b in
    either case, the variant; with the optional brackets and separators it
    is 32 to 38 characters long. *)
Theorem accepted_id_shape (id : string) :
  Joi.guid_uuidv4 id = true ->
  length (hex_digits id) = 32%nat
  /\ hex_digits id !! 12%nat = Some "4"%char
  /\ (exists v, hex_digits id !! 16%nat = Some v /\ Joi.one_of "89ABab" v = true)
  /\ (32 <= String.length id <= 38)%nat.
Proof.
  unfold Joi.guid_uuidv4, hex_digits. rewrite string_length_list.
  generalize (list_ascii_of_string id). intros l H.
  destruct (Joi.eat_opt (Joi.one_of "[{(") l) as [o s0] eqn:E0.
  destruct (Joi.eat_hex 8 s0) as [s1|] eqn:E1; [|done]. cbn [mbind option_bind] in H.
  destruct (Joi.eat_opt (Joi.one_of ":-") s1) as [sep s2] eqn:E2.
  destruct (Joi.eat_hex 4 s2) as [s3|] eqn:E3; [|done]. cbn [mbind option_bind] in H.
  destruct (Joi.eat (Joi.one_of "4") (Joi.eat_same sep s3)) as [s4|] eqn:E4; [|done].
  cbn [mbind option_bind] in H.
  destruct (Joi.eat_hex 3 s4) as [s5|] eqn:E5; [|done]. cbn [mbind option_bind] in H.
  destruct (Joi.eat (Joi.one_of "89ABab") (Joi.eat_same sep s5)) as [s6|] eqn:E6; [|done].
  cbn [mbind option_bind] in H.
  destruct (Joi.eat_hex 3 s6) as [s7|] eqn:E7; [|done]. cbn [mbind option_bind] in H.
  destruct (Joi.eat_hex 12 (Joi.eat_same sep s7)) as [s8|] eqn:E8; [|done].
  cbn [mbind option_bind] in H.
  destruct (Joi.eat_opt (Joi.one_of "]})") s8) as [c s9] eqn:E9.
  destruct s9; [|done]. clear H.
  assert (forallb (fun x => negb (Joi.is_hex x)) (list_ascii_of_string "[{(") = true) as N0
    by reflexivity.
  assert (forallb (fun x => negb (Joi.is_hex x)) (list_ascii_of_string ":-") = true) as N1
    by reflexivity.
  assert (forallb (fun x => negb (Joi.is_hex x)) (list_ascii_of_string "]})") = true) as N2
    by reflexivity.
  destruct (eat_opt_pad _ _ _ _ N0 E0) as (_ & p0 & -> & L0 & F0).
  destruct (eat_hex_spec _ _ _ E1) as (h8 & -> & L8 & F8).
  destruct (eat_opt_pad _ _ _ _ N1 E2) as (Hsep & p1 & -> & L1 & F1).
  destruct (eat_hex_spec _ _ _ E3) as (h4 & -> & L4 & F4).
  destruct (eat_same_pad sep s3 Hsep) as (p2 & -> & L2 & F2).
  destruct (eat_spec _ _ _ E4) as (c4 & -> & C4).
  destruct (eat_hex_spec _ _ _ E5) as (h3 & -> & L3 & F3).
  destruct (eat_same_pad sep s5 Hsep) as (p3 & -> & L3' & F3').
  destruct (eat_spec _ _ _ E6) as (cv & -> & Cv).
  destruct (eat_hex_spec _ _ _ E7) as (k3 & -> & K3 & G3).
  destruct (eat_same_pad sep s7 Hsep) as (p4 & -> & L4' & F4').
  destruct (eat_hex_spec _ _ _ E8) as (h12 & -> & L12 & F12).
  destruct (eat_opt_pad _ _ _ _ N2 E9) as (_ & p5 & -> & L5 & F5).
  assert (c4 = "4"%char) as ->.
  { unfold Joi.one_of in C4. simpl in C4. rewrite orb_false_r in C4.
    by apply Ascii.eqb_eq in C4. }
  assert (Joi.is_hex cv = true) as Hv by (by apply (one_of_hex "89ABab")).
  repeat (rewrite ?List.filter_app; cbn [List.filter]).
  rewrite F0, F8, F1, F4, F2, F3, F3', G3, F4', F12, F5, Hv.
  change (Joi.is_hex "4") with true. cbn [app].
  rewrite app_nil_r.
  split; [|split; [|split]].
  - repeat (rewrite ?length_app; cbn [length]). lia.
  - rewrite lookup_app_r by lia. rewrite L8. cbn [Nat.sub].
    rewrite lookup_app_r by lia. rewrite L4. by cbn.
  - exists cv. split; [|done].
    rewrite lookup_app_r by lia. rewrite L8. cbn [Nat.sub].
    rewrite lookup_app_r by lia. rewrite L4. cbn [Nat.sub].
    rewrite lookup_cons_ne_0 by lia. cbn [Nat.pred].
    rewrite lookup_app_r by lia. rewrite L3. by cbn.
  - repeat (rewrite ?length_app; cbn [length]). lia.
Qed.

Lemma accepted_id_shape_witness :
  Joi.guid_uuidv4 sample_uuid = true
  /\ length (hex_digits sample_uuid) = 32%nat
  /\ hex_digits sample_uuid !! 12%nat = Some "4"%char.
Proof.
  assert (Joi.guid_uuidv4 sample_uuid = true) as H by (vm_compute; reflexivity).
  split; [exact H|].
  destruct (accepted_id_shape sample_uuid H) as (H1 & H2 & _). by split.
Defined.

Lemma eat_hex_app (n : nat) (h r : list ascii) :
  length h = n -> forallb Joi.is_hex h = true -> Joi.eat_hex n (h ++ r) = Some r.
Proof.
  intros <-. induction h as [|c h IH]; simpl; [done|].
  intros [-> Hh]%andb_true_iff. by apply IH.
Qed.

Lemma hex_not_one_of (cs : string) (c : ascii) :
  forallb (fun x => negb (Joi.is_hex x)) (list_ascii_of_string cs) = true ->
  Joi.is_hex c = true -> Joi.one_of cs c = false.
Proof.
  intros Hcs Hc. destruct (Joi.one_of cs c) eqn:E; [|done].
  rewrite (one_of_not_hex cs c Hcs E) in Hc. done.
Qed.

(** X4. Every text in the canonical layout 8-4-4-4-12 of hexadecimal digits,
    in either case, with the version digit 4 and a variant digit 8, 9, a or
    b is accepted as [eventId]: the ids the client takes from
    [crypto.randomUUID()] pass. *)
Theorem canonical_uuid_accepted (a b c d e : list ascii) (variant : ascii) :
  length a = 8%nat -> length b = 4%nat -> length c = 3%nat -> length d = 3%nat ->
  length e = 12%nat ->
  forallb Joi.is_hex (a ++ b ++ c ++ d ++ e) = true ->
  Joi.one_of "89ABab" variant = true ->
  Joi.guid_uuidv4 (uuid_text a b c d e variant) = true.
Proof.
  intros La Lb Lc Ld Le Hhex Hv.
  rewrite !forallb_app in Hhex.
  apply andb_true_iff in Hhex as [Ha Hhex]. apply andb_true_iff in Hhex as [Hb Hhex].
  apply andb_true_iff in Hhex as [Hc Hhex]. apply andb_true_iff in Hhex as [Hd He].
  unfold Joi.guid_uuidv4, uuid_text. rewrite list_ascii_of_string_of_list_ascii.
  destruct a as [|a0 a]; [done|].
  pose proof Ha as Ha'. simpl in Ha'. apply andb_true_iff in Ha' as [Ha0 _].
  cbn [app Joi.eat_opt].
  rewrite (hex_not_one_of "[{(" a0) by done.
  change (a0 :: a ++ ?r) with ((a0 :: a) ++ r).
  rewrite (eat_hex_app 8 (a0 :: a)) by done.
  cbn [mbind option_bind Joi.eat_opt].
  change (Joi.one_of ":-" "-") with true. cbv iota.
  rewrite (eat_hex_app 4 b) by done. cbn [mbind option_bind Joi.eat_same].
  change (Ascii.eqb "-" "-") with true. cbv iota. cbn [Joi.eat].
  change (Joi.one_of "4" "4") with true. cbv iota. cbn [mbind option_bind].
  rewrite (eat_hex_app 3 c) by done. cbn [mbind option_bind Joi.eat_same].
  change (Ascii.eqb "-" "-") with true. cbv iota. cbn [Joi.eat].
  rewrite Hv. cbn [mbind option_bind].
  rewrite (eat_hex_app 3 d) by done. cbn [mbind option_bind Joi.eat_same].
  change (Ascii.eqb "-" "-") with true. cbv iota.
  rewrite <- (app_nil_r e). rewrite (eat_hex_app 12 e) by done.
  reflexivity.
Qed.

Lemma canonical_uuid_accepted_witness :
  let a := list_ascii_of_string "3f2504e0" in
  let b := list_ascii_of_string "4f89" in
  let c := list_ascii_of_string "1d3" in
  let d := list_ascii_of_string "a0c" in
  let e := list_ascii_of_string "0305e82c3301" in
  forallb Joi.is_hex (a ++ b ++ c ++ d ++ e) = true
  /\ Joi.one_of "89ABab" "9" = true
  /\ uuid_text a b c d e "9" = sample_uuid
  /\ Joi.guid_uuidv4 (uuid_text a b c d e "9") = true.
Proof.
  intros a b c d e.
  assert (forallb Joi.is_hex (a ++ b ++ c ++ d ++ e) = true) as Hh by reflexivity.
  assert (Joi.one_of "89ABab" "9" = true) as Hv by reflexivity.
  split; [exact Hh|]. split; [exact Hv|]. split; [reflexivity|].
  exact (canonical_uuid_accepted a b c d e "9" eq_refl eq_refl eq_refl eq_refl eq_refl Hh Hv).
Defined.

(** ** What validation lets through *)

Lemma jsmap_get_set_eq {V : Type} (k : string) (v : V) (m : list (string * V)) :
  JsMap.get k (JsMap.set k v m) = Some v.
Proof.
  induction m as [|[k' v'] m IH]; simpl.
  - by rewrite String.eqb_refl.
  - destruct (String.eqb k' k) eqn:E; simpl; by rewrite E.
Qed.

Lemma jsmap_get_set_ne {V : Type} (k k' : string) (v : V) (m : list (string * V)) :
  k <> k' -> JsMap.get k' (JsMap.set k v m) = JsMap.get k' m.
Proof.
  intros Hne. induction m as [|[k0 v0] m IH]; simpl.
  - destruct (String.eqb k k') eqn:E; [apply String.eqb_eq in E|]; done.
  - destruct (String.eqb k0 k) eqn:E; simpl; [|by rewrite IH].
    apply String.eqb_eq in E as ->.
    destruct (String.eqb k k') eqn:E'; [apply String.eqb_eq in E'|]; done.
Qed.

Lemma jsmap_keys_set {V : Type} (k k' : string) (v : V) (m : list (string * V)) :
  k' ∈ JsMap.keys (JsMap.set k v m) <-> k' = k \/ k' ∈ JsMap.keys m.
Proof.
  unfold JsMap.keys. induction m as [|[k0 v0] m IH]; simpl.
  - rewrite list_elem_of_singleton, elem_of_nil. tauto.
  - destruct (String.eqb k0 k) eqn:E; simpl.
    + apply String.eqb_eq in E as ->. rewrite !elem_of_cons. tauto.
    + rewrite !elem_of_cons, IH. tauto.
Qed.

Lemma jsmap_get_keys {V : Type} (k : string) (m : list (string * V)) :
  JsMap.get k m = None <-> k ∉ JsMap.keys m.
Proof.
  unfold JsMap.keys. induction m as [|[k0 v0] m IH]; simpl.
  - split; [intros _; apply not_elem_of_nil | done].
  - rewrite not_elem_of_cons. destruct (String.eqb k0 k) eqn:E.
    + apply String.eqb_eq in E as ->. split; [done | by intros [? _]].
    + apply String.eqb_neq in E. rewrite IH. split; [by intros ?; split | by intros [_ ?]].
Qed.

Lemma withDefaults_fold_keys (props o : list (string * json)) (k : string) :
  k ∈ JsMap.keys (fold_left (fun o kv => JsMap.set (fst kv) (snd kv) o) props o)
  <-> k ∈ JsMap.keys props \/ k ∈ JsMap.keys o.
Proof.
  revert o. induction props as [|[k0 v0] props IH]; intros o; simpl.
  - unfold JsMap.keys at 1. simpl. rewrite elem_of_nil. tauto.
  - rewrite IH, jsmap_keys_set. unfold JsMap.keys at 3. simpl. rewrite elem_of_cons. tauto.
Qed.

Lemma withDefaults_fold_get (props o : list (string * json)) (k : string) :
  k ∉ JsMap.keys props ->
  JsMap.get k (fold_left (fun o kv => JsMap.set (fst kv) (snd kv) o) props o)
  = JsMap.get k o.
Proof.
  revert o. induction props as [|[k0 v0] props IH]; intros o; simpl; [done|].
  unfold JsMap.keys. simpl. rewrite not_elem_of_cons. intros [Hne Hk].
  rewrite IH by done. by apply jsmap_get_set_ne.
Qed.

Lemma schema_keys_forallb (o : list (string * json)) :
  forallb (fun kv => bool_decide (fst kv ∈ eventSchema_keys)) o = true
  <-> forall k, k ∈ JsMap.keys o -> k ∈ eventSchema_keys.
Proof.
  unfold JsMap.keys. induction o as [|[k v] o IH]; simpl.
  - split; [|done]. intros _ k Hk. by apply elem_of_nil in Hk.
  - rewrite andb_true_iff, IH, bool_decide_eq_true. split.
    + intros [Hk Ho] k' [->|Hk']%elem_of_cons; auto.
    + intros H. split; [apply H; by left|]. intros k' Hk'. apply H. by right.
Qed.

Lemma string_required_spec (allow_empty : bool) (v : option json) (s : string) :
  Joi.string_required allow_empty v = Some s ->
  v = Some (JStr s) /\ (allow_empty = false -> s <> "").
Proof.
  destruct v as [[]|]; simpl; try done.
  destruct allow_empty; simpl.
  - by intros [= ->].
  - destruct (truthy_str s0) eqn:E; [|done]. intros [= ->].
    split; [done|]. intros _. by apply truthy_str_true.
Qed.

Lemma integer_min0_spec (q : Q) (n : Z) :
  Joi.integer_min0 q = Some n -> 0 <= n <= 2 ^ 53 - 1 /\ (q == inject_Z n)%Q.
Proof.
  unfold Joi.integer_min0.
  destruct (Qnum q mod Z.pos (Qden q) =? 0) eqn:Hm; [|done].
  destruct (0 <=? Qnum q / Z.pos (Qden q)) eqn:H0; [|done].
  destruct (Qnum q / Z.pos (Qden q) <=? 2 ^ 53 - 1) eqn:H1; [|done].
  simpl. intros [= <-]. split; [lia|].
  unfold Qeq, inject_Z. simpl. apply Z.eqb_eq in Hm.
  pose proof (Z.div_mod (Qnum q) (Z.pos (Qden q)) ltac:(lia)). nia.
Qed.

Section ValidationFacts.
Context {P : Platform}.

Lemma validated_spec (o : list (string * json)) (ev : event) :
  eventSchema_validate o = Some ev ->
  (forall k, k ∈ JsMap.keys o -> k ∈ eventSchema_keys)
  /\ Joi.guid_required (JsMap.get "eventId" o) = Some (eventId ev)
  /\ Joi.number_required (JsMap.get "ts" o) = Some (ts ev)
  /\ Joi.string_required true (JsMap.get "userId" o) = Some (userId ev)
  /\ Joi.string_required false (JsMap.get "sessionId" o) = Some (sessionId ev)
  /\ Joi.string_required false (JsMap.get "route" o) = Some (route ev)
  /\ Joi.string_required false (JsMap.get "action" o) = Some (action ev)
  /\ Joi.object_default (JsMap.get "metadata" o) = Some (metadata ev).
Proof.
  unfold eventSchema_validate.
  destruct (forallb _ o) eqn:Hk; [|done].
  destruct (Joi.guid_required _) as [x1|]; [|done]. cbn [mbind option_bind].
  destruct (Joi.number_required _) as [x2|]; [|done]. cbn [mbind option_bind].
  destruct (Joi.string_required true _) as [x3|]; [|done]. cbn [mbind option_bind].
  destruct (Joi.string_required false (JsMap.get "sessionId" o)) as [x4|]; [|done].
  cbn [mbind option_bind].
  destruct (Joi.string_required false (JsMap.get "route" o)) as [x5|]; [|done].
  cbn [mbind option_bind].
  destruct (Joi.string_required false (JsMap.get "action" o)) as [x6|]; [|done].
  cbn [mbind option_bind].
  destruct (Joi.object_default _) as [x7|]; [|done]. cbn [mbind option_bind].
  intros [= <-]. cbn [eventId ts userId sessionId route action metadata].
  split; [by apply schema_keys_forallb|done].
Qed.

Lemma guid_required_spec (v : option json) (id : string) :
  Joi.guid_required v = Some id -> v = Some (JStr id) /\ Joi.guid_uuidv4 id = true.
Proof.
  unfold Joi.guid_required.
  destruct (Joi.string_required false v) as [id'|] eqn:E; [|done].
  destruct (Joi.guid_uuidv4 id') eqn:G; [|done]. intros [= <-].
  by apply string_required_spec in E as [-> _].
Qed.

Lemma number_required_spec (v : option json) (n : Z) :
  Joi.number_required v = Some n ->
  0 <= n <= 2 ^ 53 - 1 /\ forall q, v = Some (JNum q) -> (q == inject_Z n)%Q.
Proof.
  unfold Joi.number_required. destruct v as [[]|]; try done.
  - intros [Hn Hq]%integer_min0_spec. split; [done|]. by intros ? [= <-].
  - destruct (joi_number_of_string s) as [q|]; [|done]. cbn.
    intros [Hn Hq]%integer_min0_spec. split; [done|]. by intros ? [=].
Qed.

Lemma validated_event_ok (o : list (string * json)) (ev : event) :
  eventSchema_validate o = Some ev -> event_ok ev.
Proof.
  intros (_ & Hid & Hts & _ & Hs & Hr & Ha & _)%validated_spec.
  apply guid_required_spec in Hid as [_ Hid].
  apply number_required_spec in Hts as [Hts _].
  apply string_required_spec in Hs as [_ Hs].
  apply string_required_spec in Hr as [_ Hr].
  apply string_required_spec in Ha as [_ Ha].
  unfold event_ok. repeat split; auto; lia.
Qed.

(** X1. An event that passed [eventSchema.validate] has the fields of the
    object it was made of: [eventId] is the string given, and matches the
    version-4 pattern; [ts] is an integer from 0 to 2^53 - 1, equal to the
    number given; [userId], [sessionId], [route] and [action] are the strings
    given, and of these only [userId] can be empty; [metadata] is the object
    given, or empty when none was given. *)
Theorem validated_fields (o : list (string * json)) (ev : event) :
  eventSchema_validate o = Some ev ->
  JsMap.get "eventId" o = Some (JStr (eventId ev))
  /\ Joi.guid_uuidv4 (eventId ev) = true
  /\ 0 <= ts ev <= 2 ^ 53 - 1
  /\ (forall q, JsMap.get "ts" o = Some (JNum q) -> (q == inject_Z (ts ev))%Q)
  /\ JsMap.get "userId" o = Some (JStr (userId ev))
  /\ JsMap.get "sessionId" o = Some (JStr (sessionId ev)) /\ sessionId ev <> ""
  /\ JsMap.get "route" o = Some (JStr (route ev)) /\ route ev <> ""
  /\ JsMap.get "action" o = Some (JStr (action ev)) /\ action ev <> ""
  /\ (forall m, JsMap.get "metadata" o = Some (JObj m) -> metadata ev = m)
  /\ (JsMap.get "metadata" o = None -> metadata ev = []).
Proof.
  intros (_ & Hid & Hts & Hu & Hs & Hr & Ha & Hm)%validated_spec.
  apply guid_required_spec in Hid as [Hid Hg].
  apply number_required_spec in Hts as [Hts Hq].
  apply string_required_spec in Hu as [Hu _].
  apply string_required_spec in Hs as [Hs Hs'].
  apply string_required_spec in Hr as [Hr Hr'].
  apply string_required_spec in Ha as [Ha Ha'].
  repeat split; auto; try lia.
  - intros m Hm'. rewrite Hm' in Hm. cbn in Hm. by injection Hm.
  - intros Hm'. rewrite Hm' in Hm. cbn in Hm. by injection Hm.
Qed.

(** The first own property of a non-empty array or string is named "0". *)
Lemma own_props_index (r : json) :
  (forall props, r <> JObj props) ->
  own_props r = [] \/ "0" ∈ JsMap.keys (own_props r).
Proof.
  intros Hr. destruct r as [| | |s|items|props]; simpl; try by left.
  - destruct s as [|c s]; [by left|]. right. simpl. unfold JsMap.keys. simpl. by left.
  - destruct items as [|x items]; [by left|]. right. unfold JsMap.keys. simpl. by left.
  - by destruct (Hr props).
Qed.

Lemma zero_not_schema_key : "0" ∉ eventSchema_keys.
Proof.
  unfold eventSchema_keys. intros H.
  repeat (apply elem_of_cons in H as [H|H]; [done|]). by apply elem_of_nil in H.
Qed.

Lemma non_object_dropped (r : json) :
  (forall props, r <> JObj props) -> eventSchema_validate (withDefaults r) = None.
Proof.
  intros Hr. destruct (eventSchema_validate (withDefaults r)) as [ev|] eqn:H; [|done].
  exfalso. pose proof (validated_spec _ _ H) as (Hkeys & Hid & _).
  unfold withDefaults in Hkeys, Hid.
  destruct (own_props_index r Hr) as [E|E].
  - rewrite E in Hid. done.
  - apply zero_not_schema_key, Hkeys, withDefaults_fold_keys. by left.
Qed.

(** X2. Of the records of a batch only objects pass the validation of the
    two transports, [{ metadata: {}, ...e }] followed by
    [eventSchema.validate]: a number, a string, an array, a boolean or null
    is dropped.  An object that passes has no key outside the seven of the
    schema, and when it has no [metadata] the event gets the empty object. *)
Theorem only_objects_pass (r : json) (ev : event) :
  eventSchema_validate (withDefaults r) = Some ev ->
  exists props, r = JObj props
    /\ (forall k, k ∈ JsMap.keys props -> k ∈ eventSchema_keys)
    /\ ("metadata" ∉ JsMap.keys props -> metadata ev = []).
Proof.
  intros H.
  assert (exists props, r = JObj props) as [props ->].
  { destruct r as [| | | | |props]; [..|by exists props];
      rewrite non_object_dropped in H; done. }
  pose proof (validated_spec _ _ H) as (Hkeys & _ & _ & _ & _ & _ & _ & Hm).
  exists props. split; [done|]. split.
  - intros k Hk. apply Hkeys. unfold withDefaults. apply withDefaults_fold_keys. by left.
  - intros Hk. unfold withDefaults in Hm. cbn [own_props] in Hm.
    rewrite withDefaults_fold_get in Hm by done. cbn in Hm. by injection Hm.
Qed.
End ValidationFacts.

Lemma validated_fields_witness :
  let o := withDefaults (event_json sample_uuid "/" "view") in
  let ev := validated sample_uuid "/" "view" in
  eventSchema_validate (P:=stub) o = Some ev
  /\ Joi.guid_uuidv4 (eventId ev) = true
  /\ route ev <> "".
Proof.
  intros o ev.
  assert (eventSchema_validate (P:=stub) o = Some ev) as H by (vm_compute; reflexivity).
  split; [exact H|].
  destruct (validated_fields (P:=stub) o ev H) as (_ & Hg & _ & _ & _ & _ & _ & _ & Hr & _).
  by split.
Defined.

Lemma only_objects_pass_witness :
  let r := event_json sample_uuid "/" "view" in
  let ev := validated sample_uuid "/" "view" in
  eventSchema_validate (P:=stub) (withDefaults r) = Some ev
  /\ exists props, r = JObj props
       /\ forall k, k ∈ JsMap.keys props -> k ∈ eventSchema_keys.
Proof.
  intros r ev.
  assert (eventSchema_validate (P:=stub) (withDefaults r) = Some ev) as H
    by (vm_compute; reflexivity).
  split; [exact H|].
  destruct (only_objects_pass (P:=stub) r ev H) as (props & E & Hk & _).
  by exists props.
Defined.

(** ** How a turn changes the calls in flight *)

Lemma validate_all_ok {P : Platform} (rs : list json) : Forall event_ok (validate_all rs).
Proof.
  unfold validate_all. induction rs as [|r rs IH]; simpl; [constructor|].
  destruct (eventSchema_validate (withDefaults r)) as [ev|] eqn:E; [|done].
  constructor; [|done]. by apply (validated_event_ok _ _ E).
Qed.

Section Tasks.
Context {P : Platform} (env : gmap string string) (MAX_MSG_BYTES : Z).

Local Abbreviation step := (step env MAX_MSG_BYTES).

Lemma handleEvents_tasks (tid : nat) (events : list event) (from : caller) (s : server) :
  events <> [] ->
  tasks (handleEvents tid events from s) = <[tid := AwaitInsert events from]> (tasks s).
Proof. by destruct events. Qed.

Lemma handleEvents_windows_tasks (tid : nat) (events : list event) (now : Z)
    (deltas : list (string * serialized)) (remaining : list Z) (from : caller)
    (s : server) :
  tasks (handleEvents_windows tid events now deltas remaining from s)
  = match remaining with
    | w :: rest =>
        <[tid := AwaitUpsert events now
                   (JsMap.set (window_key w)
                      (snd (update_window events now w (memoryWindows s))) deltas)
                   w rest from]> (tasks s)
    | [] => delete tid (tasks s)
    end.
Proof.
  destruct remaining as [|w rest].
  - cbn [handleEvents_windows].
    by destruct (finished_fields tid events from "dashboard:global" (agg_delta deltas)
                   (with_tasks (delete tid (tasks s)) s)) as (_ & _ & _ & _ & -> & _).
  - by rewrite handleEvents_windows_cons.
Qed.

Lemma jsmap_keys_set_new {V : Type} (k : string) (v : V) (m : list (string * V)) :
  k ∉ JsMap.keys m -> JsMap.keys (JsMap.set k v m) = JsMap.keys m ++ [k].
Proof.
  unfold JsMap.keys. induction m as [|[k0 v0] m IH]; simpl; [done|].
  rewrite not_elem_of_cons. intros [Hne Hk].
  destruct (String.eqb k0 k) eqn:E; [by apply String.eqb_eq in E|].
  simpl. by rewrite IH.
Qed.

Lemma task_ok_next (events : list event) (now : Z) (deltas : list (string * serialized))
    (w w' : Z) (rest : list Z) (from : caller) (d : serialized) :
  task_ok (AwaitUpsert events now deltas w (w' :: rest) from) ->
  task_ok (AwaitUpsert events now (JsMap.set (window_key w') d deltas) w' rest from).
Proof.
  intros [Hb (before & Hw & Hk)]. split; [exact Hb|].
  exists (before ++ [w]). split; [by rewrite <- app_assoc|].
  rewrite jsmap_keys_set_new.
  - by rewrite Hk, !map_app.
  - rewrite Hk. unfold WINDOW_SIZES in Hw.
    destruct before as [|a [|b [|c before]]]; simplify_eq/=;
      try (by destruct before);
      intros H; repeat (apply elem_of_cons in H as [H|H]; [done|]);
      by apply elem_of_nil in H.
Qed.

Lemma task_ok_first (events : list event) (now : Z) (from : caller) (d : serialized) :
  batch_ok events ->
  task_ok (AwaitUpsert events now (JsMap.set (window_key 1) d []) 1 [5; 60] from).
Proof. intros Hb. split; [exact Hb|]. by exists []. Qed.

Lemma step_tasks_ok (l : label) (s : server) :
  map_Forall (fun _ t => task_ok t) (tasks s) ->
  map_Forall (fun _ t => task_ok t) (tasks (step l s)).
Proof.
  intros Hok. unfold step, when_idle.
  destruct l; try (destruct (jobs s) as [|j js] eqn:Hj; [|done]); try done.
  - (* Connection *)
    destruct (sockets s !! id); [done|]. unfold on_connection.
    by destruct (authWsFromReq env req now).
  - (* Message *)
    destruct (sockets s !! id) as [ws|]; [|done].
    destruct (handlers ws && bool_decide (readyState ws = OPEN) && fresh tid s); [|done].
    unfold on_message.
    repeat (match goal with
            | |- context [match ?x with _ => _ end] => destruct x eqn:?
            end; try done).
    rewrite handleEvents_tasks by done. apply map_Forall_insert_2; [|done].
    split; [|done]. split; [done|].
    match goal with H : validate_all ?rs = _ |- _ => rewrite <- H end.
    apply validate_all_ok.
  - (* Closing *)
    destruct (sockets s !! id); [|done]. by case_decide.
  - (* Close *)
    destruct (sockets s !! id) as [ws|]; [|done]. case_decide; [done|].
    unfold on_close. by destruct (handlers ws).
  - (* GetToken *)
    by destruct (fresh rid s).
  - (* PostIngest *)
    destruct (fresh rid s); [|done]. unfold post_ingest, ingest_handler.
    repeat (match goal with
            | |- context [match ?x with _ => _ end] => destruct x eqn:?
            end; try done);
    rewrite handleEvents_tasks by done; (apply map_Forall_insert_2; [|done]);
    (split; [|done]); (split; [done|]);
    match goal with H : validate_all ?rs = _ |- _ => rewrite <- H end;
    apply validate_all_ok.
  - (* InsertDone *)
    unfold insert_done. destruct (tasks s !! tid) as [[events from|]|] eqn:Et; try done.
    rewrite handleEvents_windows_tasks. unfold WINDOW_SIZES.
    apply map_Forall_insert_2; [|by destruct ok].
    apply task_ok_first. by destruct (Hok tid _ Et).
  - (* UpsertDone *)
    unfold upsert_done.
    destruct (tasks s !! tid) as [[|events now deltas w rest from]|] eqn:Et; try done.
    destruct ok.
    + rewrite handleEvents_windows_tasks. destruct rest as [|w' rest].
      * by apply map_Forall_delete.
      * apply map_Forall_insert_2; [|done].
        apply (task_ok_next events now deltas w). exact (Hok tid _ Et).
    + by apply map_Forall_delete.
  - (* RunJob *)
    destruct (jobs s) as [|j js]; [done|]. by destruct j.
Qed.
End Tasks.

(** ** Well-formed buckets *)

Lemma see_NoDup (seen : list string) (r : string) : NoDup seen -> NoDup (see seen r).
Proof.
  intros H. unfold see. case_bool_decide; [done|].
  apply NoDup_app. split; [done|]. split; [|apply NoDup_singleton].
  intros x Hx ->%list_elem_of_singleton. done.
Qed.

Lemma see_elem (seen : list string) (r x : string) : x ∈ see seen r <-> x ∈ seen \/ x = r.
Proof.
  unfold see. case_bool_decide.
  - split; [by left|]. by intros [?| ->].
  - by rewrite elem_of_app, list_elem_of_singleton.
Qed.

Lemma set_Forall_counts (k : string) (v : Z) (m : list (string * Z)) :
  1 <= v -> Forall (fun rc => 1 <= snd rc) m ->
  Forall (fun rc => 1 <= snd rc) (JsMap.set k v m).
Proof.
  intros Hv. induction 1 as [|[k0 v0] m H0 Hm IH]; simpl.
  - by constructor.
  - destruct (String.eqb k0 k); constructor; done.
Qed.

Lemma get_Forall_counts (k : string) (m : list (string * Z)) :
  Forall (fun rc => 1 <= snd rc) m -> 0 <= default 0 (JsMap.get k m).
Proof.
  induction 1 as [|[k0 v0] m H0 Hm IH]; simpl; [done|].
  destruct (String.eqb k0 k); simpl in *; [lia|done].
Qed.

Lemma new_entry_wf : entry_wf new_entry.
Proof.
  unfold entry_wf, new_entry. cbn. split; [done|]. split; [apply NoDup_nil_2|].
  split; [apply not_elem_of_nil|]. split; [constructor|]. apply not_elem_of_empty.
Qed.

Lemma tally_wf (e : entry) (ev : event) :
  event_ok ev -> entry_wf e -> entry_wf (tally e ev) /\ 1 <= count (tally e ev).
Proof.
  intros (_ & _ & _ & Hr & _) (Hc & Hn & He & Hf & Hu).
  unfold entry_wf, tally. cbn [count routes uniques errors].
  rewrite keys_set. split; [|lia]. split; [lia|]. split; [by apply see_NoDup|].
  split; [rewrite see_elem; by intros [?|?]|]. split.
  - apply set_Forall_counts; [|done]. pose proof (get_Forall_counts (route ev) _ Hf). lia.
  - unfold truthy_str. destruct (String.eqb (userId ev) "") eqn:E; simpl; [done|].
    apply String.eqb_neq in E. rewrite elem_of_union, elem_of_singleton.
    by intros [?|?].
Qed.

Lemma fold_tally_wf (events : list event) (e : entry) :
  Forall event_ok events -> entry_wf e ->
  entry_wf (fold_left tally events e)
  /\ (events <> [] -> 1 <= count (fold_left tally events e)).
Proof.
  intros Hev. revert e. induction Hev as [|ev events Hok Hev IH]; intros e He; simpl.
  - by split.
  - destruct (tally_wf e ev Hok He) as [Hw Hc].
    destruct (IH _ Hw) as [Hw' Hc']. split; [done|]. intros _.
    rewrite fold_tally_count. lia.
Qed.

Lemma bucket_wf_entry (k : Z * Z) (e : entry) : bucket_wf k e -> entry_wf e.
Proof. unfold bucket_wf, entry_wf. intros (?&?&?&?&?&?&?). repeat split; auto; lia. Qed.

Lemma update_window_wf (events : list event) (now w : Z) (mw : gmap (Z * Z) entry) :
  batch_ok events -> w ∈ WINDOW_SIZES ->
  map_Forall bucket_wf mw ->
  map_Forall bucket_wf (fst (update_window events now w mw)).
Proof.
  intros [Hne Hev] Hw Hmw. unfold update_window. cbn [fst].
  apply map_Forall_insert_2; [|done].
  assert (entry_wf (bucket_of mw w (getBucketStart now w))) as He.
  { unfold bucket_of. destruct (mw !! (w, getBucketStart now w)) as [e|] eqn:E; cbn.
    - by apply (bucket_wf_entry _ _ (Hmw _ _ E)).
    - apply new_entry_wf. }
  destruct (fold_tally_wf events _ Hev He) as [(Hc & Hn & He' & Hf & Hu) Hc'].
  assert (0 < w) as Hpos.
  { unfold WINDOW_SIZES in Hw. rewrite !elem_of_cons, elem_of_nil in Hw. lia. }
  destruct (getBucketStart_floor now w Hpos) as [_ Hmod].
  unfold bucket_wf. cbn [fst snd]. repeat split; auto.
Qed.

Lemma janitor_wf (now : Z) (mw : gmap (Z * Z) entry) :
  map_Forall bucket_wf mw -> map_Forall bucket_wf (janitor now mw).
Proof.
  intros H k e Hk. unfold janitor in Hk. apply map_lookup_filter_Some in Hk as [Hk _].
  by apply (H k e).
Qed.

Section BucketsWf.
Context {P : Platform} (env : gmap string string) (MAX_MSG_BYTES : Z).

Local Abbreviation step := (step env MAX_MSG_BYTES).
Local Abbreviation reachable := (reachable env MAX_MSG_BYTES).

(** The windows change in the turn of a reply of MongoDB only, for the batch
    of the call the reply belongs to and the window that call comes to next;
    or by the janitor. *)
Lemma step_memoryWindows_task (l : label) (s : server) :
  memoryWindows (step l s) = memoryWindows s
  \/ (exists now, memoryWindows (step l s) = janitor now (memoryWindows s))
  \/ (exists tid events from now,
        tasks s !! tid = Some (AwaitInsert events from)
        /\ memoryWindows (step l s) = fst (update_window events now 1 (memoryWindows s)))
  \/ (exists tid events now deltas w0 w rest from,
        tasks s !! tid = Some (AwaitUpsert events now deltas w0 (w :: rest) from)
        /\ memoryWindows (step l s) = fst (update_window events now w (memoryWindows s))).
Proof.
  unfold step, when_idle.
  destruct l; try (destruct (jobs s) as [|j js] eqn:Hj; [|by left]); try (by left).
  - (* Connection *)
    left. destruct (sockets s !! id); [done|].
    unfold on_connection. by destruct (authWsFromReq env req now).
  - (* Message *)
    left. destruct (sockets s !! id) as [ws|]; [|done].
    destruct (handlers ws && bool_decide (readyState ws = OPEN) && fresh tid s); [|done].
    unfold on_message.
    repeat (match goal with
            | |- context [match ?x with _ => _ end] => destruct x
            end; try done; try apply handleEvents_memoryWindows).
  - (* Closing *)
    left. destruct (sockets s !! id); [|done]. by case_decide.
  - (* Close *)
    left. destruct (sockets s !! id) as [ws|]; [|done]. case_decide; [done|].
    unfold on_close. by destruct (handlers ws).
  - (* GetToken *)
    left. by destruct (fresh rid s).
  - (* PostIngest *)
    left. destruct (fresh rid s); [|done].
    unfold post_ingest, ingest_handler.
    repeat (match goal with
            | |- context [match ?x with _ => _ end] => destruct x
            end; try done; try apply handleEvents_memoryWindows).
  - (* InsertDone *)
    unfold insert_done. destruct (tasks s !! tid) as [[events from|]|] eqn:Et; try (by left).
    right; right; left. exists tid, events, from, now. split; [done|].
    rewrite handleEvents_windows_memoryWindows. unfold WINDOW_SIZES. by destruct ok.
  - (* UpsertDone *)
    unfold upsert_done.
    destruct (tasks s !! tid) as [[|events now deltas w rest from]|] eqn:Et; try (by left).
    destruct ok; [|by left].
    rewrite handleEvents_windows_memoryWindows. destruct rest as [|w' rest]; [by left|].
    right; right; right. by exists tid, events, now, deltas, w, w', rest, from.
  - (* Interval *)
    right; left. by exists now.
  - (* RunJob *)
    left. destruct (jobs s) as [|j js]; [done|]. by destruct j.
Qed.

Lemma reachable_wf (s : server) :
  reachable s ->
  map_Forall (fun _ t => task_ok t) (tasks s) /\ map_Forall bucket_wf (memoryWindows s).
Proof.
  induction 1 as [raw aggs|l s Hs [IHt IHb]].
  - split; apply map_Forall_empty.
  - split; [by apply step_tasks_ok|].
    destruct (step_memoryWindows_task l s)
      as [->|[[now ->]|[(tid & events & from & now & Ht & ->)
                       |(tid & events & now & deltas & w0 & w & rest & from & Ht & ->)]]].
    + exact IHb.
    + by apply janitor_wf.
    + destruct (IHt tid _ Ht) as [Hb _]. apply update_window_wf; [done| |done].
      unfold WINDOW_SIZES. apply elem_of_cons. by left.
    + destruct (IHt tid _ Ht) as [Hb (before & Hw & _)].
      apply update_window_wf; [done| |done].
      rewrite Hw. apply elem_of_app. right. apply elem_of_cons. right.
      apply elem_of_cons. by left.
Qed.
End BucketsWf.

Section BucketTheorems.
Context {P : Platform} (env : gmap string string) (MAX_MSG_BYTES : Z).

Local Abbreviation step := (step env MAX_MSG_BYTES).
Local Abbreviation reachable := (reachable env MAX_MSG_BYTES).

(** X5. In every reachable state every bucket of [memoryWindows] belongs to
    one of the windows 1, 5 and 60 and starts at a multiple of its length; it
    counts at least one event; its routes map has one entry per route, no
    empty route and only positive tallies; its set of users holds no empty
    id.  And every call of [handleEvents] in flight holds a batch that is not
    empty and whose events all keep the rules of the schema. *)
Theorem buckets_well_formed (s : server) :
  reachable s ->
  (forall w b e, memoryWindows s !! (w, b) = Some e ->
     w ∈ WINDOW_SIZES /\ b mod (w * 1000) = 0
     /\ 1 <= count e
     /\ NoDup (JsMap.keys (routes e)) /\ ("" ∉ JsMap.keys (routes e))
     /\ Forall (fun rc => 1 <= snd rc) (routes e)
     /\ ("" ∉ uniques e))
  /\ (forall tid t, tasks s !! tid = Some t ->
        task_events t <> [] /\ Forall event_ok (task_events t)).
Proof.
  intros [Ht Hb]%reachable_wf. split.
  - intros w b e He. exact (Hb (w, b) e He).
  - intros tid t Htid. by destruct (Ht tid t Htid) as [? _].
Qed.

(** X6. The janitor, run at clock [now] on a reachable server between two
    turns: it creates and changes no bucket; it keeps every bucket that
    starts no more than five bucket lengths before [now] and deletes every
    older bucket of the three windows; what it leaves of a window up to
    [now] is the current bucket or one of the five before it; a snapshot
    taken at [now] reads the same after it as before; and it sends nothing,
    queues nothing and answers nothing. *)
Theorem janitor_keeps_recent (s : server) (now : Z) :
  reachable s -> jobs s = [] ->
  let s' := step (Interval now) s in
  (forall k e, memoryWindows s' !! k = Some e -> memoryWindows s !! k = Some e)
  /\ (forall w b, now - w * 1000 * 5 <= b ->
        memoryWindows s' !! (w, b) = memoryWindows s !! (w, b))
  /\ (forall w b, w ∈ WINDOW_SIZES -> b < now - w * 1000 * 5 ->
        memoryWindows s' !! (w, b) = None)
  /\ (forall w b e, memoryWindows s' !! (w, b) = Some e -> b <= now ->
        exists i, 0 <= i <= 5 /\ b = getBucketStart now w - i * (w * 1000))
  /\ latestAggregatesSnapshot (memoryWindows s') now
     = latestAggregatesSnapshot (memoryWindows s) now
  /\ sockets s' = sockets s /\ jobs s' = [] /\ responses s' = responses s.
Proof.
  intros Hs Hj s'. subst s'. unfold step, when_idle. rewrite Hj. server_simpl.
  assert (forall w b, now - w * 1000 * 5 <= b ->
            janitor now (memoryWindows s) !! (w, b) = memoryWindows s !! (w, b)) as Hkeep.
  { intros w b Hb. unfold janitor.
    destruct (memoryWindows s !! (w, b)) as [e|] eqn:E.
    - apply map_lookup_filter_Some. split; [done|]. cbn. intros [_ ?]. lia.
    - apply map_lookup_filter_None. left. done. }
  split; [|split; [exact Hkeep|split; [|split; [|split]]]].
  - intros k e Hk. unfold janitor in Hk. by apply map_lookup_filter_Some in Hk as [Hk _].
  - intros w b Hw Hb. unfold janitor. apply map_lookup_filter_None. right.
    intros e _ Hn. apply Hn. by split.
  - intros w b e Hk Hb. unfold janitor in Hk.
    apply map_lookup_filter_Some in Hk as [Hk Hn]. cbn in Hn.
    destruct (reachable_wf env MAX_MSG_BYTES s Hs) as [_ Hwf].
    destruct (Hwf _ _ Hk) as (Hw & Hmod & _). cbn [fst snd] in Hw, Hmod.
    assert (0 < w) as Hpos.
    { unfold WINDOW_SIZES in Hw. rewrite !elem_of_cons, elem_of_nil in Hw. lia. }
    assert (now - w * 1000 * 5 <= b) as Hge.
    { destruct (decide (b < now - w * 1000 * 5)) as [Hlt|]; [|lia].
      destruct Hn. by split. }
    unfold getBucketStart. cbv zeta.
    apply Z.mod_divide in Hmod as [q Hq]; [|lia].
    exists (now / (w * 1000) - q). subst b.
    pose proof (Z.div_mod now (w * 1000) ltac:(lia)).
    pose proof (Z.mod_pos_bound now (w * 1000) ltac:(lia)).
    split; [|lia]. nia.
  - unfold latestAggregatesSnapshot, WINDOW_SIZES, bucket_of. cbn [map].
    rewrite !Hkeep; [done|..];
      match goal with |- _ <= getBucketStart now ?w =>
        pose proof (getBucketStart_floor now w ltac:(lia)); lia end.
  - done.
Qed.
End BucketTheorems.

Lemma buckets_well_formed_witness :
  let post := bearer_request "change_me.u1" (Some (JArr [event_json sample_uuid "/" "view"])) in
  let s := run (P:=stub) ∅ 32768 (PostIngest 2 post t0 :: ingestion 2 true t0) (init [] ∅) in
  reachable (P:=stub) ∅ 32768 s
  /\ forall w b e, memoryWindows s !! (w, b) = Some e ->
       w ∈ WINDOW_SIZES /\ b mod (w * 1000) = 0 /\ 1 <= count e.
Proof.
  intros post s.
  assert (reachable (P:=stub) ∅ 32768 s) as Hs by apply reachable_run, reachable_init.
  split; [exact Hs|]. intros w b e He.
  destruct (buckets_well_formed (P:=stub) ∅ 32768 s Hs) as [Hb _].
  destruct (Hb w b e He) as (? & ? & ? & _). auto.
Defined.

Lemma janitor_keeps_recent_witness :
  let post := bearer_request "change_me.u1" (Some (JArr [event_json sample_uuid "/" "view"])) in
  let s := run (P:=stub) ∅ 32768 (PostIngest 2 post t0 :: ingestion 2 true t0 ++ [RunJob])
               (init [] ∅) in
  let s' := step (P:=stub) ∅ 32768 (Interval (t0 + 6000)) s in
  reachable (P:=stub) ∅ 32768 s
  /\ jobs s = []
  /\ memoryWindows s' !! (1, t0) = None
  /\ memoryWindows s' !! (5, t0) = memoryWindows s !! (5, t0).
Proof.
  intros post s s'.
  assert (reachable (P:=stub) ∅ 32768 s) as Hs by apply reachable_run, reachable_init.
  assert (jobs s = []) as Hj by (vm_compute; reflexivity).
  split; [exact Hs|]. split; [exact Hj|].
  destruct (janitor_keeps_recent (P:=stub) ∅ 32768 s (t0 + 6000) Hs Hj)
    as (_ & Hkeep & Hdel & _).
  split.
  - apply Hdel; [|unfold t0; lia]. unfold WINDOW_SIZES. apply elem_of_cons. by left.
  - apply Hkeep. unfold t0. lia.
Defined.

(** ** The turns of the event loop, one by one *)

Section Turns.
Context {P : Platform} (env : gmap string string) (MAX_MSG_BYTES : Z).

Local Abbreviation step := (step env MAX_MSG_BYTES).
Local Abbreviation reachable := (reachable env MAX_MSG_BYTES).

(** Every turn is one of these: nothing happens; a connection is accepted
    or refused; a socket subscribes; a listener throws; a validated batch
    enters [handleEvents]; a socket starts or ends its close; the send queue
    of a socket changes; a request is answered at once; MongoDB answers an
    insert or an upsert; the janitor runs; the job at the head of the queue
    runs. *)
Lemma step_cases (l : label) (s : server) :
  step l s = s
  \/ (exists (id : nat) (ws0 : socket),
        jobs s = [] /\ sockets s !! id = None
        /\ (ws0 = refused_socket \/ exists decoded, ws0 = accepted_socket decoded)
        /\ step l s = with_sockets (<[id := ws0]> (sockets s)) s)
  \/ (exists (id : nat) (ws : socket) (topic : string) (now : Z),
        sockets s !! id = Some ws /\ handlers ws = true /\ readyState ws = OPEN
        /\ step l s
           = with_jobs (jobs s ++ [SendSnapshot id
                                     (latestAggregatesSnapshot (memoryWindows s) now)])
                       (subscribe id topic s))
  \/ (exists tid : nat, fresh tid s = true /\ step l s = with_rejected (tid :: rejected s) s)
  \/ (exists (tid : nat) (rs : list json) (from : caller),
        fresh tid s = true /\ validate_all rs <> []
        /\ (from = FromHttp -> jobs s = [])
        /\ step l s = handleEvents tid (validate_all rs) from s)
  \/ (exists (id : nat) (ws : socket),
        sockets s !! id = Some ws /\ readyState ws = OPEN
        /\ step l s = with_sockets (<[id := with_readyState CLOSING ws]> (sockets s)) s)
  \/ (exists (id : nat) (ws : socket),
        jobs s = [] /\ sockets s !! id = Some ws /\ readyState ws <> CLOSED
        /\ step l s = on_close id ws s)
  \/ (exists (id : nat) (amount : Z),
        jobs s = []
        /\ step l s = with_sockets (alter (with_bufferedAmount amount) id (sockets s)) s)
  \/ (exists (rid : nat) (r : response),
        jobs s = [] /\ fresh rid s = true
        /\ (forall n, json_body r <> Accepted n) /\ response_ok r
        /\ step l s = respond rid r s)
  \/ (exists (tid : nat) (events : list event) (from : caller) (ok : bool) (now : Z),
        jobs s = [] /\ tasks s !! tid = Some (AwaitInsert events from)
        /\ step l s
           = handleEvents_windows tid events now [] WINDOW_SIZES from
               (if ok then with_eventsCol (insertMany events (eventsCol s)) s else s))
  \/ (exists (tid : nat) (events : list event) (now : Z) (deltas : list (string * serialized))
             (w : Z) (rest : list Z) (from : caller),
        jobs s = [] /\ tasks s !! tid = Some (AwaitUpsert events now deltas w rest from)
        /\ (step l s
            = handleEvents_windows tid events now deltas rest from
                (with_aggCol (updateOne w (getBucketStart now w) events (aggCol s)) s)
            \/ step l s
               = with_rejected (tid :: rejected s) (with_tasks (delete tid (tasks s)) s)))
  \/ (exists now : Z,
        jobs s = [] /\ step l s = with_memoryWindows (janitor now (memoryWindows s)) s)
  \/ (exists (j : job) (js : list job), jobs s = j :: js /\ step l s = run_job j (with_jobs js s)).
Proof.
  unfold step, when_idle.
  destruct l; try (destruct (jobs s) as [|j js] eqn:Hj; [|by left]).
  - (* Connection *)
    destruct (sockets s !! id) eqn:Ew; [by left|]. right; left.
    unfold on_connection. destruct (authWsFromReq env req now) as [decoded|].
    + exists id, (accepted_socket decoded). repeat split; eauto.
    + exists id, refused_socket. repeat split; eauto.
  - (* Message *)
    destruct (sockets s !! id) as [ws|] eqn:Ew; [|by left].
    destruct (handlers ws) eqn:Hh; [|by left].
    destruct (bool_decide (readyState ws = OPEN)) eqn:Ho; [|by left].
    apply bool_decide_eq_true in Ho.
    destruct (fresh tid s) eqn:Hf; [|by left]. cbn [andb].
    unfold on_message.
    repeat (match goal with
            | |- context [match ?x with _ => _ end] => destruct x eqn:?
            end; try (by left)).
    + do 3 right; left. by exists tid.
    + do 2 right; left. by eexists id, ws, _, now.
    + do 4 right; left.
      match goal with H : validate_all ?rs = _ |- _ =>
        exists tid, rs, FromWs; rewrite H end.
      repeat split; done.
  - (* Closing *)
    destruct (sockets s !! id) as [ws|] eqn:Ew; [|by left]. case_decide; [|by left].
    do 5 right; left. by exists id, ws.
  - (* Close *)
    destruct (sockets s !! id) as [ws|] eqn:Ew; [|by left]. case_decide; [by left|].
    do 6 right; left. by exists id, ws.
  - (* Buffered *)
    do 7 right; left. by exists id, amount.
  - (* GetToken *)
    destruct (fresh rid s) eqn:Hf; [|by left]. do 8 right; left.
    exists rid, (token_handler env req now). repeat split; done.
  - (* PostIngest *)
    destruct (fresh rid s) eqn:Hf; [|by left]. unfold post_ingest, ingest_handler.
    destruct (authHttp env req now) as [r|decoded] eqn:Ha.
    { do 8 right; left. exists rid, r. unfold authHttp in Ha.
      destruct (authHttp_token req); [destruct (jwt_verify _ _ _)|]; simplify_eq;
        repeat split; try done; unfold response_ok; cbn; auto. }
    destruct (body req) as [payload|];
      [|do 8 right; left; eexists rid, _; repeat split; try done;
        unfold response_ok; cbn; auto].
    destruct (negb (truthy payload) || _);
      [do 8 right; left; eexists rid, _; repeat split; try done;
       unfold response_ok; cbn; auto|].
    match goal with |- context [validate_all ?rs] =>
      destruct (validate_all rs) as [|ev valid] eqn:Hv end;
      [do 8 right; left; eexists rid, _; repeat split; try done;
       unfold response_ok; cbn; auto|].
    do 4 right; left.
    match goal with H : validate_all ?rs = _ |- _ =>
      exists rid, rs, FromHttp; rewrite H end.
    repeat split; done.
  - (* InsertDone *)
    unfold insert_done. destruct (tasks s !! tid) as [[events from|]|] eqn:Et;
      try (by left).
    do 9 right; left. by exists tid, events, from, ok, now.
  - (* UpsertDone *)
    unfold upsert_done.
    destruct (tasks s !! tid) as [[|events now deltas w rest from]|] eqn:Et;
      try (by left).
    do 10 right; left. exists tid, events, now, deltas, w, rest, from.
    split; [done|]. split; [done|]. destruct ok; [by left | by right].
  - (* Interval *)
    do 11 right; left. by exists now.
  - (* RunJob *)
    destruct (jobs s) as [|j js] eqn:Hj; [by left|]. do 12 right. by exists j, js.
Qed.
End Turns.

(** ** The registry and the sockets *)

Lemma same_membership_refl (ws : socket) : same_membership ws ws.
Proof. by split. Qed.

Lemma ws_send_membership (f : frame) (ws : socket) : same_membership ws (ws_send f ws).
Proof. unfold ws_send, same_membership. by case_decide. Qed.

Lemma broadcast_lookup (topic : string) (payload : frame) (s : server) (id : nat) :
  sockets (broadcast topic payload s) !! id
  = (fun ws => if bool_decide (id ∈ default ∅ (topicToSockets s !! topic)) && writable ws
               then ws_send payload ws else ws) <$> sockets s !! id.
Proof.
  unfold broadcast. destruct (topicToSockets s !! topic) as [set|] eqn:Et; cbn [default].
  - case_decide as Hz.
    + apply size_empty_iff, leibniz_equiv in Hz. subst set.
      rewrite bool_decide_eq_false_2 by apply not_elem_of_empty. cbn.
      by destruct (sockets s !! id).
    + server_simpl. rewrite map_lookup_imap. destruct (sockets s !! id) as [ws|]; [|done].
      cbn. f_equal. case_decide; [rewrite bool_decide_eq_true_2 | rewrite bool_decide_eq_false_2];
        done.
  - rewrite bool_decide_eq_false_2 by apply not_elem_of_empty. cbn.
    by destruct (sockets s !! id).
Qed.

Lemma broadcast_topicToSockets (topic : string) (payload : frame) (s : server) :
  topicToSockets (broadcast topic payload s) = topicToSockets s.
Proof. by destruct (broadcast_sockets_only topic payload s) as [socks ->]. Qed.

Lemma registry_agrees_frame (s s' : server) :
  topicToSockets s' = topicToSockets s ->
  (forall id, option_Forall2 same_membership (sockets s !! id) (sockets s' !! id)) ->
  registry_agrees s -> registry_agrees s'.
Proof.
  intros Ht Hs (R1 & R2 & R3). unfold registry_agrees. rewrite Ht.
  split; [exact R1|]. split.
  - intros topic set id Hl Hin. destruct (R2 topic set id Hl Hin) as (ws & Hw & Hh & Hsub & Hc).
    pose proof (Hs id) as Hrel. rewrite Hw in Hrel. inversion Hrel as [? ws' (E1 & E2 & E3)|]; subst.
    exists ws'. split; [done|]. rewrite <- E1, <- E2. split; [done|]. split; [done|].
    intros Hc'. by apply Hc, E3.
  - intros id ws' topic Hw' Hsub. pose proof (Hs id) as Hrel. rewrite Hw' in Hrel.
    inversion Hrel as [ws ? (E1 & E2 & E3) Hw|]; subst. symmetry in Hw.
    rewrite <- E2 in Hsub. destruct (R3 id ws topic Hw Hsub) as [Hh Hreg].
    split; [by rewrite <- E1|]. intros Hc. apply Hreg. intros Hc'. by apply Hc, E3.
Qed.

Lemma registry_agrees_sockets (s : server) (socks : gmap nat socket) :
  (forall id, option_Forall2 same_membership (sockets s !! id) (socks !! id)) ->
  registry_agrees s -> registry_agrees (with_sockets socks s).
Proof. intros H. by apply registry_agrees_frame. Qed.

Lemma option_Forall2_same (m : gmap nat socket) (id : nat) :
  option_Forall2 same_membership (m !! id) (m !! id).
Proof. destruct (m !! id); constructor. apply same_membership_refl. Qed.

Lemma option_Forall2_alter (m : gmap nat socket) (f : socket -> socket) (id0 id : nat) :
  (forall ws, same_membership ws (f ws)) ->
  option_Forall2 same_membership (m !! id) (alter f id0 m !! id).
Proof.
  intros Hf. rewrite lookup_alter. case_decide; [|apply option_Forall2_same].
  subst. destruct (m !! id); constructor. apply Hf.
Qed.

Lemma registry_agrees_connection (s : server) (id : nat) (ws0 : socket) :
  sockets s !! id = None -> subscriptions ws0 = ∅ ->
  registry_agrees s ->
  registry_agrees (with_sockets (<[id := ws0]> (sockets s)) s).
Proof.
  intros Hn Hsub (R1 & R2 & R3). unfold registry_agrees. server_simpl.
  split; [exact R1|]. split.
  - intros topic set id' Hl Hin. destruct (R2 topic set id' Hl Hin) as (ws & Hw & H).
    exists ws. split; [|done]. rewrite lookup_insert_ne; [done|]. intros ->. congruence.
  - intros id' ws topic. rewrite lookup_insert. case_decide.
    + intros [= <-]. rewrite Hsub. intros H'. by apply not_elem_of_empty in H'.
    + apply R3.
Qed.

Lemma registry_agrees_subscribe (s : server) (id : nat) (ws : socket) (topic : string) :
  sockets s !! id = Some ws -> handlers ws = true -> readyState ws = OPEN ->
  registry_agrees s -> registry_agrees (subscribe id topic s).
Proof.
  intros Hw Hh Ho (R1 & R2 & R3). unfold registry_agrees, subscribe. server_simpl.
  split; [|split].
  - intros topic' set. rewrite lookup_insert. case_decide.
    + intros [= <-]. intros E. apply (not_elem_of_empty (C:=gset nat) id). rewrite <- E.
      apply elem_of_union. right. by apply elem_of_singleton.
    + apply R1.
  - intros topic' set id'. rewrite lookup_insert, lookup_alter. case_decide as Et.
    + subst topic'. intros [= <-] Hin. case_decide as Ei.
      * subst id'. rewrite Hw. cbn. eexists. split; [reflexivity|].
        cbn. rewrite Ho. split; [done|]. split; [|done].
        apply elem_of_union. right. by apply elem_of_singleton.
      * apply elem_of_union in Hin as [Hin|Hin]; [|by apply elem_of_singleton in Hin].
        destruct (topicToSockets s !! topic) as [set0|] eqn:E; cbn in Hin;
          [|by apply not_elem_of_empty in Hin].
        exact (R2 topic set0 id' E Hin).
    + intros Hl Hin. destruct (R2 topic' set id' Hl Hin) as (ws' & Hw' & Hh' & Hs' & Hc').
      case_decide as Ei.
      * subst id'. rewrite Hw' . cbn. eexists. split; [reflexivity|]. cbn.
        split; [done|]. split; [|done]. apply elem_of_union. by left.
      * by exists ws'.
  - intros id' ws' topic'. rewrite lookup_alter. case_decide as Ei.
    + subst id'. rewrite Hw. cbn. intros [= <-]. cbn. intros Hin. split; [done|]. intros _.
      rewrite lookup_insert. case_decide as Et.
      * eexists. split; [reflexivity|]. apply elem_of_union. right. by apply elem_of_singleton.
      * apply elem_of_union in Hin as [Hin|Hin]; [|by apply elem_of_singleton in Hin].
        destruct (R3 id ws topic' Hw Hin) as [_ Hreg]. apply Hreg. by rewrite Ho.
    + intros Hw' Hin. destruct (R3 id' ws' topic' Hw' Hin) as [Hh' Hreg].
      split; [done|]. intros Hc. destruct (Hreg Hc) as (set & Hl & Hin').
      rewrite lookup_insert. case_decide as Et.
      * subst topic'. rewrite Hl. cbn. eexists. split; [reflexivity|].
        apply elem_of_union. by left.
      * by exists set.
Qed.

Lemma registry_agrees_close (s : server) (id : nat) (ws : socket) :
  sockets s !! id = Some ws -> registry_agrees s -> registry_agrees (on_close id ws s).
Proof.
  intros Hw (R1 & R2 & R3). unfold on_close.
  destruct (handlers ws) eqn:Hh.
  - unfold registry_agrees, unsubscribe_all. server_simpl. split; [|split].
    + intros topic set. rewrite map_lookup_imap.
      destruct (topicToSockets s !! topic) as [set0|] eqn:E; [|done]. cbn.
      case_decide; [|intros [= <-]; by apply (R1 topic)].
      case_decide as Hz; [done|]. intros [= <-] E'. apply Hz. rewrite E'. apply size_empty.
    + intros topic set id'. rewrite map_lookup_imap.
      destruct (topicToSockets s !! topic) as [set0|] eqn:E; [|done]. cbn.
      intros Hset Hin.
      assert (id' ∈ set0 /\ id' <> id) as [Hin0 Hne].
      { revert Hset. case_decide as Ht.
        - case_decide; [done|]. intros [= <-].
          apply elem_of_difference in Hin as [? Hn]. split; [done|].
          intros ->. apply Hn. by apply elem_of_singleton.
        - intros [= <-]. split; [done|]. intros ->. apply Ht.
          destruct (R2 topic set0 id E Hin) as (ws' & Hw' & _ & Hs' & _).
          rewrite Hw in Hw'. by injection Hw' as <-. }
      rewrite lookup_insert_ne by done. exact (R2 topic set0 id' E Hin0).
    + intros id' ws' topic. rewrite lookup_insert. case_decide as Ei.
      * intros [= <-]. cbn. intros Hin. split; [done|]. done.
      * intros Hw' Hin. destruct (R3 id' ws' topic Hw' Hin) as [Hh' Hreg].
        split; [done|]. intros Hc. destruct (Hreg Hc) as (set & Hl & Hin').
        rewrite map_lookup_imap, Hl. cbn. case_decide.
        -- assert (id' ∈ set ∖ {[id]}) as Hd.
           { apply elem_of_difference. split; [done|]. intros ?%elem_of_singleton. done. }
           case_decide as Hz.
           ++ apply size_empty_iff in Hz. rewrite Hz in Hd. by apply not_elem_of_empty in Hd.
           ++ by eexists.
        -- by exists set.
  - unfold registry_agrees. server_simpl. split; [exact R1|]. split.
    + intros topic set id' Hl Hin. destruct (R2 topic set id' Hl Hin) as (ws' & Hw' & Hh' & H).
      rewrite lookup_insert_ne; [by exists ws'|]. intros ->. congruence.
    + intros id' ws' topic. rewrite lookup_insert. case_decide as Ei.
      * intros [= <-]. cbn. intros Hin. destruct (R3 id ws topic Hw Hin) as [? _]. congruence.
      * apply R3.
Qed.

Lemma handleEvents_topicToSockets (tid : nat) (events : list event) (from : caller)
    (s : server) :
  topicToSockets (handleEvents tid events from s) = topicToSockets s.
Proof.
  unfold handleEvents. destruct events; [|done].
  by destruct (resolve_jobs_only tid [] from s) as [js ->].
Qed.

Lemma handleEvents_windows_topicToSockets (tid : nat) (events : list event) (now : Z)
    (deltas : list (string * serialized)) (remaining : list Z) (from : caller)
    (s : server) :
  topicToSockets (handleEvents_windows tid events now deltas remaining from s)
  = topicToSockets s.
Proof.
  destruct remaining as [|w rest].
  - cbn [handleEvents_windows].
    by destruct (finished_fields tid events from "dashboard:global" (agg_delta deltas)
                   (with_tasks (delete tid (tasks s)) s)) as (_ & -> & _).
  - by rewrite handleEvents_windows_cons.
Qed.

(** The sockets after a call of [handleEvents] moved on: as before while
    windows remain; after the last one, the sockets listed under the global
    topic that are open and not backed up were sent the deltas. *)
Lemma handleEvents_windows_lookup (tid : nat) (events : list event) (now : Z)
    (deltas : list (string * serialized)) (remaining : list Z) (from : caller)
    (s : server) (id : nat) :
  sockets (handleEvents_windows tid events now deltas remaining from s) !! id
  = match remaining with
    | [] =>
        (fun ws =>
           if bool_decide (id ∈ default ∅ (topicToSockets s !! "dashboard:global"))
              && writable ws
           then ws_send (agg_delta deltas) ws else ws) <$> sockets s !! id
    | _ :: _ => sockets s !! id
    end.
Proof.
  destruct remaining as [|w rest].
  - cbn [handleEvents_windows]. rewrite resolve_sockets. by rewrite broadcast_lookup.
  - by rewrite handleEvents_windows_cons.
Qed.

Lemma handleEvents_windows_membership (tid : nat) (events : list event) (now : Z)
    (deltas : list (string * serialized)) (remaining : list Z) (from : caller)
    (s : server) (id : nat) :
  option_Forall2 same_membership (sockets s !! id)
    (sockets (handleEvents_windows tid events now deltas remaining from s) !! id).
Proof.
  rewrite handleEvents_windows_lookup. destruct remaining; [|apply option_Forall2_same].
  destruct (sockets s !! id) as [ws|]; constructor.
  destruct (_ && _); [apply ws_send_membership | apply same_membership_refl].
Qed.

Section Registry.
Context {P : Platform} (env : gmap string string) (MAX_MSG_BYTES : Z).

Local Abbreviation step := (step env MAX_MSG_BYTES).
Local Abbreviation reachable := (reachable env MAX_MSG_BYTES).

Lemma step_registry_agrees (l : label) (s : server) :
  registry_agrees s -> registry_agrees (step l s).
Proof.
  intros Hok.
  destruct (step_cases env MAX_MSG_BYTES l s)
    as [->|[(id & ws0 & Hj & Hn & Hws0 & ->)|[(id & ws & topic & now & Hw & Hh & Ho & ->)
       |[(tid & Hf & ->)|[(tid & rs & from & Hf & Hv & Hj & ->)|[(id & ws & Hw & Ho & ->)
       |[(id & ws & Hj & Hw & Hc & ->)|[(id & amount & Hj & ->)
       |[(rid & r & Hj & Hf & Hr & Hr' & ->)
       |[(tid & events & from & ok & now & Hj & Ht & ->)
       |[(tid & events & now & deltas & w & rest & from & Hj & Ht & [->| ->])
       |[(now & Hj & ->)|(j & js & Hj & ->)]]]]]]]]]]]].
  - done.
  - apply registry_agrees_connection; [done| |done].
    by destruct Hws0 as [->|[decoded ->]].
  - apply (registry_agrees_frame (subscribe id topic s)); [done| intros; apply option_Forall2_same |].
    by apply (registry_agrees_subscribe s id ws).
  - apply (registry_agrees_frame s); [done| intros; apply option_Forall2_same | done].
  - apply (registry_agrees_frame s);
      [apply handleEvents_topicToSockets
      | intros; rewrite handleEvents_sockets; apply option_Forall2_same | done].
  - apply registry_agrees_sockets; [|done]. intros id'. rewrite lookup_insert.
    case_decide; [|apply option_Forall2_same]. subst. rewrite Hw. constructor.
    unfold same_membership. cbn. rewrite Ho. done.
  - by apply registry_agrees_close.
  - apply registry_agrees_sockets; [|done]. intros id'. apply option_Forall2_alter.
    intros ws. by split.
  - apply (registry_agrees_frame s); [done| intros; apply option_Forall2_same | done].
  - eapply registry_agrees_frame;
      [apply handleEvents_windows_topicToSockets
      | intros; apply handleEvents_windows_membership |].
    destruct ok; [|done].
    apply (registry_agrees_frame s); [done| intros; apply option_Forall2_same | done].
  - eapply registry_agrees_frame;
      [apply handleEvents_windows_topicToSockets
      | intros; apply handleEvents_windows_membership |].
    apply (registry_agrees_frame s); [done| intros; apply option_Forall2_same | done].
  - apply (registry_agrees_frame s); [done| intros; apply option_Forall2_same | done].
  - apply (registry_agrees_frame s); [done| intros; apply option_Forall2_same | done].
  - destruct j as [id snapshot|rid n]; cbn [run_job].
    + apply (registry_agrees_frame s); [done| |done]. intros id'. server_simpl.
      apply option_Forall2_alter. apply ws_send_membership.
    + apply (registry_agrees_frame s); [done| intros; apply option_Forall2_same | done].
Qed.

Lemma reachable_registry_agrees (s : server) : reachable s -> registry_agrees s.
Proof.
  induction 1 as [raw aggs|l s Hs IH]; [|by apply step_registry_agrees].
  unfold registry_agrees, init. server_simpl.
  split; [|split]; intros *; by rewrite lookup_empty.
Qed.
End Registry.

(** ** Frames and answers *)

Lemma snapshot_three_windows (mw : gmap (Z * Z) entry) (now : Z) :
  three_windows (latestAggregatesSnapshot mw now).
Proof. reflexivity. Qed.

Lemma task_ok_last (events : list event) (now : Z) (deltas : list (string * serialized))
    (w : Z) (from : caller) :
  task_ok (AwaitUpsert events now deltas w [] from) -> three_windows deltas.
Proof.
  intros [_ (before & Hw & Hk)]. unfold three_windows. rewrite Hk, <- Hw. reflexivity.
Qed.

Lemma handleEvents_jobs (tid : nat) (events : list event) (from : caller) (s : server) :
  events <> [] -> jobs (handleEvents tid events from s) = jobs s.
Proof. by destruct events. Qed.

Lemma handleEvents_responses (tid : nat) (events : list event) (from : caller) (s : server) :
  responses (handleEvents tid events from s) = responses s.
Proof.
  unfold handleEvents. destruct events; [|done].
  by destruct (resolve_jobs_only tid [] from s) as [js ->].
Qed.

Lemma handleEvents_windows_jobs (tid : nat) (events : list event) (now : Z)
    (deltas : list (string * serialized)) (remaining : list Z) (from : caller)
    (s : server) :
  jobs (handleEvents_windows tid events now deltas remaining from s)
  = match remaining, from with
    | [], FromHttp => jobs s ++ [Respond tid (length events)]
    | _, _ => jobs s
    end.
Proof.
  destruct remaining as [|w rest].
  - cbn [handleEvents_windows].
    destruct (broadcast_sockets_only "dashboard:global" (agg_delta deltas)
                (with_tasks (delete tid (tasks s)) s)) as [socks ->].
    by destruct from.
  - rewrite handleEvents_windows_cons. by destruct from.
Qed.

Lemma handleEvents_windows_responses (tid : nat) (events : list event) (now : Z)
    (deltas : list (string * serialized)) (remaining : list Z) (from : caller)
    (s : server) :
  responses (handleEvents_windows tid events now deltas remaining from s) = responses s.
Proof.
  destruct remaining as [|w rest].
  - cbn [handleEvents_windows].
    by destruct (finished_fields tid events from "dashboard:global" (agg_delta deltas)
                   (with_tasks (delete tid (tasks s)) s)) as (_ & _ & _ & _ & _ & -> & _).
  - by rewrite handleEvents_windows_cons.
Qed.

Lemma sent_ok_same (ws ws' : socket) :
  sent ws' = sent ws -> subscriptions ws ⊆ subscriptions ws' -> sent_ok ws -> sent_ok ws'.
Proof.
  intros Hs Hsub Hok f Hf. rewrite Hs in Hf. destruct (Hok f Hf) as [H1 H2].
  split; [done|]. intros data E. by apply Hsub, (H2 data).
Qed.

Lemma sent_ok_send (f : frame) (ws : socket) :
  three_windows (frame_data f) ->
  (forall data, f = agg_delta data -> "dashboard:global" ∈ subscriptions ws) ->
  sent_ok ws -> sent_ok (ws_send f ws).
Proof.
  intros H3 Hd Hok. unfold ws_send. case_decide; [|done].
  intros f'. cbn. intros [Hf| ->%list_elem_of_singleton]%elem_of_app; [by apply Hok|].
  by split.
Qed.

Lemma protocol_ok_frame (s s' : server) :
  sockets s' = sockets s -> jobs s' = jobs s -> responses s' = responses s ->
  protocol_ok s -> protocol_ok s'.
Proof. unfold protocol_ok. by intros -> -> ->. Qed.

Lemma protocol_ok_windows (tid : nat) (events : list event) (now : Z)
    (deltas : list (string * serialized)) (w : Z) (remaining : list Z) (from : caller)
    (s s0 : server) :
  tasks s0 !! tid = Some (AwaitUpsert events now deltas w remaining from)
  \/ remaining <> [] ->
  map_Forall (fun _ t => task_ok t) (tasks s0) -> batch_ok events ->
  registry_agrees s -> protocol_ok s ->
  protocol_ok (handleEvents_windows tid events now deltas remaining from s).
Proof.
  intros Ht Htasks [Hne _] (_ & R2 & _) (F1 & F2 & F3). unfold protocol_ok.
  rewrite handleEvents_windows_jobs, handleEvents_windows_responses.
  split; [|split; [|done]].
  - intros id ws'. rewrite handleEvents_windows_lookup.
    destruct remaining as [|w' rest]; [|apply F1].
    destruct Ht as [Ht|]; [|done].
    destruct (sockets s !! id) as [ws|] eqn:Ew; [|done]. cbn. intros [= <-].
    pose proof (F1 id ws Ew) as Hok.
    destruct (bool_decide _) eqn:Hin; [|done]. apply bool_decide_eq_true in Hin.
    destruct (writable ws); [|done]. cbn [andb].
    apply sent_ok_send; [|intros data _|done].
    + apply (task_ok_last events now deltas w from). exact (Htasks tid _ Ht).
    + destruct (topicToSockets s !! "dashboard:global") as [set|] eqn:Et; cbn in Hin;
        [|by apply not_elem_of_empty in Hin].
      destruct (R2 _ set id Et Hin) as (ws0 & Hw0 & _ & Hsub & _).
      rewrite Ew in Hw0. by injection Hw0 as <-.
  - destruct remaining; [|done]. destruct from; [|done].
    apply Forall_app. split; [done|]. constructor; [|constructor].
    cbn. destruct events; [done|]. cbn. lia.
Qed.

Section Protocol.
Context {P : Platform} (env : gmap string string) (MAX_MSG_BYTES : Z).

Local Abbreviation step := (step env MAX_MSG_BYTES).
Local Abbreviation reachable := (reachable env MAX_MSG_BYTES).

Lemma step_protocol_ok (l : label) (s : server) :
  map_Forall (fun _ t => task_ok t) (tasks s) -> registry_agrees s ->
  protocol_ok s -> protocol_ok (step l s).
Proof.
  intros Htasks Hreg Hok. pose proof Hok as (F1 & F2 & F3).
  destruct (step_cases env MAX_MSG_BYTES l s)
    as [->|[(id & ws0 & Hj & Hn & Hws0 & ->)|[(id & ws & topic & now & Hw & Hh & Ho & ->)
       |[(tid & Hf & ->)|[(tid & rs & from & Hf & Hv & Hj & ->)|[(id & ws & Hw & Ho & ->)
       |[(id & ws & Hj & Hw & Hc & ->)|[(id & amount & Hj & ->)
       |[(rid & r & Hj & Hf & Hr & Hr' & ->)
       |[(tid & events & from & ok & now & Hj & Ht & ->)
       |[(tid & events & now & deltas & w & rest & from & Hj & Ht & [->| ->])
       |[(now & Hj & ->)|(j & js & Hj & ->)]]]]]]]]]]]].
  - done.
  - (* connection *)
    unfold protocol_ok. server_simpl. split; [|done].
    apply map_Forall_insert_2; [|done].
    intros f Hf. destruct Hws0 as [->|[decoded ->]]; by apply elem_of_nil in Hf.
  - (* subscribe *)
    unfold protocol_ok, subscribe. server_simpl. split; [|split; [|done]].
    + intros id' ws'. rewrite lookup_alter. case_decide; [|apply F1].
      subst id'. rewrite Hw. cbn. intros [= <-].
      apply (sent_ok_same ws); [done| |by apply (F1 id)].
      cbn. apply union_subseteq_l.
    + apply Forall_app. split; [done|]. constructor; [|constructor].
      apply snapshot_three_windows.
  - (* a listener throws *)
    by apply (protocol_ok_frame s).
  - (* a batch enters *)
    apply (protocol_ok_frame s);
      [apply handleEvents_sockets | by apply handleEvents_jobs
      | apply handleEvents_responses | done].
  - (* closing *)
    unfold protocol_ok. server_simpl. split; [|done].
    apply map_Forall_insert_2; [|done]. by apply (sent_ok_same ws), (F1 id).
  - (* close *)
    unfold on_close, unsubscribe_all, protocol_ok.
    destruct (handlers ws); server_simpl; (split; [|done]);
      (apply map_Forall_insert_2; [|done]); by apply (sent_ok_same ws), (F1 id).
  - (* buffered *)
    unfold protocol_ok. server_simpl. split; [|done].
    intros id' ws'. rewrite lookup_alter. case_decide; [|apply F1].
    subst id'. destruct (sockets s !! id) as [ws|] eqn:Ew; [|done]. cbn. intros [= <-].
    by apply (sent_ok_same ws), (F1 id).
  - (* answered at once *)
    unfold protocol_ok. server_simpl. split; [done|]. split; [done|].
    by apply map_Forall_insert_2.
  - (* insert answered *)
    apply (protocol_ok_windows tid events now [] 1 WINDOW_SIZES from _ s);
      [by right | done | by destruct (Htasks tid _ Ht) | |].
    + destruct ok; [|done].
      apply (registry_agrees_frame s); [done| intros; apply option_Forall2_same | done].
    + destruct ok; [|done]. by apply (protocol_ok_frame s).
  - (* upsert answered *)
    apply (protocol_ok_windows tid events now deltas w rest from _ s);
      [by left | done | by destruct (Htasks tid _ Ht) | |].
    + apply (registry_agrees_frame s); [done| intros; apply option_Forall2_same | done].
    + by apply (protocol_ok_frame s).
  - (* upsert failed *)
    by apply (protocol_ok_frame s).
  - (* janitor *)
    by apply (protocol_ok_frame s).
  - (* job *)
    rewrite Hj in F2. apply Forall_cons in F2 as [Hjob F2].
    destruct j as [id snapshot|rid n]; unfold protocol_ok; cbn [run_job]; server_simpl.
    + split; [|done]. intros id' ws'. rewrite lookup_alter. case_decide; [|apply F1].
      subst id'. destruct (sockets s !! id) as [ws|] eqn:Ew; [|done]. cbn. intros [= <-].
      apply sent_ok_send; [done|done|by apply (F1 id)].
    + split; [done|]. split; [done|]. apply map_Forall_insert_2; [|done].
      unfold response_ok. cbn. done.
Qed.

Lemma reachable_protocol_ok (s : server) : reachable s -> protocol_ok s.
Proof.
  induction 1 as [raw aggs|l s Hs IH].
  - unfold protocol_ok, init. server_simpl.
    split; [apply map_Forall_empty|]. split; [constructor | apply map_Forall_empty].
  - apply step_protocol_ok; [|by apply (reachable_registry_agrees env MAX_MSG_BYTES)|done].
    by destruct (reachable_wf env MAX_MSG_BYTES s Hs).
Qed.
End Protocol.

(** ** The life of a socket *)

Lemma socket_evolves_refl (ws : socket) : socket_evolves ws ws.
Proof. unfold socket_evolves. repeat split; auto. Qed.

Lemma socket_evolves_trans (a b c : socket) :
  socket_evolves a b -> socket_evolves b c -> socket_evolves a c.
Proof.
  intros (U1 & H1 & C1 & S1 & P1 & N1 & D1) (U2 & H2 & C2 & S2 & P2 & N2 & D2).
  unfold socket_evolves. split; [congruence|]. split; [congruence|]. split; [congruence|].
  split; [by etrans|]. split; [by etrans|]. split; [|auto].
  intros Ha. destruct (N1 Ha) as (Hb & E1 & E2). destruct (N2 Hb) as (Hc & E3 & E4).
  split; [done|]. split; congruence.
Qed.

Lemma ws_send_evolves (f : frame) (ws : socket) : socket_evolves ws (ws_send f ws).
Proof.
  unfold ws_send. case_decide as Ho; [|apply socket_evolves_refl].
  unfold socket_evolves. cbn. repeat split; auto; try congruence.
  by apply prefix_app_r.
Qed.

Section SocketLife.
Context {P : Platform} (env : gmap string string) (MAX_MSG_BYTES : Z).

Local Abbreviation step := (step env MAX_MSG_BYTES).
Local Abbreviation run := (run env MAX_MSG_BYTES).

Lemma handleEvents_windows_evolves (tid : nat) (events : list event) (now : Z)
    (deltas : list (string * serialized)) (remaining : list Z) (from : caller)
    (s : server) (id : nat) (ws : socket) :
  sockets s !! id = Some ws ->
  exists ws', sockets (handleEvents_windows tid events now deltas remaining from s) !! id
              = Some ws' /\ socket_evolves ws ws'.
Proof.
  intros Hw. rewrite handleEvents_windows_lookup, Hw.
  destruct remaining; [|exists ws; split; [done|apply socket_evolves_refl]].
  cbn. eexists. split; [reflexivity|].
  destruct (_ && _); [apply ws_send_evolves | apply socket_evolves_refl].
Qed.

Lemma step_socket_evolves (l : label) (s : server) (id : nat) (ws : socket) :
  sockets s !! id = Some ws ->
  exists ws', sockets (step l s) !! id = Some ws' /\ socket_evolves ws ws'.
Proof.
  intros Hw.
  assert (forall s', sockets s' = sockets s ->
            exists ws', sockets s' !! id = Some ws' /\ socket_evolves ws ws') as Hsame.
  { intros s' ->. exists ws. split; [done|apply socket_evolves_refl]. }
  assert (forall id0 ws0,
            (id0 = id -> socket_evolves ws ws0) ->
            exists ws', <[id0 := ws0]> (sockets s) !! id = Some ws'
                        /\ socket_evolves ws ws') as Hins.
  { intros id0 ws0 He. rewrite lookup_insert. case_decide.
    - eexists. split; [reflexivity|]. by apply He.
    - exists ws. split; [done|apply socket_evolves_refl]. }
  assert (forall id0 (f : socket -> socket), (forall x, socket_evolves x (f x)) ->
            exists ws', alter f id0 (sockets s) !! id = Some ws'
                        /\ socket_evolves ws ws') as Halt.
  { intros id0 f Hf. rewrite lookup_alter. case_decide.
    - subst. rewrite Hw. cbn. eexists. split; [reflexivity|]. apply Hf.
    - exists ws. split; [done|apply socket_evolves_refl]. }
  destruct (step_cases env MAX_MSG_BYTES l s)
    as [->|[(id0 & ws0 & Hj & Hn & Hws0 & ->)|[(id0 & ws0 & topic & now & Hw0 & Hh & Ho & ->)
       |[(tid & Hf & ->)|[(tid & rs & from & Hf & Hv & Hj & ->)|[(id0 & ws0 & Hw0 & Ho & ->)
       |[(id0 & ws0 & Hj & Hw0 & Hc & ->)|[(id0 & amount & Hj & ->)
       |[(rid & r & Hj & Hf & Hr & Hr' & ->)
       |[(tid & events & from & ok & now & Hj & Ht & ->)
       |[(tid & events & now & deltas & w & rest & from & Hj & Ht & [->| ->])
       |[(now & Hj & ->)|(j & js & Hj & ->)]]]]]]]]]]]].
  - by apply Hsame.
  - server_simpl. rewrite lookup_insert_ne by congruence. by apply Hsame.
  - unfold subscribe. server_simpl. rewrite lookup_alter. case_decide.
    + subst id0. rewrite Hw. cbn. eexists. split; [reflexivity|].
      rewrite Hw in Hw0. injection Hw0 as <-.
      unfold socket_evolves. cbn. repeat split; auto; try congruence.
      apply union_subseteq_l.
    + by apply Hsame.
  - by apply Hsame.
  - apply Hsame. apply handleEvents_sockets.
  - server_simpl. apply Hins. intros ->. rewrite Hw in Hw0. injection Hw0 as <-.
    unfold socket_evolves. cbn. repeat split; auto; congruence.
  - unfold on_close, unsubscribe_all.
    destruct (handlers ws0); server_simpl; apply Hins; intros ->;
      rewrite Hw in Hw0; injection Hw0 as <-;
      unfold socket_evolves; cbn; repeat split; auto; congruence.
  - server_simpl. apply Halt. intros x. unfold socket_evolves. cbn. repeat split; auto.
  - by apply Hsame.
  - apply handleEvents_windows_evolves. by destruct ok.
  - by apply handleEvents_windows_evolves.
  - by apply Hsame.
  - by apply Hsame.
  - destruct j as [id0 snapshot|rid n]; cbn [run_job]; server_simpl; [|by apply Hsame].
    apply Halt. apply ws_send_evolves.
Qed.

Lemma run_socket_evolves (ls : list label) (s : server) (id : nat) (ws : socket) :
  sockets s !! id = Some ws ->
  exists ws', sockets (run ls s) !! id = Some ws' /\ socket_evolves ws ws'.
Proof.
  revert s ws. induction ls as [|l ls IH]; intros s ws Hw.
  - exists ws. split; [done|apply socket_evolves_refl].
  - rewrite run_cons. destruct (step_socket_evolves l s id ws Hw) as (ws1 & Hw1 & He1).
    destruct (IH _ _ Hw1) as (ws2 & Hw2 & He2). exists ws2. split; [done|].
    by apply (socket_evolves_trans ws ws1 ws2).
Qed.
End SocketLife.

Lemma on_close_topics (s : server) (id : nat) (ws : socket) (topic : string) :
  default ∅ (topicToSockets (on_close id ws s) !! topic)
  = if handlers ws && bool_decide (topic ∈ subscriptions ws)
    then default ∅ (topicToSockets s !! topic) ∖ {[id]}
    else default ∅ (topicToSockets s !! topic).
Proof.
  unfold on_close, unsubscribe_all. destruct (handlers ws); [|done]. server_simpl.
  rewrite map_lookup_imap. cbn [andb].
  destruct (topicToSockets s !! topic) as [set|]; cbn.
  - case_decide; [rewrite bool_decide_eq_true_2 | rewrite bool_decide_eq_false_2]; try done.
    case_decide as Hz; [|done]. cbn. apply size_empty_iff in Hz. by apply leibniz_equiv in Hz.
  - destruct (bool_decide _); [|done]. apply leibniz_equiv. intros x.
    rewrite elem_of_difference. split; [intros H'|intros [H' _]]; by apply not_elem_of_empty in H'.
Qed.

Section SocketTheorems.
Context {P : Platform} (env : gmap string string) (MAX_MSG_BYTES : Z).

Local Abbreviation step := (step env MAX_MSG_BYTES).
Local Abbreviation run := (run env MAX_MSG_BYTES).
Local Abbreviation reachable := (reachable env MAX_MSG_BYTES).

(** X12. In every reachable state the registry and the sockets agree: no
    topic is kept with an empty set; a socket listed under a topic belongs to
    an accepted connection, has the topic among its subscriptions and has not
    closed; and a socket with a topic among its subscriptions belongs to an
    accepted connection and is listed under the topic until its close. *)
Theorem registry_consistent (s : server) :
  reachable s ->
  (forall topic set, topicToSockets s !! topic = Some set -> set <> ∅)
  /\ (forall topic set id,
        topicToSockets s !! topic = Some set -> id ∈ set ->
        exists ws, sockets s !! id = Some ws /\ handlers ws = true
                   /\ topic ∈ subscriptions ws /\ readyState ws <> CLOSED)
  /\ (forall id ws topic,
        sockets s !! id = Some ws -> topic ∈ subscriptions ws ->
        handlers ws = true
        /\ (readyState ws <> CLOSED ->
            exists set, topicToSockets s !! topic = Some set /\ id ∈ set)).
Proof.
  induction 1 as [raw aggs|l s Hs IH].
  - unfold init. server_simpl. split; [|split]; intros *; by rewrite lookup_empty.
  - by apply (step_registry_agrees env MAX_MSG_BYTES l s).
Qed.

(** X16. Every frame the server ever sent carries exactly the three
    entries "1s", "5s" and "60s", in this order, and a socket that was sent a
    delta has the topic "dashboard:global" among its subscriptions: the
    subscribers of any other topic get their snapshot and nothing after
    it. *)
Theorem frames_well_formed (s : server) (id : nat) (ws : socket) (f : frame) :
  reachable s -> sockets s !! id = Some ws -> f ∈ sent ws ->
  JsMap.keys (frame_data f) = ["1s"; "5s"; "60s"]
  /\ forall data, f = agg_delta data -> "dashboard:global" ∈ subscriptions ws.
Proof.
  intros Hs Hw Hf. destruct (reachable_protocol_ok env MAX_MSG_BYTES s Hs) as (F1 & _).
  exact (F1 id ws Hw f Hf).
Qed.

(** X19. The answers that [authHttp] and the handlers of [GET /token] and
    [POST /ingest] give are of six kinds and no other: 200 with a token; 200
    with [{accepted: n}], where [n] is at least 1; 400 with 'empty payload'
    or 'no valid events'; 401 with 'missing token' or 'invalid token'. *)
Theorem answers_shape (s : server) (rid : nat) (r : response) :
  reachable s -> responses s !! rid = Some r ->
  (exists token, r = mkResponse 200 (Token token))
  \/ (exists n, (1 <= n)%nat /\ r = mkResponse 200 (Accepted n))
  \/ r = mkResponse 400 (ErrorBody "empty payload")
  \/ r = mkResponse 400 (ErrorBody "no valid events")
  \/ r = mkResponse 401 (ErrorBody "missing token")
  \/ r = mkResponse 401 (ErrorBody "invalid token").
Proof.
  intros Hs Hr. destruct (reachable_protocol_ok env MAX_MSG_BYTES s Hs) as (_ & _ & F3).
  pose proof (F3 rid r Hr) as Hok. destruct r as [st [e|n|token]];
    unfold response_ok in Hok; cbn in Hok.
  - destruct Hok as [[-> [-> | ->]]|[-> [-> | ->]]]; auto 10.
  - destruct Hok as [-> Hn]. right; left. by exists n.
  - subst st. left. by exists token.
Qed.

(** X14. Over any run of turns a socket stays the server's: its user, its
    listeners and its close code do not change, its subscriptions only grow,
    and what it was sent is only added to at the end.  Once it is no longer
    open it never is again, it is sent nothing more and subscribes to nothing
    more; once closed it stays closed. *)
Theorem socket_lifecycle (s : server) (ls : list label) (id : nat) (ws : socket) :
  sockets s !! id = Some ws ->
  exists ws', sockets (run ls s) !! id = Some ws'
    /\ user ws' = user ws /\ handlers ws' = handlers ws /\ closeCode ws' = closeCode ws
    /\ subscriptions ws ⊆ subscriptions ws'
    /\ sent ws `prefix_of` sent ws'
    /\ (readyState ws <> OPEN ->
        readyState ws' <> OPEN /\ sent ws' = sent ws
        /\ subscriptions ws' = subscriptions ws)
    /\ (readyState ws = CLOSED -> readyState ws' = CLOSED).
Proof.
  revert s ws. induction ls as [|l ls IH]; intros s ws Hw.
  - exists ws. split; [done|]. apply socket_evolves_refl.
  - rewrite run_cons.
    destruct (step_socket_evolves env MAX_MSG_BYTES l s id ws Hw) as (ws1 & Hw1 & He1).
    destruct (IH _ _ Hw1) as (ws2 & Hw2 & He2). exists ws2. split; [done|].
    exact (socket_evolves_trans ws ws1 ws2 He1 He2).
Qed.

(** X13. The 'close' listener on a reachable server: the socket leaves the
    set of every topic and no other socket leaves any; no topic is left with
    an empty set; the socket is closed, and whatever happens afterwards it is
    sent nothing more. *)
Theorem close_unsubscribes (s : server) (id : nat) (ws : socket) :
  reachable s -> jobs s = [] ->
  sockets s !! id = Some ws -> readyState ws <> CLOSED ->
  let s' := step (Close id) s in
  (forall topic,
     default ∅ (topicToSockets s' !! topic) = default ∅ (topicToSockets s !! topic) ∖ {[id]})
  /\ (forall topic set, topicToSockets s' !! topic = Some set -> set <> ∅)
  /\ sockets s' = <[id := with_readyState CLOSED ws]> (sockets s)
  /\ forall ls, sent <$> sockets (run ls s') !! id = Some (sent ws).
Proof.
  intros Hs Hj Hw Hc s'.
  assert (s' = on_close id ws s) as Es'.
  { subst s'. unfold step, when_idle. rewrite Hj, Hw. by rewrite decide_False. }
  assert (reachable s') as Hs' by (subst s'; by constructor).
  destruct (reachable_registry_agrees env MAX_MSG_BYTES s Hs) as (_ & R2 & R3).
  destruct (reachable_registry_agrees env MAX_MSG_BYTES s' Hs') as (R1' & _).
  assert (sockets s' = <[id := with_readyState CLOSED ws]> (sockets s)) as Esock.
  { rewrite Es'. unfold on_close, unsubscribe_all. by destruct (handlers ws). }
  split; [|split; [exact R1'|split; [exact Esock|]]].
  - intros topic. rewrite Es', on_close_topics.
    destruct (handlers ws && bool_decide (topic ∈ subscriptions ws)) eqn:E; [done|].
    apply leibniz_equiv. intros id'. rewrite elem_of_difference, elem_of_singleton.
    split; [|by intros [? _]]. intros Hin. split; [done|]. intros ->.
    destruct (topicToSockets s !! topic) as [set|] eqn:Et; cbn in Hin;
      [|by apply not_elem_of_empty in Hin].
    destruct (R2 topic set id Et Hin) as (ws0 & Hw0 & Hh & Hsub & _).
    rewrite Hw in Hw0. injection Hw0 as <-. rewrite Hh in E. cbn in E.
    by apply bool_decide_eq_false in E.
  - intros ls.
    assert (sockets s' !! id = Some (with_readyState CLOSED ws)) as Hw'
      by (rewrite Esock; apply lookup_insert_eq).
    destruct (run_socket_evolves env MAX_MSG_BYTES ls s' id _ Hw')
      as (ws2 & -> & _ & _ & _ & _ & _ & Hn & _).
    cbn. f_equal. by destruct Hn as (_ & -> & _).
Qed.
End SocketTheorems.

Lemma registry_consistent_witness :
  let s := with_dashboard (P:=stub) ∅ 32768 (dashboard_request "change_me.dashboard") in
  reachable (P:=stub) ∅ 32768 s
  /\ topicToSockets s !! "dashboard:global" = Some {[0%nat]}
  /\ forall topic set, topicToSockets s !! topic = Some set -> set <> ∅.
Proof.
  intros s.
  assert (reachable (P:=stub) ∅ 32768 s) as Hs by apply reachable_run, reachable_init.
  split; [exact Hs|]. split; [vm_compute; reflexivity|].
  by destruct (registry_consistent (P:=stub) ∅ 32768 s Hs) as (H & _).
Defined.

Lemma frames_well_formed_witness :
  let dashboard := dashboard_request "change_me.dashboard" in
  let post := bearer_request "change_me.u1" (Some (JArr [event_json sample_uuid "/" "view"])) in
  let s := run (P:=stub) ∅ 32768 (PostIngest 2 post t0 :: ingestion 2 true t0 ++ [RunJob])
               (with_dashboard (P:=stub) ∅ 32768 dashboard) in
  let f := agg_delta [("1s", one_view); ("5s", one_view); ("60s", one_view)] in
  let ws := mkSocket OPEN 0 (Some "dashboard") {["dashboard:global"]} true
              [agg_snapshot (latestAggregatesSnapshot ∅ t0); f] None in
  reachable (P:=stub) ∅ 32768 s
  /\ sockets s !! 0%nat = Some ws
  /\ f ∈ sent ws
  /\ JsMap.keys (frame_data f) = ["1s"; "5s"; "60s"].
Proof.
  intros dashboard post s f ws.
  assert (reachable (P:=stub) ∅ 32768 s) as Hs
    by (apply reachable_run, reachable_run, reachable_init).
  assert (sockets s !! 0%nat = Some ws) as Hw by (vm_compute; reflexivity).
  assert (f ∈ sent ws) as Hf by (apply elem_of_cons; right; apply elem_of_cons; by left).
  split; [exact Hs|]. split; [exact Hw|]. split; [exact Hf|].
  by destruct (frames_well_formed (P:=stub) ∅ 32768 s 0 ws f Hs Hw Hf) as [H _].
Defined.

Lemma answers_shape_witness :
  let dashboard := dashboard_request "change_me.dashboard" in
  let post := bearer_request "change_me.u1" (Some (JArr [event_json "A" "/" "view"])) in
  let s := run (P:=stub) ∅ 32768 [PostIngest 2 post t0]
               (with_dashboard (P:=stub) ∅ 32768 dashboard) in
  let r := mkResponse 400 (ErrorBody "no valid events") in
  reachable (P:=stub) ∅ 32768 s
  /\ responses s !! 2%nat = Some r
  /\ ((exists token, r = mkResponse 200 (Token token))
      \/ (exists n, (1 <= n)%nat /\ r = mkResponse 200 (Accepted n))
      \/ r = mkResponse 400 (ErrorBody "empty payload")
      \/ r = mkResponse 400 (ErrorBody "no valid events")
      \/ r = mkResponse 401 (ErrorBody "missing token")
      \/ r = mkResponse 401 (ErrorBody "invalid token")).
Proof.
  intros dashboard post s r.
  assert (reachable (P:=stub) ∅ 32768 s) as Hs
    by (apply reachable_run, reachable_run, reachable_init).
  assert (responses s !! 2%nat = Some r) as Hr by (vm_compute; reflexivity).
  split; [exact Hs|]. split; [exact Hr|].
  exact (answers_shape (P:=stub) ∅ 32768 s 2 r Hs Hr).
Defined.

Lemma socket_lifecycle_witness :
  let s := with_dashboard (P:=stub) ∅ 32768 (dashboard_request "change_me.dashboard") in
  let ws := mkSocket OPEN 0 (Some "dashboard") {["dashboard:global"]} true
              [agg_snapshot (latestAggregatesSnapshot ∅ t0)] None in
  sockets s !! 0%nat = Some ws
  /\ exists ws', sockets (run (P:=stub) ∅ 32768 [Closing 0; Close 0] s) !! 0%nat = Some ws'
       /\ user ws' = user ws /\ sent ws `prefix_of` sent ws'.
Proof.
  intros s ws.
  assert (sockets s !! 0%nat = Some ws) as Hw by (vm_compute; reflexivity).
  split; [exact Hw|].
  destruct (socket_lifecycle (P:=stub) ∅ 32768 s [Closing 0; Close 0] 0 ws Hw)
    as (ws' & H1 & H2 & _ & _ & _ & H3 & _).
  by exists ws'.
Defined.

Lemma close_unsubscribes_witness :
  let s := with_dashboard (P:=stub) ∅ 32768 (dashboard_request "change_me.dashboard") in
  let ws := mkSocket OPEN 0 (Some "dashboard") {["dashboard:global"]} true
              [agg_snapshot (latestAggregatesSnapshot ∅ t0)] None in
  reachable (P:=stub) ∅ 32768 s
  /\ jobs s = []
  /\ sockets s !! 0%nat = Some ws
  /\ readyState ws <> CLOSED
  /\ forall topic,
       default ∅ (topicToSockets (step (P:=stub) ∅ 32768 (Close 0) s) !! topic)
       = default ∅ (topicToSockets s !! topic) ∖ {[0%nat]}.
Proof.
  intros s ws.
  assert (reachable (P:=stub) ∅ 32768 s) as Hs by apply reachable_run, reachable_init.
  assert (jobs s = []) as Hj by (vm_compute; reflexivity).
  assert (sockets s !! 0%nat = Some ws) as Hw by (vm_compute; reflexivity).
  assert (readyState ws <> CLOSED) as Hc by discriminate.
  split; [exact Hs|]. split; [exact Hj|]. split; [exact Hw|]. split; [exact Hc|].
  by destruct (close_unsubscribes (P:=stub) ∅ 32768 s 0 ws Hs Hj Hw Hc) as (H & _).
Defined.

(** ** What a batch sends, and what a snapshot reads *)

Section Delivery.
Context {P : Platform} (env : gmap string string) (MAX_MSG_BYTES : Z).

Local Abbreviation step := (step env MAX_MSG_BYTES).
Local Abbreviation run := (run env MAX_MSG_BYTES).

(** X15. What a batch sends.  Once MongoDB has answered the insert and the
    three upserts of a call of [handleEvents], every socket listed under
    "dashboard:global" that is open and has less than 1,000,000 bytes queued
    was sent the delta of the batch, once, at the end of what it was sent
    before; every other socket, a slow or closing subscriber among them, is
    as it was: the delta it missed is not sent later.  The registry is as it
    was. *)
Theorem delta_delivery (s : server) (tid : nat) (events : list event) (from : caller)
    (ok : bool) (now : Z) :
  tasks s !! tid = Some (AwaitInsert events from) ->
  jobs s = [] ->
  let s' := run (ingestion tid ok now) s in
  let delta := agg_delta (snd (windows_run events now (memoryWindows s))) in
  (forall id ws,
     sockets s !! id = Some ws ->
     id ∈ default ∅ (topicToSockets s !! "dashboard:global") ->
     readyState ws = OPEN -> bufferedAmount ws < 1000000 ->
     sockets s' !! id = Some (ws_send delta ws)
     /\ sent (ws_send delta ws) = sent ws ++ [delta])
  /\ (forall id ws,
        sockets s !! id = Some ws ->
        id ∉ default ∅ (topicToSockets s !! "dashboard:global")
        \/ readyState ws <> OPEN \/ 1000000 <= bufferedAmount ws ->
        sockets s' !! id = Some ws)
  /\ (forall id, sockets s !! id = None -> sockets s' !! id = None)
  /\ topicToSockets s' = topicToSockets s.
Proof.
  intros Ht Hj s' delta.
  assert (forall id,
            sockets s' !! id
            = (fun ws =>
                 if bool_decide (id ∈ default ∅ (topicToSockets s !! "dashboard:global"))
                    && writable ws
                 then ws_send delta ws else ws) <$> sockets s !! id) as Hl.
  { intros id. subst s'.
    rewrite (ingestion_run env MAX_MSG_BYTES s tid events from ok now Ht Hj).
    rewrite resolve_sockets. by rewrite broadcast_lookup. }
  split; [|split; [|split]].
  - intros id ws Hw Hin Ho Hb. rewrite Hl, Hw. cbn.
    rewrite bool_decide_eq_true_2 by done. unfold writable.
    rewrite bool_decide_eq_true_2 by done.
    replace (bufferedAmount ws <? 1000000) with true by (symmetry; lia).
    split; [done|]. rewrite ws_send_sent. by rewrite decide_True.
  - intros id ws Hw Hc. rewrite Hl, Hw. cbn. f_equal.
    destruct Hc as [Hc|[Hc|Hc]].
    + by rewrite bool_decide_eq_false_2.
    + unfold writable. rewrite (bool_decide_eq_false_2 _ Hc). cbn.
      by rewrite andb_false_r.
    + unfold writable. replace (bufferedAmount ws <? 1000000) with false by (symmetry; lia).
      by rewrite !andb_false_r.
  - intros id Hn. by rewrite Hl, Hn.
  - subst s' delta.
    rewrite (ingestion_run env MAX_MSG_BYTES s tid events from ok now Ht Hj).
    by destruct (finished_fields tid events from "dashboard:global"
      (agg_delta (snd (windows_run events now (memoryWindows s))))
      (mkServer (fst (windows_run events now (memoryWindows s)))
                (topicToSockets s) (sockets s)
                (if ok then insertMany events (eventsCol s) else eventsCol s)
                (upserts_run events now (aggCol s))
                (delete tid (tasks s)) [] (responses s) (rejected s))) as (_ & -> & _).
Qed.
End Delivery.

Lemma delta_delivery_witness :
  let dashboard := dashboard_request "change_me.dashboard" in
  let post := bearer_request "change_me.u1" (Some (JArr [event_json sample_uuid "/" "view"])) in
  let s := step (P:=stub) ∅ 32768 (PostIngest 2 post t0)
                (with_dashboard (P:=stub) ∅ 32768 dashboard) in
  let ws := mkSocket OPEN 0 (Some "dashboard") {["dashboard:global"]} true
              [agg_snapshot (latestAggregatesSnapshot ∅ t0)] None in
  let delta := agg_delta (snd (windows_run [validated sample_uuid "/" "view"] t0
                                           (memoryWindows s))) in
  tasks s !! 2%nat = Some (AwaitInsert [validated sample_uuid "/" "view"] FromHttp)
  /\ jobs s = []
  /\ sockets s !! 0%nat = Some ws
  /\ sockets (run (P:=stub) ∅ 32768 (ingestion 2 true t0) s) !! 0%nat
     = Some (ws_send delta ws).
Proof.
  intros dashboard post s ws delta.
  assert (tasks s !! 2%nat
          = Some (AwaitInsert [validated sample_uuid "/" "view"] FromHttp)) as Ht
    by (vm_compute; reflexivity).
  assert (jobs s = []) as Hj by (vm_compute; reflexivity).
  assert (sockets s !! 0%nat = Some ws) as Hw by (vm_compute; reflexivity).
  split; [exact Ht|]. split; [exact Hj|]. split; [exact Hw|].
  destruct (delta_delivery (P:=stub) ∅ 32768 s 2 _ FromHttp true t0 Ht Hj) as (H & _).
  apply (H 0%nat ws Hw); [vm_compute; reflexivity | reflexivity | reflexivity].
Defined.

Lemma getBucketStart_same_second (now now' w : Z) :
  0 < w -> now' / 1000 = now / 1000 -> getBucketStart now' w = getBucketStart now w.
Proof.
  intros Hw H. unfold getBucketStart. cbv zeta.
  replace (w * 1000) with (1000 * w) by lia.
  rewrite <- !Z.div_div by lia. by rewrite H.
Qed.

(** X9. A snapshot taken in the second in which a batch went into the
    windows reads what the delta of the batch carried, for each of the three
    windows. *)
Theorem snapshot_matches_delta (events : list event) (now now' : Z)
    (mw : gmap (Z * Z) entry) :
  now' / 1000 = now / 1000 ->
  latestAggregatesSnapshot (fst (windows_run events now mw)) now'
  = snd (windows_run events now mw).
Proof.
  intros H. rewrite windows_run_eq. cbn [fst snd].
  unfold latestAggregatesSnapshot, WINDOW_SIZES. cbn [map].
  rewrite !(getBucketStart_same_second now now') by (done || lia).
  unfold bucket_of.
  rewrite lookup_insert_eq.
  rewrite (lookup_insert_ne _ (60, _) (5, _)) by congruence.
  rewrite lookup_insert_eq.
  rewrite (lookup_insert_ne _ (60, _) (1, _)) by congruence.
  rewrite (lookup_insert_ne _ (5, _) (1, _)) by congruence.
  rewrite lookup_insert_eq. reflexivity.
Qed.

Lemma snapshot_matches_delta_witness :
  (t0 + 999) / 1000 = t0 / 1000
  /\ latestAggregatesSnapshot
       (fst (windows_run [validated sample_uuid "/" "view"] t0 ∅)) (t0 + 999)
     = [("1s", one_view); ("5s", one_view); ("60s", one_view)].
Proof.
  assert ((t0 + 999) / 1000 = t0 / 1000) as H by reflexivity.
  split; [exact H|].
  rewrite (snapshot_matches_delta [validated sample_uuid "/" "view"] t0 (t0 + 999) ∅ H).
  vm_compute. reflexivity.
Defined.

(** ** Messages *)

Lemma is_str_spec (v : option json) (s : string) :
  is_str v s = true <-> v = Some (JStr s).
Proof.
  destruct v as [[]|]; simpl; try (split; [done | by intros [=]]).
  rewrite String.eqb_eq. split; [by intros -> | by intros [= ->]].
Qed.

Section Messages.
Context {P : Platform} (env : gmap string string) (MAX_MSG_BYTES : Z).

Local Abbreviation step := (step env MAX_MSG_BYTES).
Local Abbreviation run := (run env MAX_MSG_BYTES).

(** X17. What a message can do.  The turn of a message changes the state
    only if the socket is an open one of an accepted connection and the
    message is text of no more than [MAX_MSG_BYTES] characters that parses
    to [null], on which the listener throws; or to an object that is a
    subscribe request with a string for topic, or an events request with an
    array of which at least one record passes validation.  Anything else is
    dropped without a trace.  In no case does the turn itself send a frame,
    answer a request, or touch the windows or the raw events. *)
Theorem message_effects (s : server) (id : nat) (data : ws_data) (tid : nat) (now : Z) :
  let s' := step (Message id data tid now) s in
  (s' <> s ->
   isBinary data = false /\ text_length data <= MAX_MSG_BYTES
   /\ (exists ws, sockets s !! id = Some ws /\ handlers ws = true /\ readyState ws = OPEN)
   /\ (parsed data = Some JNull
       \/ exists msg, parsed data = Some (JObj msg)
            /\ ((JsMap.get "type" msg = Some (JStr "subscribe")
                 /\ exists topic, JsMap.get "topic" msg = Some (JStr topic))
                \/ (JsMap.get "type" msg = Some (JStr "events")
                    /\ exists records, JsMap.get "events" msg = Some (JArr records)
                                       /\ validate_all records <> []))))
  /\ (forall id', sent <$> sockets s' !! id' = sent <$> sockets s !! id')
  /\ responses s' = responses s
  /\ memoryWindows s' = memoryWindows s
  /\ eventsCol s' = eventsCol s.
Proof.
  intros s'. subst s'. unfold step.
  destruct (sockets s !! id) as [ws|] eqn:Ew; [|by repeat split].
  destruct (handlers ws) eqn:Hh; [|by repeat split].
  destruct (bool_decide (readyState ws = OPEN)) eqn:Ho; [|by repeat split].
  apply bool_decide_eq_true in Ho.
  destruct (fresh tid s) eqn:Hf; [|by repeat split]. cbn [andb].
  unfold on_message.
  destruct (isBinary data) eqn:Hb; [by repeat split|].
  destruct (MAX_MSG_BYTES <? text_length data) eqn:Hl; [by repeat split|].
  apply Z.ltb_ge in Hl.
  destruct (parsed data) as [[| | | | |msg]|] eqn:Hp; try (by repeat split).
  - (* null *)
    split; [|by repeat split]. intros _. split; [done|]. split; [done|].
    split; [by exists ws|]. by left.
  - destruct (is_str (JsMap.get "type" msg) "subscribe") eqn:Hs.
    + apply is_str_spec in Hs.
      destruct (JsMap.get "topic" msg) as [[| | |topic| |]|] eqn:Ht; try (by repeat split).
      split; [|split; [|by repeat split]].
      * intros _. split; [done|]. split; [done|]. split; [by exists ws|].
        right. exists msg. split; [done|]. left. split; [done|]. by exists topic.
      * intros id'. unfold subscribe. server_simpl. rewrite lookup_alter.
        case_decide; [|done]. subst. by rewrite Ew.
    + destruct (is_str (JsMap.get "type" msg) "events") eqn:He; [|by repeat split].
      apply is_str_spec in He.
      destruct (JsMap.get "events" msg) as [[| | | |records|]|] eqn:Hr; try (by repeat split).
      destruct (validate_all records) as [|ev valid] eqn:Hv; [by repeat split|].
      split; [|by repeat split].
      intros _. split; [done|]. split; [done|]. split; [by exists ws|].
      right. exists msg. split; [done|]. right. split; [done|]. exists records.
      split; [done|]. by rewrite Hv.
Qed.
End Messages.

Section TwoTransports.
Context {P : Platform} (env : gmap string string) (MAX_MSG_BYTES : Z).

Local Abbreviation step := (step env MAX_MSG_BYTES).
Local Abbreviation run := (run env MAX_MSG_BYTES).


End TwoTransports.


(** ** The secret and the tokens of [GET /token] *)

Lemma JWT_SECRET_spec (env : gmap string string) :
  JWT_SECRET env
  = match env !! "JWT_SECRET" with
    | Some v => if String.eqb v "" then "change_me" else v
    | None => "change_me"
    end.
Proof.
  unfold JWT_SECRET, js_or, truthy_str.
  destruct (env !! "JWT_SECRET") as [v|]; [|done]. by destruct (String.eqb v "").
Qed.

Section Tokens.
Context {P : Platform} {L : PlatformLaws P} (env : gmap string string) (MAX_MSG_BYTES : Z).

Local Abbreviation step := (step env MAX_MSG_BYTES).

(** X20. The secret is never empty: an empty [JWT_SECRET] in the
    environment counts as none and gives 'change_me'.  And whatever the
    secret, for a query string that is empty or holds the one parameter
    [userId] (so that [req.query.userId] is undefined or a string), the token
    [GET /token] issues is for that [userId], or for 'demo-user' when there
    is none or an empty one, and until its twelve hours are over it
    authenticates as that user on both transports: as bearer token of a
    request, in the header or in the query string of a connection, which is
    then accepted with that user. *)
Theorem token_round_trip (req : request) (query : list (string * string))
    (now now' : Z) :
  url req = Url query ->
  only_userId query ->
  now' / 1000 < now / 1000 + 12 * 3600 ->
  JWT_SECRET env <> ""
  /\ (env !! "JWT_SECRET" = Some "" -> JWT_SECRET env = "change_me")
  /\ exists who token,
      token_handler env req now = mkResponse 200 (Token token)
      /\ who <> ""
      /\ (query = [("userId", who)]
          \/ who = "demo-user" /\ (query = [] \/ query = [("userId", "")]))
      /\ (forall payload,
            authHttp env (bearer_request token payload) now' = inr (mkClaims (Some who))
            /\ authWsFromReq env (bearer_request token payload) now'
               = Some (mkClaims (Some who)))
      /\ authWsFromReq env (dashboard_request token) now' = Some (mkClaims (Some who))
      /\ forall s id, jobs s = [] -> sockets s !! id = None ->
           step (Connection id (dashboard_request token) now') s
           = with_sockets (<[id := mkSocket OPEN 0 (Some who) ∅ true [] None]> (sockets s)) s.
Proof.
  intros Hurl Hq Ht. split; [|split].
  - rewrite JWT_SECRET_spec. destruct (env !! "JWT_SECRET") as [v|]; [|done].
    destruct (String.eqb v "") eqn:E; [done|]. by apply String.eqb_neq.
  - intros E. by rewrite JWT_SECRET_spec, E.
  - set (userId := js_or (JsMap.get "userId" query) None).
    set (who := default "demo-user" userId).
    set (token := jwt_sign who (JWT_SECRET env) now (12 * 3600)).
    assert (token_handler env req now = mkResponse 200 (Token token)) as Hh.
    { unfold token_handler. by rewrite Hurl. }
    assert (who <> ""
            /\ (query = [("userId", who)]
                \/ who = "demo-user" /\ (query = [] \/ query = [("userId", "")])))
      as [Hwho Hfrom].
    { subst who userId. destruct Hq as [-> | [u ->]].
      - cbn. split; [done|]. right. split; [done|by left].
      - destruct (String.eqb u "") eqn:E.
        + apply String.eqb_eq in E as ->. cbn. split; [done|]. right. split; [done|by right].
        + assert (js_or (JsMap.get "userId" [("userId", u)]) None = Some u) as ->.
          { unfold js_or, truthy_str. cbn. by rewrite E. }
          cbn. apply String.eqb_neq in E. split; [done|by left]. }
    assert (token <> "") as Hne by (by apply (signed_nonempty who _ now _ now')).
    pose proof (jwt_verify_sign who (JWT_SECRET env) now (12 * 3600) now' Ht) as Hv.
    fold token in Hv.
    exists who, token. split; [done|]. split; [done|]. split; [done|].
    assert (authWsFromReq env (dashboard_request token) now' = Some (mkClaims (Some who)))
      as Hws.
    { unfold authWsFromReq. by rewrite dashboard_request_token, Hv. }
    split; [|split; [exact Hws|]].
    + intros payload. destruct (bearer_request_token token payload Hne) as [H1 H2].
      unfold authHttp, authWsFromReq. by rewrite H1, H2, Hv.
    + intros s id Hj Hn. rewrite (step_Connection env MAX_MSG_BYTES) by done.
      unfold on_connection. rewrite Hws. unfold accepted_socket. cbn [sub].
      rewrite js_or_truthy by (by apply truthy_str_true). done.
Qed.
End Tokens.

Lemma token_round_trip_witness :
  let query := [("userId", "u7")] in
  let req := mkRequest ∅ (Url query) None in
  only_userId query
  /\ t0 / 1000 < t0 / 1000 + 12 * 3600
  /\ JWT_SECRET {["JWT_SECRET" := ""]} = "change_me"
  /\ exists token,
       token_handler (P:=stub) {["JWT_SECRET" := ""]} req t0 = mkResponse 200 (Token token)
       /\ authHttp (P:=stub) {["JWT_SECRET" := ""]} (bearer_request token None) t0
          = inr (mkClaims (Some "u7"))
       /\ authWsFromReq (P:=stub) {["JWT_SECRET" := ""]} (dashboard_request token) t0
          = Some (mkClaims (Some "u7")).
Proof.
  intros query req.
  assert (only_userId query) as Hq by (right; by exists "u7").
  assert (t0 / 1000 < t0 / 1000 + 12 * 3600) as Ht by lia.
  split; [exact Hq|]. split; [exact Ht|].
  destruct (token_round_trip (P:=stub) {["JWT_SECRET" := ""]} 32768 req query t0 t0
              eq_refl Hq Ht)
    as (_ & Hsecret & who & token & Hh & _ & Hfrom & Hbearer & Hws & _).
  split; [by apply Hsecret|].
  assert (who = "u7") as ->.
  { destruct Hfrom as [E | [_ [E | E]]]; [by injection E | discriminate E | discriminate E]. }
  exists token. split; [exact Hh|]. split; [apply (Hbearer None) | exact Hws].
Defined.

(** ** The unique index *)

Lemma insertMany_no_index (events : list event) (c : raw_events) :
  eventId_unique c = false -> docs (insertMany events c) = docs c ++ events.
Proof.
  unfold insertMany. revert c. induction events as [|e events IH]; intros c Hc; simpl.
  - by rewrite app_nil_r.
  - unfold insertOne at 2. rewrite Hc. cbn [andb]. rewrite IH by done.
    cbn [docs]. by rewrite <- app_assoc.
Qed.

Section Index.
Context {P : Platform} (env : gmap string string) (MAX_MSG_BYTES : Z).

Local Abbreviation step := (step env MAX_MSG_BYTES).
Local Abbreviation run := (run env MAX_MSG_BYTES).

Lemma run_eventId_unique (ls : list label) (s : server) :
  eventId_unique (eventsCol (run ls s)) = eventId_unique (eventsCol s).
Proof.
  revert s. induction ls as [|l ls IH]; intros s; [done|].
  rewrite run_cons, IH.
  destruct (step_eventsCol env MAX_MSG_BYTES l s) as [->|[events ->]]; [done|].
  apply insertMany_unique.
Qed.

(** X11. The unique index is decided at start-up, for good.  In every state
    reached from a start on the raw events [raw] the index [eventId_1] exists
    exactly when no two events of [raw] shared an [eventId]: the refusal of
    [createIndex] is swallowed.  With the index no two stored events ever
    share an id; without it every batch is stored whole, duplicates and
    all. *)
Theorem index_decided_at_startup (raw : list event) (aggs : gmap (Z * Z) aggregate)
    (ls : list label) :
  let s := run ls (init raw aggs) in
  eventId_unique (eventsCol s) = bool_decide (NoDup (map eventId raw))
  /\ (NoDup (map eventId raw) -> NoDup (map eventId (docs (eventsCol s))))
  /\ (~ NoDup (map eventId raw) ->
      forall tid events from now,
        jobs s = [] -> tasks s !! tid = Some (AwaitInsert events from) ->
        docs (eventsCol (step (InsertDone tid true now) s)) = docs (eventsCol s) ++ events).
Proof.
  intros s.
  assert (eventId_unique (eventsCol s) = bool_decide (NoDup (map eventId raw))) as Hu.
  { subst s. by rewrite run_eventId_unique. }
  split; [exact Hu|]. split.
  - intros Hn. apply (reachable_raw_events env MAX_MSG_BYTES).
    + subst s. apply reachable_run, reachable_init.
    + rewrite Hu. by apply bool_decide_eq_true.
  - intros Hn tid events from now Hj Ht.
    rewrite (step_InsertDone env MAX_MSG_BYTES) by done. unfold insert_done. rewrite Ht.
    rewrite handleEvents_windows_eventsCol. server_simpl.
    apply insertMany_no_index. rewrite Hu. by apply bool_decide_eq_false.
Qed.
End Index.

(** ** The persisted aggregates *)

Lemma tally_errors (events : list event) (e : entry) :
  errors (fold_left tally events e) = errors e + count_errors events.
Proof.
  unfold count_errors. revert e. induction events as [|ev events IH]; intros e; simpl.
  - lia.
  - rewrite IH. cbn [tally errors]. rewrite filter_cons.
    destruct (String.eqb (action ev) "error") eqn:E.
    + apply String.eqb_eq in E. rewrite decide_True by done. cbn [length]. lia.
    + apply String.eqb_neq in E. rewrite decide_False by done. lia.
Qed.

Lemma updateOne_lookup (w b : Z) (events : list event) (col : gmap (Z * Z) aggregate)
    (k : Z * Z) :
  updateOne w b events col !! k
  = if decide (k = (w, b)) then
      let old := default (mkAggregate 0 0 b) (col !! (w, b)) in
      Some (mkAggregate (a_count old + Z.of_nat (length events))
                        (a_errors old + count_errors events) (createdAt old))
    else col !! k.
Proof.
  unfold updateOne. case_decide as E.
  - subst k. destruct (col !! (w, b)) as [d|]; by rewrite lookup_insert_eq.
  - destruct (col !! (w, b)) as [d|]; by rewrite lookup_insert_ne.
Qed.

Section Aggregates.
Context {P : Platform} (env : gmap string string) (MAX_MSG_BYTES : Z).

Local Abbreviation run := (run env MAX_MSG_BYTES).

(** X10. The persisted aggregates follow the windows.  Once MongoDB has
    answered the insert and the three upserts of a batch, for each window the
    document of the bucket of [now] has the batch's size added to its count
    and the batch's number of error events added to its errors, from zero and
    with [createdAt] the bucket start if it was not there, keeping
    [createdAt] if it was; the bucket in memory grew by the same two
    numbers; and no other document changed. *)
Theorem aggregates_follow_memory (s : server) (tid : nat) (events : list event)
    (from : caller) (ok : bool) (now : Z) :
  tasks s !! tid = Some (AwaitInsert events from) ->
  jobs s = [] ->
  let s' := run (ingestion tid ok now) s in
  (forall w, w ∈ WINDOW_SIZES ->
     let b := getBucketStart now w in
     let old := default (mkAggregate 0 0 b) (aggCol s !! (w, b)) in
     aggCol s' !! (w, b)
     = Some (mkAggregate (a_count old + Z.of_nat (length events))
                         (a_errors old + count_errors events) (createdAt old))
     /\ count (bucket_of (memoryWindows s') w b)
        = count (bucket_of (memoryWindows s) w b) + Z.of_nat (length events)
     /\ errors (bucket_of (memoryWindows s') w b)
        = errors (bucket_of (memoryWindows s) w b) + count_errors events)
  /\ (forall k, (forall w, w ∈ WINDOW_SIZES -> k <> (w, getBucketStart now w)) ->
        aggCol s' !! k = aggCol s !! k).
Proof.
  intros Ht Hj s'.
  assert (memoryWindows s' = fst (windows_run events now (memoryWindows s))
          /\ aggCol s' = upserts_run events now (aggCol s)) as [Hmw Hagg].
  { subst s'. rewrite (ingestion_run env MAX_MSG_BYTES s tid events from ok now Ht Hj).
    by destruct (finished_fields tid events from "dashboard:global"
      (agg_delta (snd (windows_run events now (memoryWindows s))))
      (mkServer (fst (windows_run events now (memoryWindows s)))
                (topicToSockets s) (sockets s)
                (if ok then insertMany events (eventsCol s) else eventsCol s)
                (upserts_run events now (aggCol s))
                (delete tid (tasks s)) [] (responses s) (rejected s)))
      as (-> & _ & _ & -> & _). }
  rewrite Hmw, Hagg. unfold upserts_run, WINDOW_SIZES. cbn [fold_left].
  split.
  - intros w Hw. cbv zeta. split; [|split].
    + rewrite !elem_of_cons, elem_of_nil in Hw. rewrite !updateOne_lookup.
      destruct Hw as [->|[->|[->|[]]]];
        repeat (case_decide; simplify_eq); try done.
    + unfold bucket_of at 1. rewrite windows_run_bucket by done. cbn [default].
      apply fold_tally_count.
    + unfold bucket_of at 1. rewrite windows_run_bucket by done. cbn [default].
      apply tally_errors.
  - intros k Hk. rewrite !updateOne_lookup.
    rewrite !decide_False; [done|..]; apply Hk; unfold WINDOW_SIZES; rewrite !elem_of_cons; auto.
Qed.
End Aggregates.

Lemma aggregates_follow_memory_witness :
  let post := bearer_request "change_me.u1" (Some (JArr [event_json sample_uuid "/" "error"])) in
  let s := step (P:=stub) ∅ 32768 (PostIngest 2 post t0) (init [] ∅) in
  tasks s !! 2%nat = Some (AwaitInsert [validated sample_uuid "/" "error"] FromHttp)
  /\ jobs s = []
  /\ aggCol (run (P:=stub) ∅ 32768 (ingestion 2 true t0) s) !! (5, getBucketStart t0 5)
     = Some (mkAggregate 1 1 (getBucketStart t0 5)).
Proof.
  intros post s.
  assert (tasks s !! 2%nat
          = Some (AwaitInsert [validated sample_uuid "/" "error"] FromHttp)) as Ht
    by (vm_compute; reflexivity).
  assert (jobs s = []) as Hj by (vm_compute; reflexivity).
  split; [exact Ht|]. split; [exact Hj|].
  destruct (aggregates_follow_memory (P:=stub) ∅ 32768 s 2 _ FromHttp true t0 Ht Hj)
    as [H _].
  destruct (H 5) as [Ha _]; [unfold WINDOW_SIZES; rewrite !elem_of_cons; auto|].
  exact Ha.
Defined.

(** ** The dashboard client *)

Lemma jsmap_keys_set_old {V : Type} (k : string) (v : V) (m : list (string * V)) :
  k ∈ JsMap.keys m -> JsMap.keys (JsMap.set k v m) = JsMap.keys m.
Proof.
  unfold JsMap.keys. induction m as [|[k0 v0] m IH]; simpl.
  - intros H. by apply elem_of_nil in H.
  - intros [->|Hk]%elem_of_cons.
    + by rewrite String.eqb_refl.
    + destruct (String.eqb k0 k) eqn:E; [done|]. simpl. by rewrite IH.
Qed.

Lemma coalesce_fold_get {V : Type} (d : list (string * V)) (ks : list string)
    (b : list (string * V)) (k : string) :
  (forall k', k' ∈ ks -> k' ∈ JsMap.keys d) ->
  JsMap.get k (fold_left (fun out k =>
                            match JsMap.get k d with
                            | Some v => JsMap.set k v out
                            | None => out
                            end) ks b)
  = if bool_decide (k ∈ ks) then JsMap.get k d else JsMap.get k b.
Proof.
  revert b. induction ks as [|k0 ks IH]; intros b Hks; simpl.
  - first [done | by rewrite bool_decide_eq_false_2 by apply not_elem_of_nil].
  - rewrite IH by (intros; apply Hks; by right).
    destruct (JsMap.get k0 d) as [v|] eqn:E.
    + case_bool_decide as Hin.
      * rewrite bool_decide_eq_true_2; [done|by right].
      * destruct (decide (k = k0)) as [->|Hne].
        -- rewrite bool_decide_eq_true_2 by (by left). by rewrite jsmap_get_set_eq.
        -- rewrite bool_decide_eq_false_2 by (rewrite elem_of_cons; tauto).
           by apply jsmap_get_set_ne.
    + exfalso. apply jsmap_get_keys in E. apply E, Hks. by left.
Qed.

(** X21. [coalesce(base, delta)] of the client: a key of the delta reads
    the value of the delta, any other key the value of the base; without a
    base the result is the delta, without a delta the base.  For two frames
    of the server, which both carry the three windows, the result is the
    delta, whatever the snapshot: the dashboard shows the last delta it got. *)
Theorem coalesce_delta_wins {V : Type} (base delta : list (string * V)) :
  (exists out, Client.coalesce (Some base) (Some delta) = Some out
     /\ forall k, JsMap.get k out
                  = match JsMap.get k delta with
                    | Some v => Some v
                    | None => JsMap.get k base
                    end)
  /\ Client.coalesce None (Some delta) = Some delta
  /\ Client.coalesce (Some base) None = Some base
  /\ (JsMap.keys base = ["1s"; "5s"; "60s"] -> JsMap.keys delta = ["1s"; "5s"; "60s"] ->
      Client.coalesce (Some base) (Some delta) = Some delta).
Proof.
  split; [|split; [done|split; [done|]]].
  - unfold Client.coalesce. cbn [default from_option id].
    eexists. split; [reflexivity|]. intros k.
    rewrite coalesce_fold_get by done. case_bool_decide as Hin.
    + destruct (JsMap.get k delta) eqn:E; [done|]. by apply jsmap_get_keys in E.
    + apply jsmap_get_keys in Hin. by rewrite Hin.
  - intros Hb Hd. unfold Client.coalesce. cbn [default from_option id]. rewrite Hd.
    destruct base as [|[k1 v1] [|[k2 v2] [|[k3 v3] [|]]]]; try done.
    destruct delta as [|[j1 w1] [|[j2 w2] [|[j3 w3] [|]]]]; try done.
    unfold JsMap.keys in Hb, Hd. by simplify_eq/=.
Qed.

Lemma reconnect_delays_bounds (es : list Client.ws_event) (b d : Z) :
  500 <= b <= 10000 -> d ∈ Client.reconnect_delays b es -> 500 <= d <= 10000.
Proof.
  revert b. induction es as [|e es IH]; intros b Hb; simpl.
  - intros H. by apply elem_of_nil in H.
  - destruct e; simpl.
    + apply IH. lia.
    + intros [->|Hd]%elem_of_cons; [done|]. apply (IH (Z.min (b * 2) 10000)); [lia|done].
Qed.

Lemma reconnect_delays_closes (n k : nat) :
  Client.reconnect_delays (Z.min (500 * 2 ^ Z.of_nat k) 10000) (replicate n Client.onclose)
  = map (fun i => Z.min (500 * 2 ^ Z.of_nat i) 10000) (seq k n).
Proof.
  revert k. induction n as [|n IH]; intros k; simpl; [done|].
  f_equal. rewrite <- IH. f_equal.
  replace (Z.of_nat (S k)) with (Z.succ (Z.of_nat k)) by lia.
  rewrite Z.pow_succ_r by lia.
  assert (0 < 2 ^ Z.of_nat k) by (apply Z.pow_pos_nonneg; lia). lia.
Qed.

(** X22. The reconnects of the client: every delay is between 500 and
    10,000 ms; after [n] closes in a row without an open the delays were
    500, 1000, 2000, ..., doubled each time and capped at 10,000; and an
    open starts the sequence again at 500. *)
Theorem reconnect_backoff :
  (forall es d, d ∈ Client.reconnect_delays 500 es -> 500 <= d <= 10000)
  /\ (forall n, Client.reconnect_delays 500 (replicate n Client.onclose)
                = map (fun i => Z.min (500 * 2 ^ Z.of_nat i) 10000) (seq 0 n))
  /\ (forall b es, Client.reconnect_delays b (Client.onopen :: es)
                   = Client.reconnect_delays 500 es).
Proof.
  split; [|split].
  - intros es d. apply reconnect_delays_bounds. lia.
  - intros n. by rewrite <- reconnect_delays_closes.
  - done.
Qed.

(** X23. The history of the dashboard after a new sample: it ends with the
    sample, it is the tail of the old history with the sample added, and it
    holds [max(10, range)] entries or less: the old history plus one, cut
    from the front to that bound. *)
Theorem history_bounded {A : Type} (range : Z) (prev : list A) (x : A) :
  let h := Client.push_history range prev x in
  length h = Nat.min (length prev + 1)%nat (Z.to_nat (Z.max 10 range))
  /\ Z.of_nat (length h) <= Z.max 10 range
  /\ last h = Some x
  /\ h `suffix_of` prev ++ [x].
Proof.
  intros h. subst h. unfold Client.push_history, Client.slice_last.
  rewrite length_app. cbn [length].
  assert (length prev + 1 - Z.to_nat (Z.max 10 range) <= length prev)%nat as Hn by lia.
  split; [rewrite length_drop, length_app; cbn [length]; lia|].
  split; [rewrite length_drop, length_app; cbn [length]; lia|].
  split.
  - rewrite drop_app_le by done. apply last_snoc.
  - apply suffix_drop.
Qed.

Lemma demo_strings (i : nat) :
  truthy_str (Client.demo_session i) = true
  /\ truthy_str (Client.demo_route i) = true
  /\ truthy_str (Client.demo_action i) = true.
Proof.
  split; [done|]. unfold Client.demo_route, Client.demo_action.
  pose proof (Nat.mod_upper_bound i 4 ltac:(lia)).
  pose proof (Nat.mod_upper_bound i 3 ltac:(lia)).
  split.
  - destruct (i mod 4)%nat as [|[|[|[|]]]]; try done; lia.
  - destruct (i mod 3)%nat as [|[|[|]]]; try done; lia.
Qed.

Lemma integer_min0_inject (n : Z) :
  0 <= n <= 2 ^ 53 - 1 -> Joi.integer_min0 (inject_Z n) = Some n.
Proof.
  intros Hn. unfold Joi.integer_min0, inject_Z. cbn [Qnum Qden].
  rewrite Z.mod_1_r, Z.div_1_r. cbn [Z.eqb andb].
  replace (0 <=? n) with true by (symmetry; lia).
  replace (n <=? 2 ^ 53 - 1) with true by (symmetry; lia). done.
Qed.

Lemma length_append (a b : string) :
  String.length (a +:+ b) = (String.length a + String.length b)%nat.
Proof. induction a as [|c a IH]; simpl; [done|]. by f_equal. Qed.

Lemma length_quoted (s : string) :
  String.length (Client.quoted s) = S (S (String.length s)).
Proof. unfold Client.quoted. cbn. rewrite length_append. cbn. lia. Qed.

Lemma length_concat (sep : string) (l : list string) :
  String.length (String.concat sep l)
  = (sum_list (String.length <$> l) + String.length sep * (length l - 1))%nat.
Proof.
  induction l as [|x [|y l] IH]; [cbn; lia | cbn; lia |].
  change (String.concat sep (x :: y :: l)) with (x +:+ sep +:+ String.concat sep (y :: l)).
  rewrite !length_append, IH.
  replace (length (x :: y :: l) - 1)%nat with (S (length (y :: l) - 1)) by (cbn; lia).
  rewrite Nat.mul_succ_r, !fmap_cons. cbn [sum_list sum_list_with]. unfold id.
  generalize (String.length sep * (length (y :: l) - 1))%nat. lia.
Qed.

(** The length of the text of a batch: the two brackets, the records and the
    commas between them. *)
Lemma demo_body_length (now : Z) (ids : list string) :
  String.length (Client.demo_body now ids)
  = (2 + sum_list (imap (fun i id => String.length (Client.demo_record_text now i id)) ids)
     + (length ids - 1))%nat.
Proof.
  unfold Client.demo_body.
  rewrite !length_append, length_concat, length_imap. cbn [String.length].
  replace (String.length <$> imap (Client.demo_record_text now) ids)
    with (imap (fun i id => String.length (Client.demo_record_text now i id)) ids).
  - lia.
  - generalize (Client.demo_record_text now). intros f. revert f.
    induction ids as [|id ids IH]; intros f; [done|]. cbn. f_equal. apply IH.
Qed.

Lemma demo_record_length (now : Z) (i : nat) (id : string) :
  String.length id = 36%nat -> String.length (decimal now) = 13%nat ->
  String.length (Client.demo_record_text now i id)
  = String.length (Client.demo_record_text t0 i sample_uuid).
Proof.
  intros Hid Hnow. unfold Client.demo_record_text.
  rewrite !length_append, !length_quoted, Hid, Hnow. reflexivity.
Qed.

(** With ids of 36 characters and a clock of 13 digits the length of the
    text depends on the number of records only. *)
Lemma canonical_body_length (now : Z) (ids : list string) :
  Forall (fun id => String.length id = 36%nat) ids ->
  String.length (decimal now) = 13%nat ->
  String.length (Client.demo_body now ids)
  = String.length (Client.demo_body t0 (replicate (length ids) sample_uuid)).
Proof.
  intros Hids Hnow. rewrite !demo_body_length, length_replicate.
  assert (imap (fun i id => String.length (Client.demo_record_text now i id)) ids
          = imap (fun i id => String.length (Client.demo_record_text t0 i id))
                 (replicate (length ids) sample_uuid)) as ->; [|done].
  transitivity (imap (fun i (_ : string) =>
                        String.length (Client.demo_record_text t0 i sample_uuid)) ids).
  - apply imap_ext. intros i id Hi. apply demo_record_length; [|done].
    rewrite Forall_forall in Hids. apply Hids. by eapply list_elem_of_lookup_2.
  - rewrite imap_seq_0.
    transitivity (imap (fun i (_ : string) =>
                          String.length (Client.demo_record_text t0 i sample_uuid))
                       (replicate (length ids) sample_uuid)).
    + by rewrite imap_seq_0, length_replicate.
    + apply imap_ext. intros i id Hi. by apply lookup_replicate in Hi as [-> _].
Qed.

Lemma demo_body_longer (now : Z) (ids more : list string) :
  (String.length (Client.demo_body now ids)
   <= String.length (Client.demo_body now (ids ++ more)))%nat.
Proof.
  rewrite !demo_body_length, imap_app, length_app.
  rewrite sum_list_with_app. lia.
Qed.

(** The threshold of the limit: 207 records fit, 208 do not. *)
Lemma canonical_body_limit (now : Z) (ids : list string) :
  Forall (fun id => String.length id = 36%nat) ids ->
  String.length (decimal now) = 13%nat ->
  within_json_limit (Client.demo_body now ids) <-> (length ids <= 207)%nat.
Proof.
  intros Hids Hnow. unfold within_json_limit, JSON_LIMIT.
  rewrite canonical_body_length by done.
  assert (Z.of_nat (String.length (Client.demo_body t0 (replicate 207 sample_uuid))) = 32643)
    as H207 by (vm_compute; reflexivity).
  assert (Z.of_nat (String.length (Client.demo_body t0 (replicate 208 sample_uuid))) = 32801)
    as H208 by (vm_compute; reflexivity).
  destruct (decide (length ids <= 207)%nat) as [Hle|Hgt].
  - split; [done|]. intros _.
    pose proof (demo_body_longer t0 (replicate (length ids) sample_uuid)
                  (replicate (207 - length ids) sample_uuid)) as Hm.
    rewrite <- replicate_add in Hm.
    replace (length ids + (207 - length ids))%nat with 207%nat in Hm by lia. lia.
  - split; [|lia]. intros Hfit. exfalso.
    pose proof (demo_body_longer t0 (replicate 208 sample_uuid)
                  (replicate (length ids - 208) sample_uuid)) as Hm.
    rewrite <- replicate_add in Hm.
    replace (208 + (length ids - 208))%nat with (length ids) in Hm by lia. lia.
Qed.

Section DemoBatch.
Context {P : Platform} (env : gmap string string) (MAX_MSG_BYTES : Z).

Local Abbreviation step := (step env MAX_MSG_BYTES).
Local Abbreviation run := (run env MAX_MSG_BYTES).

Lemma demo_record_valid (now : Z) (i : nat) (id : string) :
  Joi.guid_uuidv4 id = true -> 0 <= now <= 2 ^ 53 - 1 ->
  eventSchema_validate (withDefaults (Client.demo_record now i id))
  = Some (Client.demo_event now i id).
Proof.
  intros Hid Hnow. destruct (demo_strings i) as (Hs & Hr & Ha).
  unfold Client.demo_record, withDefaults. cbn [own_props fold_left fst snd].
  cbn [JsMap.set String.eqb Ascii.eqb Bool.eqb].
  unfold eventSchema_validate, Joi.guid_required.
  cbn -[Joi.guid_uuidv4 truthy_str Joi.integer_min0 Client.demo_user Client.demo_session
        Client.demo_route Client.demo_action inject_Z].
  rewrite (guid_nonempty id Hid), Hid, Hs, Hr, Ha, integer_min0_inject by done.
  reflexivity.
Qed.

Lemma demo_batch_valid (now : Z) (ids : list string) (k : nat) :
  Forall (fun id => Joi.guid_uuidv4 id = true) ids -> 0 <= now <= 2 ^ 53 - 1 ->
  validate_all (imap (fun i => Client.demo_record now (k + i)) ids)
  = imap (fun i => Client.demo_event now (k + i)) ids.
Proof.
  intros Hids Hnow. revert k. induction Hids as [|id ids Hid Hids IH]; intros k; [done|].
  cbn [imap]. unfold validate_all. cbn [omap list_omap].
  rewrite demo_record_valid by done. f_equal.
  specialize (IH (S k)). unfold validate_all in IH.
  erewrite (imap_ext _ (fun i => Client.demo_record now (S k + i))), IH.
  - apply imap_ext. intros i x _. cbn. f_equal. lia.
  - intros i x _. cbn. f_equal. lia.
Qed.

Lemma demo_errors (now : Z) (ids : list string) :
  count_errors (imap (Client.demo_event now) ids) = Z.of_nat (length ids / 3).
Proof.
  unfold count_errors. f_equal.
  induction ids as [|id ids IH] using rev_ind; [done|].
  rewrite imap_app, filter_app, !length_app, IH. cbn [imap length].
  rewrite filter_cons, filter_nil. cbn [Client.demo_event action].
  rewrite Nat.add_0_r. unfold Client.demo_action.
  pose proof (Nat.mod_upper_bound (length ids) 3 ltac:(lia)) as Hm.
  pose proof (Nat.div_mod_eq (length ids) 3) as Hd.
  assert ((length ids + 1) / 3 = length ids / 3 + (if decide (length ids mod 3 = 2) then 1 else 0))%nat
    as ->.
  { case_decide as E.
    - symmetry. apply (Nat.div_unique _ 3 _ 0); lia.
    - symmetry. apply (Nat.div_unique _ 3 _ (length ids mod 3 + 1)); lia. }
  destruct (length ids mod 3)%nat as [|[|[|]]]; cbn [nth]; [..|lia];
    repeat case_decide; simplify_eq; cbn [length]; lia.
Qed.

(** X24. The batch of "Send Synthetic Events".  With ids that are version-4
    UUIDs and a clock within the safe integers, every record the client
    builds passes the server's validation, with the fields the client gave
    it, and every third event is an error.  The text of the batch is within
    the 32kb limit of [express.json] for up to 207 records and over it from
    208 records on, when the ids have the 36 characters of
    [crypto.randomUUID()] and the clock has 13 digits; a text over the limit
    is answered 413 by the middleware and does not reach the route.  When
    the text is within the limit, a post that has passed [authHttp] and
    whose body is the batch is answered [{accepted: count}] once the insert
    has been answered, failing or not, and the three upserts have
    succeeded, or 400 'empty payload' when the count is zero. *)
Theorem demo_batch_accepted (now : Z) (ids : list string) :
  Forall (fun id => Joi.guid_uuidv4 id = true) ids -> 0 <= now <= 2 ^ 53 - 1 ->
  validate_all (imap (Client.demo_record now) ids) = imap (Client.demo_event now) ids
  /\ count_errors (imap (Client.demo_event now) ids) = Z.of_nat (length ids / 3)
  /\ (Forall (fun id => String.length id = 36%nat) ids ->
      String.length (decimal now) = 13%nat ->
      (within_json_limit (Client.demo_body now ids) <-> (length ids <= 207)%nat))
  /\ (within_json_limit (Client.demo_body now ids) ->
      forall s rid req decoded now',
        jobs s = [] -> fresh rid s = true ->
        authHttp env req now' = inr decoded ->
        body req = Some (Client.demo_batch now ids) ->
        (ids = [] ->
         step (PostIngest rid req now') s
         = respond rid (mkResponse 400 (ErrorBody "empty payload")) s)
        /\ (ids <> [] ->
            forall ok now'',
              responses (run (PostIngest rid req now' :: ingestion rid ok now'' ++ [RunJob]) s)
                !! rid
              = Some (mkResponse 200 (Accepted (length ids))))).
Proof.
  intros Hids Hnow.
  assert (validate_all (imap (Client.demo_record now) ids)
          = imap (Client.demo_event now) ids) as Hv.
  { exact (demo_batch_valid now ids 0 Hids Hnow). }
  split; [exact Hv|]. split; [apply demo_errors|].
  split; [apply canonical_body_limit|].
  intros _ s rid req decoded now' Hj Hf Ha Hb.
  assert (step (PostIngest rid req now') s = ingest_handler rid req s) as Hstep.
  { rewrite (step_PostIngest env MAX_MSG_BYTES) by done. unfold post_ingest. by rewrite Ha. }
  split.
  - intros ->. rewrite Hstep. apply ingest_handler_empty. by rewrite Hb.
  - intros Hne ok now''. rewrite run_cons, Hstep.
    rewrite ingest_handler_records by (rewrite Hb; by destruct ids).
    rewrite Hb. unfold Client.demo_batch. cbn [records]. rewrite Hv.
    destruct (imap (Client.demo_event now) ids) as [|ev valid] eqn:E.
    { destruct ids; done. }
    rewrite (accepted_run env MAX_MSG_BYTES) by done.
    unfold respond. server_simpl. rewrite lookup_insert_eq. do 3 f_equal.
    by rewrite <- E, length_imap.
Qed.
End DemoBatch.

Lemma demo_batch_accepted_witness :
  let ids := replicate 207 sample_uuid in
  let req := bearer_request "change_me.u1" (Some (Client.demo_batch t0 ids)) in
  Forall (fun id => Joi.guid_uuidv4 id = true) ids
  /\ 0 <= t0 <= 2 ^ 53 - 1
  /\ Forall (fun id => String.length id = 36%nat) ids
  /\ String.length (decimal t0) = 13%nat
  /\ Z.of_nat (String.length (Client.demo_body t0 ids)) = 32643
  /\ Z.of_nat (String.length (Client.demo_body t0 (ids ++ [sample_uuid]))) = 32801
  /\ within_json_limit (Client.demo_body t0 ids)
  /\ count_errors (imap (Client.demo_event t0) ids) = 69
  /\ responses (run (P:=stub) ∅ 32768
                   (PostIngest 2 req t0 :: ingestion 2 true t0 ++ [RunJob]) (init [] ∅))
       !! 2%nat
     = Some (mkResponse 200 (Accepted 207)).
Proof.
  intros ids req.
  assert (Forall (fun id => Joi.guid_uuidv4 id = true) ids) as Hids.
  { apply Forall_replicate. vm_compute. reflexivity. }
  assert (0 <= t0 <= 2 ^ 53 - 1) as Hnow by (unfold t0; lia).
  assert (Forall (fun id => String.length id = 36%nat) ids) as Hlen.
  { apply Forall_replicate. reflexivity. }
  assert (String.length (decimal t0) = 13%nat) as Hclock by (vm_compute; reflexivity).
  split; [exact Hids|]. split; [exact Hnow|]. split; [exact Hlen|]. split; [exact Hclock|].
  split; [vm_compute; reflexivity|]. split; [vm_compute; reflexivity|].
  destruct (demo_batch_accepted (P:=stub) ∅ 32768 t0 ids Hids Hnow)
    as (_ & He & Hlimit & Hpost).
  assert (within_json_limit (Client.demo_body t0 ids)) as Hfits.
  { apply (Hlimit Hlen Hclock). subst ids. rewrite length_replicate. lia. }
  split; [exact Hfits|]. split; [exact He|].
  destruct (Hpost Hfits (init [] ∅) 2%nat req (mkClaims (Some "u1")) t0) as [_ Hacc];
    [reflexivity | vm_compute; reflexivity | vm_compute; reflexivity | reflexivity |].
  apply (Hacc ltac:(discriminate) true t0).
Defined.

(** ** Batches in parts *)

(** X7. A batch sent in two parts within one second leaves the windows as
    the whole batch sent at once does, and the delta of the second part is
    the delta the whole batch would have had. *)
Theorem batch_split (first second : list event) (now now' : Z) (mw : gmap (Z * Z) entry) :
  now' / 1000 = now / 1000 ->
  windows_run second now' (fst (windows_run first now mw))
  = windows_run (first ++ second) now mw.
Proof.
  intros H. rewrite !windows_run_eq. cbn [fst].
  rewrite !(getBucketStart_same_second now now') by (done || lia).
  unfold bucket_of.
  rewrite lookup_insert_eq.
  rewrite (lookup_insert_ne _ (60, _) (5, _)) by congruence.
  rewrite lookup_insert_eq.
  rewrite (lookup_insert_ne _ (60, _) (1, _)) by congruence.
  rewrite (lookup_insert_ne _ (5, _) (1, _)) by congruence.
  rewrite lookup_insert_eq. cbn [default from_option id].
  rewrite !fold_left_app. f_equal.
  apply map_eq. intros k. rewrite !lookup_insert.
  repeat case_decide; simplify_eq; done.
Qed.

Lemma batch_split_witness :
  (t0 + 1) / 1000 = t0 / 1000
  /\ windows_run [view_of "/b"] (t0 + 1) (fst (windows_run [view_of "/a"] t0 ∅))
     = windows_run [view_of "/a"; view_of "/b"] t0 ∅.
Proof.
  assert ((t0 + 1) / 1000 = t0 / 1000) as H by reflexivity.
  split; [exact H|].
  exact (batch_split [view_of "/a"] [view_of "/b"] t0 (t0 + 1) ∅ H).
Defined.

(** ** The order of the events of a batch *)

Lemma same_tallies_refl (e : entry) : same_tallies e e.
Proof. by repeat split. Qed.

Lemma same_tallies_trans (a b c : entry) :
  same_tallies a b -> same_tallies b c -> same_tallies a c.
Proof.
  intros (C1 & U1 & E1 & R1) (C2 & U2 & E2 & R2).
  repeat split; first [congruence | intros r; by rewrite R1].
Qed.

Lemma tally_same (e e' : entry) (ev : event) :
  same_tallies e e' -> same_tallies (tally e ev) (tally e' ev).
Proof.
  intros (C & U & E & R). unfold same_tallies, tally. cbn [count uniques errors routes].
  rewrite C, U, E, (R (route ev)). repeat split; try done.
  intros r. destruct (decide (route ev = r)) as [<-|Hne].
  - by rewrite !get_set_eq.
  - by rewrite !get_set_ne.
Qed.

Lemma tally_comm (e : entry) (a b : event) :
  same_tallies (tally (tally e a) b) (tally (tally e b) a).
Proof.
  unfold same_tallies, tally. cbn [count uniques errors routes].
  split; [lia|]. split; [|split].
  - destruct (truthy_str (userId a)), (truthy_str (userId b)); try done.
    apply leibniz_equiv. intros x. rewrite !elem_of_union. tauto.
  - repeat case_match; lia.
  - intros r. destruct (decide (route a = route b)) as [E|Hne].
    + rewrite E. rewrite !get_set_eq. cbn.
      destruct (decide (route b = r)) as [<-|Hr];
        [by rewrite !get_set_eq | by rewrite !get_set_ne].
    + rewrite (get_set_ne (route a) (route b)) by done.
      rewrite (get_set_ne (route b) (route a)) by done.
      destruct (decide (route a = r)) as [<-|Ha].
      * rewrite get_set_eq. rewrite (get_set_ne (route b)) by done.
        by rewrite get_set_eq.
      * rewrite (get_set_ne (route a) r) by done.
        destruct (decide (route b = r)) as [<-|Hb].
        -- by rewrite !get_set_eq.
        -- by rewrite !get_set_ne.
Qed.

Lemma fold_tally_same (events : list event) (e e' : entry) :
  same_tallies e e' -> same_tallies (fold_left tally events e) (fold_left tally events e').
Proof.
  revert e e'. induction events as [|ev events IH]; intros e e' H; [done|].
  simpl. by apply IH, tally_same.
Qed.

(** X8. The order of the events within a batch does not matter to what a
    bucket counts: the same events in another order give the same count, the
    same users, the same errors and the same tally for every route, and so
    the same count, uniques and errors in the frame.  (The order of the
    routes in the map, which breaks ties in the top ten, is the one thing
    that can differ.) *)
Theorem batch_order (events events' : list event) (e : entry) :
  Permutation events events' ->
  let b := fold_left tally events e in
  let b' := fold_left tally events' e in
  count b = count b' /\ uniques b = uniques b' /\ errors b = errors b'
  /\ (forall r, JsMap.get r (routes b) = JsMap.get r (routes b'))
  /\ s_count (serializeEntry b) = s_count (serializeEntry b')
  /\ s_uniques (serializeEntry b) = s_uniques (serializeEntry b')
  /\ s_errors (serializeEntry b) = s_errors (serializeEntry b').
Proof.
  intros Hp. cbv zeta.
  assert (same_tallies (fold_left tally events e) (fold_left tally events' e)) as H.
  { revert e. induction Hp as [|x l l' Hp IH|x y l|l l' l'' Hp1 IH1 Hp2 IH2]; intros e.
    - apply same_tallies_refl.
    - simpl. apply IH.
    - simpl. apply fold_tally_same, tally_comm.
    - by apply (same_tallies_trans _ (fold_left tally l' e)). }
  destruct H as (C & U & E & R). unfold serializeEntry. cbn [s_count s_uniques s_errors].
  rewrite C, U, E. repeat split; done.
Qed.

Lemma batch_order_witness :
  let events := [view_of "/a"; view_of "/b"] in
  let events' := [view_of "/b"; view_of "/a"] in
  Permutation events events'
  /\ count (fold_left tally events new_entry) = count (fold_left tally events' new_entry)
  /\ JsMap.keys (routes (fold_left tally events new_entry)) = ["/a"; "/b"]
  /\ JsMap.keys (routes (fold_left tally events' new_entry)) = ["/b"; "/a"].
Proof.
  intros events events'.
  assert (Permutation events events') as Hp by apply perm_swap.
  split; [exact Hp|].
  destruct (batch_order events events' new_entry Hp) as (H & _).
  split; [exact H|]. split; reflexivity.
Defined.

(** ** What the frames say *)

Lemma sum_counts_perm (l l' : list (string * Z)) :
  Permutation l l' -> sum_counts l = sum_counts l'.
Proof.
  unfold sum_counts. induction 1 as [|x l l' Hp IH|x y l|l l' l'' _ IH1 _ IH2]; simpl; lia.
Qed.

Lemma sum_counts_take (n : nat) (l : list (string * Z)) :
  Forall (fun rc => 1 <= snd rc) l -> sum_counts (take n l) <= sum_counts l.
Proof.
  unfold sum_counts. intros H. revert n. induction H as [|x l Hx Hl IH]; intros n.
  - by rewrite take_nil.
  - destruct n as [|n]; simpl.
    + assert (0 <= fold_right Z.add 0 (map snd l)); [|lia].
      clear IH. induction Hl as [|y l Hy Hl IH]; simpl; lia.
    + specialize (IH n). lia.
Qed.

Lemma serializeEntry_ok (e : entry) : entry_sound e -> serialized_ok (serializeEntry e).
Proof.
  intros ((Hu & He & Hsum) & He0 & Hn & Hf).
  pose proof (js_sort_perm (routes e)) as Hp.
  assert (Forall (fun rc => 1 <= snd rc) (js_sort by_count_desc (routes e))) as Hf'.
  { by rewrite Hp. }
  unfold serialized_ok, serializeEntry. cbn [s_count s_uniques s_routes s_errors].
  split; [lia|]. split; [done|]. split; [|split; [|split; [|split]]].
  - rewrite <- Hsum, <- (sum_counts_perm _ _ Hp). by apply sum_counts_take.
  - rewrite length_take. lia.
  - apply StronglySorted_take, js_sort_sorted.
  - unfold JsMap.keys. rewrite <- firstn_map. 
    eapply sublist_NoDup; [|apply sublist_take].
    unfold JsMap.keys in Hn. by rewrite Hp.
  - by apply Forall_take.
Qed.

Lemma new_entry_sound : entry_sound new_entry.
Proof.
  split; [apply new_entry_ok|]. unfold new_entry. cbn.
  split; [done|]. split; [apply NoDup_nil_2 | constructor].
Qed.

Lemma tally_sound (e : entry) (ev : event) : entry_sound e -> entry_sound (tally e ev).
Proof.
  intros (Hok & He & Hn & Hf). split; [by apply tally_ok|].
  unfold tally. cbn [errors routes]. split; [destruct (String.eqb _ _); lia|].
  rewrite keys_set. split; [by apply see_NoDup|].
  apply set_Forall_counts; [|done]. pose proof (get_Forall_counts (route ev) _ Hf). lia.
Qed.

Lemma fold_tally_sound (events : list event) (e : entry) :
  entry_sound e -> entry_sound (fold_left tally events e).
Proof.
  revert e. induction events as [|ev events IH]; intros e He; [done|].
  simpl. by apply IH, tally_sound.
Qed.

Lemma bucket_of_sound (mw : gmap (Z * Z) entry) (w b : Z) :
  map_Forall (fun _ e => entry_sound e) mw -> entry_sound (bucket_of mw w b).
Proof.
  intros H. unfold bucket_of. destruct (mw !! (w, b)) as [e|] eqn:E; cbn.
  - exact (H _ _ E).
  - apply new_entry_sound.
Qed.

Lemma update_window_sound (events : list event) (now w : Z) (mw : gmap (Z * Z) entry) :
  map_Forall (fun _ e => entry_sound e) mw ->
  map_Forall (fun _ e => entry_sound e) (fst (update_window events now w mw))
  /\ serialized_ok (snd (update_window events now w mw)).
Proof.
  intros H. unfold update_window. cbn [fst snd].
  pose proof (fold_tally_sound events _ (bucket_of_sound mw w (getBucketStart now w) H)).
  split; [by apply map_Forall_insert_2 | by apply serializeEntry_ok].
Qed.

Lemma snapshot_payload_ok (mw : gmap (Z * Z) entry) (now : Z) :
  map_Forall (fun _ e => entry_sound e) mw ->
  payload_ok (latestAggregatesSnapshot mw now).
Proof.
  intros H. unfold payload_ok, latestAggregatesSnapshot.
  apply Forall_map. apply Forall_forall. intros w _. cbn.
  by apply serializeEntry_ok, bucket_of_sound.
Qed.

Lemma set_payload_ok (k : string) (d : serialized) (data : list (string * serialized)) :
  serialized_ok d -> payload_ok data -> payload_ok (JsMap.set k d data).
Proof.
  intros Hd. unfold payload_ok. induction 1 as [|[k0 d0] data H0 Hdata IH]; simpl.
  - by constructor.
  - destruct (String.eqb k0 k); constructor; done.
Qed.

Lemma entries_ok_frame (s s' : server) :
  memoryWindows s' = memoryWindows s -> tasks s' = tasks s -> jobs s' = jobs s ->
  (forall id ws', sockets s' !! id = Some ws' ->
     exists ws, sockets s !! id = Some ws /\ sent ws' = sent ws) ->
  entries_ok s -> entries_ok s'.
Proof.
  intros Hm Ht Hj Hs (V1 & V2 & V3 & V4). unfold entries_ok. rewrite Hm, Ht, Hj.
  split; [done|]. split; [done|]. split; [done|].
  intros id ws' Hw'. destruct (Hs id ws' Hw') as (ws & Hw & ->). exact (V4 id ws Hw).
Qed.

Lemma entries_ok_windows (tid : nat) (events : list event) (now : Z)
    (deltas : list (string * serialized)) (remaining : list Z) (from : caller)
    (s : server) :
  payload_ok deltas -> entries_ok s ->
  entries_ok (handleEvents_windows tid events now deltas remaining from s).
Proof.
  intros Hd (V1 & V2 & V3 & V4). unfold entries_ok.
  rewrite handleEvents_windows_memoryWindows, handleEvents_windows_tasks,
    handleEvents_windows_jobs.
  destruct remaining as [|w rest].
  - split; [done|]. split; [by apply map_Forall_delete|]. split.
    + destruct from; [|done]. apply Forall_app. split; [done|]. by repeat constructor.
    + intros id ws'. rewrite handleEvents_windows_lookup.
      destruct (sockets s !! id) as [ws|] eqn:Ew; [|done]. cbn. intros [= <-].
      pose proof (V4 id ws Ew) as Hok. destruct (_ && _); [|done].
      unfold ws_send. case_decide; [|done]. cbn. apply Forall_app. split; [done|].
      by repeat constructor.
  - destruct (update_window_sound events now w (memoryWindows s) V1) as [Hm Hs].
    split; [done|]. split; [|split].
    + apply map_Forall_insert_2; [|done]. by apply set_payload_ok.
    + by destruct from.
    + intros id ws'. rewrite handleEvents_windows_lookup. apply V4.
Qed.

Section Entries.
Context {P : Platform} (env : gmap string string) (MAX_MSG_BYTES : Z).

Local Abbreviation step := (step env MAX_MSG_BYTES).
Local Abbreviation reachable := (reachable env MAX_MSG_BYTES).

Lemma step_entries_ok (l : label) (s : server) : entries_ok s -> entries_ok (step l s).
Proof.
  intros Hok. pose proof Hok as (V1 & V2 & V3 & V4).
  assert (forall s', sockets s' = sockets s ->
            forall id ws', sockets s' !! id = Some ws' ->
              exists ws, sockets s !! id = Some ws /\ sent ws' = sent ws) as Hsame.
  { intros s' -> id ws' Hw'. by exists ws'. }
  destruct (step_cases env MAX_MSG_BYTES l s)
    as [->|[(id & ws0 & Hj & Hn & Hws0 & ->)|[(id & ws & topic & now & Hw & Hh & Ho & ->)
       |[(tid & Hf & ->)|[(tid & rs & from & Hf & Hv & Hj & ->)|[(id & ws & Hw & Ho & ->)
       |[(id & ws & Hj & Hw & Hc & ->)|[(id & amount & Hj & ->)
       |[(rid & r & Hj & Hf & Hr & Hr' & ->)
       |[(tid & events & from & ok & now & Hj & Ht & ->)
       |[(tid & events & now & deltas & w & rest & from & Hj & Ht & [->| ->])
       |[(now & Hj & ->)|(j & js & Hj & ->)]]]]]]]]]]]].
  - done.
  - (* connection *)
    unfold entries_ok. server_simpl. split; [done|]. split; [done|]. split; [done|].
    apply map_Forall_insert_2; [|done].
    destruct Hws0 as [->|[decoded ->]]; constructor.
  - (* subscribe *)
    unfold entries_ok, subscribe. server_simpl. split; [done|]. split; [done|]. split.
    + apply Forall_app. split; [done|]. constructor; [|constructor].
      by apply snapshot_payload_ok.
    + intros id' ws'. rewrite lookup_alter. case_decide; [|apply V4].
      subst id'. rewrite Hw. cbn. intros [= <-]. exact (V4 id ws Hw).
  - (* a listener throws *)
    by apply (entries_ok_frame s); [..|apply Hsame|].
  - (* a batch enters *)
    unfold entries_ok.
    rewrite handleEvents_memoryWindows, handleEvents_tasks, handleEvents_jobs,
      handleEvents_sockets by done.
    split; [done|]. split; [|done]. by apply map_Forall_insert_2.
  - (* closing *)
    unfold entries_ok. server_simpl. split; [done|]. split; [done|]. split; [done|].
    apply map_Forall_insert_2; [|done]. exact (V4 id ws Hw).
  - (* close *)
    unfold on_close, unsubscribe_all, entries_ok.
    destruct (handlers ws); server_simpl;
      (split; [done|]); (split; [done|]); (split; [done|]);
      (apply map_Forall_insert_2; [|done]); exact (V4 id ws Hw).
  - (* buffered *)
    unfold entries_ok. server_simpl. split; [done|]. split; [done|]. split; [done|].
    intros id' ws'. rewrite lookup_alter. case_decide; [|apply V4].
    subst id'. destruct (sockets s !! id) as [ws|] eqn:Ew; [|done]. cbn. intros [= <-].
    exact (V4 id ws Ew).
  - (* answered at once *)
    by apply (entries_ok_frame s); [..|apply Hsame|].
  - (* insert answered *)
    apply entries_ok_windows; [constructor|].
    destruct ok; [|done]. by apply (entries_ok_frame s); [..|apply Hsame|].
  - (* upsert answered *)
    apply entries_ok_windows; [exact (V2 tid _ Ht)|].
    by apply (entries_ok_frame s); [..|apply Hsame|].
  - (* upsert failed *)
    unfold entries_ok. server_simpl. split; [done|]. split; [|done].
    by apply map_Forall_delete.
  - (* janitor *)
    unfold entries_ok. server_simpl. split; [|done].
    intros k e Hk. unfold janitor in Hk. apply map_lookup_filter_Some in Hk as [Hk _].
    exact (V1 k e Hk).
  - (* job *)
    rewrite Hj in V3. apply Forall_cons in V3 as [Hjob V3].
    destruct j as [id snapshot|rid n]; unfold entries_ok; cbn [run_job]; server_simpl.
    + split; [done|]. split; [done|]. split; [done|].
      intros id' ws'. rewrite lookup_alter. case_decide; [|apply V4].
      subst id'. destruct (sockets s !! id) as [ws|] eqn:Ew; [|done]. cbn. intros [= <-].
      pose proof (V4 id ws Ew). unfold ws_send. case_decide; [|done]. cbn.
      apply Forall_app. split; [done|]. by repeat constructor.
    + done.
Qed.

Lemma reachable_entries_ok (s : server) : reachable s -> entries_ok s.
Proof.
  induction 1 as [raw aggs|l s Hs IH]; [|by apply step_entries_ok].
  unfold entries_ok, init. server_simpl.
  split; [apply map_Forall_empty|]. split; [apply map_Forall_empty|].
  split; [constructor | apply map_Forall_empty].
Qed.

(** X25. What the frames say hangs together.  In every entry of every frame
    the server ever sent, snapshot or delta, the errors are between 0 and the
    count, the uniques are no more than the count, and the routes are at most
    ten, each named once, in falling order of tallies that are at least 1 and
    add up to no more than the count. *)
Theorem frame_entries_sound (s : server) (id : nat) (ws : socket) (f : frame)
    (key : string) (d : serialized) :
  reachable s -> sockets s !! id = Some ws -> f ∈ sent ws -> (key, d) ∈ frame_data f ->
  0 <= s_errors d <= s_count d
  /\ Z.of_nat (s_uniques d) <= s_count d
  /\ sum_counts (s_routes d) <= s_count d
  /\ (length (s_routes d) <= 10)%nat
  /\ StronglySorted (fun a b => snd b <= snd a) (s_routes d)
  /\ NoDup (JsMap.keys (s_routes d))
  /\ Forall (fun rc => 1 <= snd rc) (s_routes d).
Proof.
  intros Hs Hw Hf Hd. destruct (reachable_entries_ok s Hs) as (_ & _ & _ & V4).
  pose proof (V4 id ws Hw) as Hsent.
  rewrite Forall_forall in Hsent. specialize (Hsent f Hf).
  unfold payload_ok in Hsent. rewrite Forall_forall in Hsent.
  exact (Hsent (key, d) Hd).
Qed.
End Entries.

Lemma frame_entries_sound_witness :
  let dashboard := dashboard_request "change_me.dashboard" in
  let post := bearer_request "change_me.u1" (Some (JArr [event_json sample_uuid "/" "view"])) in
  let s := run (P:=stub) ∅ 32768 (PostIngest 2 post t0 :: ingestion 2 true t0 ++ [RunJob])
               (with_dashboard (P:=stub) ∅ 32768 dashboard) in
  let f := agg_delta [("1s", one_view); ("5s", one_view); ("60s", one_view)] in
  let ws := mkSocket OPEN 0 (Some "dashboard") {["dashboard:global"]} true
              [agg_snapshot (latestAggregatesSnapshot ∅ t0); f] None in
  reachable (P:=stub) ∅ 32768 s
  /\ sockets s !! 0%nat = Some ws
  /\ f ∈ sent ws
  /\ ("5s", one_view) ∈ frame_data f
  /\ Z.of_nat (s_uniques one_view) <= s_count one_view.
Proof.
  intros dashboard post s f ws.
  assert (reachable (P:=stub) ∅ 32768 s) as Hs
    by (apply reachable_run, reachable_run, reachable_init).
  assert (sockets s !! 0%nat = Some ws) as Hw by (vm_compute; reflexivity).
  assert (f ∈ sent ws) as Hf by (apply elem_of_cons; right; apply elem_of_cons; by left).
  assert (("5s", one_view) ∈ frame_data f) as Hd
    by (apply elem_of_cons; right; apply elem_of_cons; by left).
  split; [exact Hs|]. split; [exact Hw|]. split; [exact Hf|]. split; [exact Hd|].
  by destruct (frame_entries_sound (P:=stub) ∅ 32768 s 0 ws f "5s" one_view Hs Hw Hf Hd)
    as (_ & H & _).
Defined.
